(** * Personal finance tracker (src/script.js): model and verified properties

    The program is browser JavaScript.  Its numbers are IEEE 754 binary64
    values, modelled by Rocq's primitive [float]; its strings are sequences
    of UTF-16 code units, modelled by [list N].  The first module, [JS],
    models the runtime functions script.js calls ([trim], [parseFloat],
    [toFixed], number-to-string conversion, [JSON.stringify], [JSON.parse],
    [Math.floor], [Math.abs]) following ECMA-262.  The second module, [App],
    is script.js itself, function by function, over an explicit state. *)

From Stdlib Require Import ZArith NArith List Bool Lia String Ascii Floats.
Import ListNotations.

Set Warnings "-register-all".

#[local] Open Scope list_scope.
#[local] Open Scope Z_scope.

Module JS.

(** ** Strings *)

Definition char16 := N.
Bind Scope N_scope with char16.
Definition jsstring := list char16.
Bind Scope list_scope with jsstring.

(** An ASCII literal as a JavaScript string. *)
Definition lit (s : string) : jsstring :=
  List.map N_of_ascii (list_ascii_of_string s).

Definition char_eqb (a b : char16) : bool := N.eqb a b.

Fixpoint jsstring_eqb (a b : jsstring) : bool :=
  match a, b with
  | [], [] => true
  | x :: a', y :: b' => char_eqb x y && jsstring_eqb a' b'
  | _, _ => false
  end.

(** WhiteSpace and LineTerminator code points (ECMA-262 12.2, 12.3): the
    characters [String.prototype.trim] and [parseFloat] strip. *)
Definition isWhiteSpace (c : char16) : bool :=
  match c with
  | 9 | 10 | 11 | 12 | 13 | 32 | 160 | 5760
  | 8192 | 8193 | 8194 | 8195 | 8196 | 8197 | 8198 | 8199 | 8200 | 8201 | 8202
  | 8232 | 8233 | 8239 | 8287 | 12288 | 65279 => true
  | _ => false
  end%N.

Fixpoint trimStart (s : jsstring) : jsstring :=
  match s with
  | c :: s' => if isWhiteSpace c then trimStart s' else s
  | [] => []
  end.

Definition trimEnd (s : jsstring) : jsstring := rev (trimStart (rev s)).

(** [String.prototype.trim] *)
Definition trim (s : jsstring) : jsstring := trimEnd (trimStart s).

Definition isDigit (c : char16) : bool := ((48 <=? c) && (c <=? 57))%N.

(** The longest prefix of decimal digits, and the rest. *)
Fixpoint spanDigits (s : jsstring) : jsstring * jsstring :=
  match s with
  | c :: s' =>
      if isDigit c then let (d, r) := spanDigits s' in (c :: d, r) else ([], s)
  | [] => ([], [])
  end.

(** The mathematical value of a string of decimal digits. *)
Definition digitsValue (ds : jsstring) : Z :=
  fold_left (fun acc c => 10 * acc + (Z.of_N c - 48)) ds 0.

Fixpoint startsWith (p s : jsstring) : bool :=
  match p, s with
  | [], _ => true
  | a :: p', b :: s' => char_eqb a b && startsWith p' s'
  | _ :: _, [] => false
  end.

(** [s] without its first character when that is [c]. *)
Definition takeChar (c : char16) (s : jsstring) : option jsstring :=
  match s with
  | x :: r => if char_eqb x c then Some r else None
  | [] => None
  end.

(** The decimal digits of a natural number, most significant first. *)
Fixpoint digitsFuel (fuel : nat) (n : N) (acc : jsstring) : jsstring :=
  match fuel with
  | O => acc
  | S fuel' =>
      if (n <? 10)%N then (48 + n)%N :: acc
      else digitsFuel fuel' (n / 10)%N ((48 + n mod 10)%N :: acc)
  end.

Definition decimalDigits (n : Z) : jsstring :=
  digitsFuel (S (N.to_nat (N.log2 (Z.to_N n)))) (Z.to_N n) [].

(** ** Numbers *)

Definition number := float.
Bind Scope float_scope with number.

Definition NaN : number := PrimFloat.nan.
Definition Infinity : number := PrimFloat.infinity.

(** The comparison operators of the language on numbers: [a > b], [a < b],
    [a >= b], [a === b] and [a !== b]; every comparison with NaN is false,
    except [!==]. *)
Definition gt (a b : number) : bool := PrimFloat.ltb b a.
Definition lt (a b : number) : bool := PrimFloat.ltb a b.
Definition ge (a b : number) : bool := PrimFloat.leb b a.
Definition le (a b : number) : bool := PrimFloat.leb a b.
Definition strictEq (a b : number) : bool := PrimFloat.eqb a b.
Definition strictNe (a b : number) : bool := negb (PrimFloat.eqb a b).

Definition isNaN (a : number) : bool := negb (PrimFloat.eqb a a).

Definition isFinite (a : number) : bool :=
  match Prim2SF a with
  | S754_zero _ | S754_finite _ _ _ => true
  | _ => false
  end.

(** [Math.abs] *)
Definition Math_abs (a : number) : number := PrimFloat.abs a.

(** The number nearest to the integer [n] (ties to even): the conversion
    ECMA-262 writes 𝔽(n). *)
Definition ofZ (n : Z) : number := SF2Prim (binary_normalize prec emax n 0 false).

(** [Math.floor]: the greatest integral number not above [a]; NaN, the
    infinities and the zeros are returned as they are. *)
Definition Math_floor (a : number) : number :=
  match Prim2SF a with
  | S754_finite s m e =>
      if 0 <=? e then a
      else
        let q := Z.shiftr (Zpos m) (- e) in
        if s then
          (* the floor of a negative non-integer is one below its truncation *)
          let q' := if Z.eqb (Z.shiftl q (- e)) (Zpos m) then q else q + 1 in
          ofZ (- q')
        else ofZ q
  | _ => a
  end.

(** *** Reading decimal literals

    [roundDecimal m e] is the binary64 value nearest to [m * 10^e] for
    [m > 0], ties to even: what ECMA-262 writes 𝔽(MV) for the mathematical
    value MV of a numeric literal.  The decimal is first brought to the form
    with no trailing zero in [m]; a negative power of ten is divided out to
    64 and more quotient bits, the remainder kept as a sticky bit below
    them, and [binary_normalize] rounds to 53 bits. *)

Fixpoint stripZeros (fuel : nat) (m e : Z) : Z * Z :=
  match fuel with
  | O => (m, e)
  | S fuel' =>
      if Z.eqb (m mod 10) 0 then stripZeros fuel' (m / 10) (e + 1) else (m, e)
  end.

Definition canonicalDecimal (m e : Z) : Z * Z :=
  stripZeros (S (Z.to_nat (Z.log2 m))) m e.

Definition roundCanonical (m e : Z) : spec_float :=
  if 0 <=? e then binary_normalize prec emax (m * 10 ^ e) 0 false
  else
    let den := 10 ^ (- e) in
    let sh := Z.log2 den + 64 in
    let (q, r) := Z.div_eucl (m * 2 ^ sh) den in
    binary_normalize prec emax (2 * q + (if Z.eqb r 0 then 0 else 1)) (- sh - 1) false.

Definition roundDecimal (m e : Z) : number :=
  if m <=? 0 then 0%float
  else let (m', e') := canonicalDecimal m e in SF2Prim (roundCanonical m' e').

Definition signed (neg : bool) (x : number) : number :=
  if neg then PrimFloat.opp x else x.

(** The value of the digits [ip . fp] times ten to the [ex]. *)
Definition decimalValue (ip fp : jsstring) (ex : Z) : number :=
  roundDecimal (digitsValue (ip ++ fp)) (ex - Z.of_nat (List.length fp)).

(** An optional sign: whether it is a minus, and the rest. *)
Definition takeSign (s : jsstring) : bool * jsstring :=
  match takeChar 45%N s with
  | Some r => (true, r)
  | None =>
      match takeChar 43%N s with
      | Some r => (false, r)
      | None => (false, s)
      end
  end.

Definition takeExponentMark (s : jsstring) : option jsstring :=
  match takeChar 101%N s with
  | Some r => Some r
  | None => takeChar 69%N s
  end.

(** An optional ExponentPart at the head of [s]: [e] or [E], an optional
    sign and at least one digit.  Returns the exponent and the rest; when
    no well-formed exponent is there, exponent 0 and [s] itself. *)
Definition exponentPart (s : jsstring) : Z * jsstring :=
  match takeExponentMark s with
  | Some s1 =>
      let (neg, s2) := takeSign s1 in
      let (ds, r) := spanDigits s2 in
      match ds with
      | [] => (0, s)
      | _ => ((if neg then - digitsValue ds else digitsValue ds), r)
      end
  | None => (0, s)
  end.

(** [parseFloat]: leading white space is skipped, then the longest prefix
    that is a StrDecimalLiteral is read; NaN when there is none. *)
Definition parseFloat (input : jsstring) : number :=
  let (neg, s1) := takeSign (trimStart input) in
  if startsWith (lit "Infinity") s1 then signed neg Infinity
  else
    let (ip, r1) := spanDigits s1 in
    let (fp, r2) :=
      match takeChar 46%N r1 with
      | Some r => spanDigits r
      | None => ([], r1)
      end in
    match ip, fp with
    | [], [] => NaN
    | _, _ => let (ex, _) := exponentPart r2 in signed neg (decimalValue ip fp ex)
    end.

(** *** Writing numbers

    Number::toString (ECMA-262 6.1.6.1.20) writes a finite non-zero [x] with
    the digits of the integer [s] and a decimal exponent such that the
    decimal has as few digits as possible among those that read back as
    [x].  For each digit count [k], the only decimals to try are the two
    [k]-digit neighbours of [x]; 17 digits always suffice for binary64, and
    the exact decimal expansion of [x] stands behind them. *)

(** The exact value of the positive finite number [m * 2^e], as a fraction. *)
Definition ratio (m : positive) (e : Z) : Z * Z :=
  if 0 <=? e then (Zpos m * 2 ^ e, 1) else (Zpos m, 2 ^ (- e)).

(** The fraction [x / 10^t]. *)
Definition scale10 (x : Z * Z) (t : Z) : Z * Z :=
  let (num, den) := x in
  if 0 <=? t then (num, den * 10 ^ t) else (num * 10 ^ (- t), den).

(** The least [n], from [c] upwards, with [x < 10^n]. *)
Fixpoint magnitudeFrom (fuel : nat) (x : Z * Z) (c : Z) : Z :=
  match fuel with
  | O => c
  | S fuel' =>
      let (num, den) := scale10 x c in
      if num <? den then c else magnitudeFrom fuel' x (c + 1)
  end.

(** The [n] with [10^(n-1) <= x < 10^n].  The search starts from an
    estimate below it: [log2 x] lies within one of the difference [l] of the
    bit lengths, and [log10 2] is 0.30103 to eight places. *)
Definition magnitude (x : Z * Z) : Z :=
  let l := Z.log2 (fst x) - Z.log2 (snd x) in
  magnitudeFrom 8 x ((l - 1) * 30103 / 100000 - 1).

Definition readsAs (s t : Z) (x : number) : bool :=
  (0 <? s) && PrimFloat.Leibniz.eqb (roundDecimal s t) x.

(** The decimal [s * 10^(n - k)] with at most [k] digits that reads back as
    [x], if there is one; of two, the one nearer to [x], and the even one
    when they are as near (ECMA-262 6.1.6.1.20, note 2). *)
Definition candidate (x : number) (r : Z * Z) (n k : Z) : option (Z * Z) :=
  let t := n - k in
  let (num, den) := scale10 r t in
  let lo := num / den in
  let hi := lo + 1 in
  match readsAs lo t x, readsAs hi t x with
  | true, true =>
      let twice := 2 * (num - lo * den) in
      if twice <? den then Some (lo, t)
      else if den <? twice then Some (hi, t)
      else if Z.even lo then Some (lo, t) else Some (hi, t)
  | true, false => Some (lo, t)
  | false, true => Some (hi, t)
  | false, false => None
  end.

Fixpoint shortestFrom (fuel : nat) (x : number) (r : Z * Z) (n k : Z)
    (exact : Z * Z) : Z * Z :=
  match fuel with
  | O => exact
  | S fuel' =>
      match candidate x r n k with
      | Some d => d
      | None => shortestFrom fuel' x r n (k + 1) exact
      end
  end.

(** The decimal expansion of [m * 2^e]: an integer times a power of ten. *)
Definition exactDecimal (m : positive) (e : Z) : Z * Z :=
  if 0 <=? e then (Zpos m * 2 ^ e, 0) else (Zpos m * 5 ^ (- e), e).

Definition shortestDecimal (x : number) (m : positive) (e : Z) : Z * Z :=
  let r := ratio m e in
  let (s, t) := shortestFrom 17 x r (magnitude r) 1 (exactDecimal m e) in
  canonicalDecimal s t.

Definition zeros (n : Z) : jsstring := repeat 48%N (Z.to_nat n).

(** The text of the decimal [s * 10^t]: plain digits for [1e-6 <= x < 1e21],
    exponent notation outside. *)
Definition formatDecimal (s t : Z) : jsstring :=
  let ds := decimalDigits s in
  let k := Z.of_nat (List.length ds) in
  let n := t + k in
  if (-5 <=? n) && (n <=? 21) then
    if k <=? n then ds ++ zeros (n - k)
    else if 0 <? n then firstn (Z.to_nat n) ds ++ 46%N :: skipn (Z.to_nat n) ds
    else 48%N :: 46%N :: zeros (- n) ++ ds
  else
    let e := n - 1 in
    let es := (if 0 <=? e then 43%N else 45%N) :: decimalDigits (Z.abs e) in
    match ds with
    | [] => []
    | [d] => d :: 101%N :: es
    | d :: ds' => d :: 46%N :: ds' ++ 101%N :: es
    end.

Definition minus (neg : bool) : jsstring := if neg then [45%N] else [].

(** Number::toString, radix 10. *)
Definition Number_toString (x : number) : jsstring :=
  match Prim2SF x with
  | S754_nan => lit "NaN"
  | S754_zero _ => lit "0"
  | S754_infinity s => minus s ++ lit "Infinity"
  | S754_finite s m e =>
      let (d, t) := shortestDecimal (PrimFloat.abs x) m e in
      minus s ++ formatDecimal d t
  end.

(** The digits of [n / 10^f] with exactly [f] digits after the point. *)
Definition fixedDigits (n : Z) (f : nat) : jsstring :=
  let m := decimalDigits n in
  match f with
  | O => m
  | _ =>
      let m' := repeat 48%N (S f - List.length m) ++ m in
      let a := (List.length m' - f)%nat in
      firstn a m' ++ 46%N :: skipn a m'
  end.

(** [Number.prototype.toFixed]: [f] digits after the point, the nearest
    such decimal to the exact value of [x] and the larger of two; a number
    of magnitude [1e21] or more, NaN and the infinities are written as
    Number::toString writes them. *)
Definition toFixed (x : number) (f : nat) : jsstring :=
  match Prim2SF x with
  | S754_nan | S754_infinity _ => Number_toString x
  | S754_zero _ => fixedDigits 0 f
  | S754_finite s m e =>
      if PrimFloat.leb 1e21 (PrimFloat.abs x) then Number_toString x
      else
        let (num, den) := scale10 (ratio m e) (- Z.of_nat f) in
        minus s ++ fixedDigits ((2 * num + den) / (2 * den)) f
  end.

(** ** JSON

    The values [JSON.parse] produces and [JSON.stringify] writes.  An
    object is the list of its properties in the order the language lists
    them: the array indices in ascending order, then the other keys in
    creation order. *)

Inductive value :=
  | Null
  | Boolean (b : bool)
  | Number (x : number)
  | String (s : jsstring)
  | Array (elements : list value)
  | Object (properties : list (jsstring * value)).

Definition isHighSurrogate (c : char16) : bool := ((55296 <=? c) && (c <=? 56319))%N.
Definition isLowSurrogate (c : char16) : bool := ((56320 <=? c) && (c <=? 57343))%N.

Definition hexDigit (d : N) : char16 := (if d <? 10 then 48 + d else 87 + d)%N.

(** UnicodeEscape: [\u] and four lowercase hexadecimal digits. *)
Definition unicodeEscape (c : char16) : jsstring :=
  [92; 117; hexDigit (c / 4096 mod 16); hexDigit (c / 256 mod 16);
   hexDigit (c / 16 mod 16); hexDigit (c mod 16)]%N.

(** The characters with a two-character escape, and the letter of each. *)
Definition shortEscape (c : char16) : option char16 :=
  (if c =? 8 then Some 98          (* \b *)
   else if c =? 9 then Some 116    (* \t *)
   else if c =? 10 then Some 110   (* \n *)
   else if c =? 12 then Some 102   (* \f *)
   else if c =? 13 then Some 114   (* \r *)
   else if c =? 34 then Some 34    (* the quote *)
   else if c =? 92 then Some 92    (* the backslash *)
   else None)%N.

(** One code unit inside a JSON string literal (QuoteJSONString, ECMA-262
    25.5.2.3): the two-character escapes, [\u] escapes for the other
    control characters and for surrogates that stand alone, and every
    other code unit as it is. *)
Definition quoteUnit (c : char16) : jsstring :=
  match shortEscape c with
  | Some e => [92%N; e]
  | None =>
      if (c <? 32)%N || isHighSurrogate c || isLowSurrogate c
      then unicodeEscape c else [c]
  end.

(** A high surrogate followed by a low one is a code point of its own and
    is written as it is. *)
Fixpoint quoteUnits (s : jsstring) : jsstring :=
  match s with
  | [] => []
  | c :: r =>
      if isHighSurrogate c then
        match r with
        | d :: r' =>
            if isLowSurrogate d then c :: d :: quoteUnits r'
            else unicodeEscape c ++ quoteUnits r
        | [] => unicodeEscape c
        end
      else quoteUnit c ++ quoteUnits r
  end.

Definition QuoteJSONString (s : jsstring) : jsstring :=
  34%N :: quoteUnits s ++ [34%N].

Fixpoint joinComma (parts : list jsstring) : jsstring :=
  match parts with
  | [] => []
  | [p] => p
  | p :: rest => p ++ 44%N :: joinComma rest
  end.

(** [JSON.stringify] with no replacer and no indentation
    (SerializeJSONProperty): a number that is not finite is written
    [null]. *)
Fixpoint JSON_stringify (v : value) : jsstring :=
  match v with
  | Null => lit "null"
  | Boolean true => lit "true"
  | Boolean false => lit "false"
  | Number x => if isFinite x then Number_toString x else lit "null"
  | String s => QuoteJSONString s
  | Array elements =>
      91%N :: joinComma (List.map JSON_stringify elements) ++ [93%N]
  | Object properties =>
      123%N ::
      joinComma (List.map (fun kv => QuoteJSONString (fst kv) ++ 58%N :: JSON_stringify (snd kv))
                          properties) ++ [125%N]
  end.

(** *** Reading JSON text *)

Inductive parsed (A : Type) :=
  | Parsed (a : A) (rest : jsstring)
  | SyntaxError
  | OutOfFuel.
Arguments Parsed {A} a rest.
Arguments SyntaxError {A}.
Arguments OutOfFuel {A}.

(** JSON white space: tab, line feed, carriage return and space. *)
Definition isJSONWhiteSpace (c : char16) : bool :=
  match c with
  | 9 | 10 | 13 | 32 => true
  | _ => false
  end%N.

Fixpoint skipWs (s : jsstring) : jsstring :=
  match s with
  | c :: s' => if isJSONWhiteSpace c then skipWs s' else s
  | [] => []
  end.

Definition hexValue (c : char16) : option N :=
  (if isDigit c then Some (c - 48)
   else if (97 <=? c) && (c <=? 102) then Some (c - 87)
   else if (65 <=? c) && (c <=? 70) then Some (c - 55)
   else None)%N.

Definition hex4 (a b c d : char16) : option char16 :=
  match hexValue a, hexValue b, hexValue c, hexValue d with
  | Some x, Some y, Some z, Some w => Some (4096 * x + 256 * y + 16 * z + w)%N
  | _, _, _, _ => None
  end.

(** The character an escape letter stands for. *)
Definition escapedChar (e : char16) : option char16 :=
  (if e =? 34 then Some 34
   else if e =? 47 then Some 47
   else if e =? 92 then Some 92
   else if e =? 98 then Some 8
   else if e =? 102 then Some 12
   else if e =? 110 then Some 10
   else if e =? 114 then Some 13
   else if e =? 116 then Some 9
   else None)%N.

Definition consParsed (c : char16) (p : parsed jsstring) : parsed jsstring :=
  match p with
  | Parsed str r => Parsed (c :: str) r
  | e => e
  end.

(** The characters of a string literal after its opening quote, up to and
    including the closing quote.  A control character may not stand
    unescaped. *)
Fixpoint parseStringChars (s : jsstring) : parsed jsstring :=
  match s with
  | [] => SyntaxError
  | c :: r =>
      if char_eqb c 34%N then Parsed [] r
      else if char_eqb c 92%N then
        match r with
        | [] => SyntaxError
        | e :: r1 =>
            if char_eqb e 117%N then
              match r1 with
              | h1 :: h2 :: h3 :: h4 :: r2 =>
                  match hex4 h1 h2 h3 h4 with
                  | Some u => consParsed u (parseStringChars r2)
                  | None => SyntaxError
                  end
              | _ => SyntaxError
              end
            else
              match escapedChar e with
              | Some u => consParsed u (parseStringChars r1)
              | None => SyntaxError
              end
        end
      else if (c <? 32)%N then SyntaxError
      else consParsed c (parseStringChars r)
  end.

(** A JSON number: an optional minus, an integer part with no leading zero,
    an optional fraction and an optional exponent. *)
Definition leadingZero (ip : jsstring) : bool :=
  match ip with
  | c :: _ :: _ => char_eqb c 48%N
  | _ => false
  end.

Definition parseUnsigned (neg : bool) (s : jsstring) : parsed number :=
  let (ip, r1) := spanDigits s in
  match ip with
  | [] => SyntaxError
  | _ :: _ =>
      if leadingZero ip then SyntaxError
      else
        let frac :=
          match takeChar 46%N r1 with
          | Some r =>
              let (fp, r2) := spanDigits r in
              match fp with
              | [] => None
              | _ :: _ => Some (fp, r2)
              end
          | None => Some ([], r1)
          end in
        match frac with
        | None => SyntaxError
        | Some (fp, r2) =>
            match takeExponentMark r2 with
            | Some _ =>
                let (ex, r3) := exponentPart r2 in
                match takeExponentMark r3 with
                | Some _ => SyntaxError
                | None => Parsed (signed neg (decimalValue ip fp ex)) r3
                end
            | None => Parsed (signed neg (decimalValue ip fp 0)) r2
            end
        end
  end.

Definition parseNumber (s : jsstring) : parsed number :=
  match takeChar 45%N s with
  | Some r => parseUnsigned true r
  | None => parseUnsigned false s
  end.

(** The keys ECMA-262 calls array indices: the canonical decimal texts of
    the integers below [2^32 - 1].  An object lists them first, in ascending
    order, and then its other keys in the order of their creation
    (OrdinaryOwnPropertyKeys, ECMA-262 10.1.11.1). *)
Definition arrayIndex (k : jsstring) : option Z :=
  match k with
  | [] => None
  | _ :: _ =>
      if forallb isDigit k && negb (leadingZero k) && (digitsValue k <? 4294967295)
      then Some (digitsValue k) else None
  end.

Definition hasProperty (k : jsstring) (props : list (jsstring * value)) : bool :=
  existsb (fun kv => jsstring_eqb k (fst kv)) props.

Fixpoint replaceProperty (k : jsstring) (v : value) (props : list (jsstring * value))
    : list (jsstring * value) :=
  match props with
  | [] => []
  | (k', v') :: rest =>
      if jsstring_eqb k k' then (k, v) :: rest
      else (k', v') :: replaceProperty k v rest
  end.

(** The place of a new array index [n]: before the first key that is a
    larger index or no index at all. *)
Fixpoint insertIndex (n : Z) (k : jsstring) (v : value) (props : list (jsstring * value))
    : list (jsstring * value) :=
  match props with
  | [] => [(k, v)]
  | (k', v') :: rest =>
      match arrayIndex k' with
      | Some n' => if n' <? n then (k', v') :: insertIndex n k v rest else (k, v) :: props
      | None => (k, v) :: props
      end
  end.

(** A property defined twice keeps its place and takes the later value; a
    new one takes its place among the array indices or comes last. *)
Definition defineProperty (k : jsstring) (v : value) (props : list (jsstring * value))
    : list (jsstring * value) :=
  if hasProperty k props then replaceProperty k v props
  else
    match arrayIndex k with
    | Some n => insertIndex n k v props
    | None => props ++ [(k, v)]
    end.

Definition bind {A B} (p : parsed A) (f : A -> jsstring -> parsed B) : parsed B :=
  match p with
  | Parsed a r => f a r
  | SyntaxError => SyntaxError
  | OutOfFuel => OutOfFuel
  end.

(** The three literal names. *)
Definition parseLiteral (s : jsstring) : parsed value :=
  if startsWith (lit "null") s then Parsed Null (skipn 4 s)
  else if startsWith (lit "true") s then Parsed (Boolean true) (skipn 4 s)
  else if startsWith (lit "false") s then Parsed (Boolean false) (skipn 5 s)
  else SyntaxError.

Definition defineAll (kvs : list (jsstring * value)) : list (jsstring * value) :=
  fold_left (fun props kv => defineProperty (fst kv) (snd kv) props) kvs [].

Definition startsWithChar (c : char16) (s : jsstring) : bool :=
  match s with
  | x :: _ => char_eqb x c
  | [] => false
  end.

(** One JSON value, given the readers of what it may contain: the elements
    of an array after its bracket and the members of an object after its
    brace. *)
Definition valueStep (readElements : jsstring -> parsed (list value))
    (readMembers : jsstring -> parsed (list (jsstring * value)))
    (s : jsstring) : parsed value :=
  match skipWs s with
  | [] => SyntaxError
  | c :: r =>
      if char_eqb c 34%N then
        bind (parseStringChars r) (fun str r' => Parsed (String str) r')
      else if char_eqb c 91%N then
        if startsWithChar 93%N (skipWs r) then Parsed (Array []) (tl (skipWs r))
        else bind (readElements r) (fun vs r' => Parsed (Array vs) r')
      else if char_eqb c 123%N then
        if startsWithChar 125%N (skipWs r) then Parsed (Object []) (tl (skipWs r))
        else bind (readMembers r) (fun kvs r' => Parsed (Object (defineAll kvs)) r')
      else if isDigit c || char_eqb c 45%N then
        bind (parseNumber (c :: r)) (fun x r' => Parsed (Number x) r')
      else parseLiteral (c :: r)
  end.

(** One element, then a comma and more elements, or the closing bracket. *)
Definition elementsStep (readValue : jsstring -> parsed value)
    (readElements : jsstring -> parsed (list value))
    (s : jsstring) : parsed (list value) :=
  bind (readValue s) (fun v r =>
    match skipWs r with
    | [] => SyntaxError
    | c :: r' =>
        if char_eqb c 44%N then
          bind (readElements r') (fun vs r'' => Parsed (v :: vs) r'')
        else if char_eqb c 93%N then Parsed [v] r'
        else SyntaxError
    end).

(** One member (a string, a colon, a value), then a comma and more members,
    or the closing brace. *)
Definition membersStep (readValue : jsstring -> parsed value)
    (readMembers : jsstring -> parsed (list (jsstring * value)))
    (s : jsstring) : parsed (list (jsstring * value)) :=
  match skipWs s with
  | [] => SyntaxError
  | q :: r =>
      if char_eqb q 34%N then
        bind (parseStringChars r) (fun k r1 =>
          match skipWs r1 with
          | [] => SyntaxError
          | colon :: r2 =>
              if char_eqb colon 58%N then
                bind (readValue r2) (fun v r3 =>
                  match skipWs r3 with
                  | [] => SyntaxError
                  | c :: r4 =>
                      if char_eqb c 44%N then
                        bind (readMembers r4) (fun kvs r5 => Parsed ((k, v) :: kvs) r5)
                      else if char_eqb c 125%N then Parsed [(k, v)] r4
                      else SyntaxError
                  end)
              else SyntaxError
          end)
      else SyntaxError
  end.

(** The recursive descent, with [fuel] bounding the depth of the calls. *)
Fixpoint parseValue (fuel : nat) (s : jsstring) : parsed value :=
  match fuel with
  | O => OutOfFuel
  | S fuel' => valueStep (parseElements fuel') (parseMembers fuel') s
  end

with parseElements (fuel : nat) (s : jsstring) : parsed (list value) :=
  match fuel with
  | O => OutOfFuel
  | S fuel' => elementsStep (parseValue fuel') (parseElements fuel') s
  end

with parseMembers (fuel : nat) (s : jsstring) : parsed (list (jsstring * value)) :=
  match fuel with
  | O => OutOfFuel
  | S fuel' => membersStep (parseValue fuel') (parseMembers fuel') s
  end.

(** What a call completes with: a value, or a thrown exception. *)
Inductive completion (A : Type) :=
  | Return (a : A)
  | Throw (error : jsstring).
Arguments Return {A} a.
Arguments Throw {A} error.

(** [JSON.parse]: the whole text must be one JSON value, or a SyntaxError is
    thrown.  Every recursive call of the parser comes after at least one
    character was read, so twice the length of the text bounds their
    depth. *)
Definition JSON_parse (text : jsstring) : completion value :=
  match parseValue (2 * List.length text + 2) text with
  | Parsed v r =>
      match skipWs r with
      | [] => Return v
      | _ => Throw (lit "SyntaxError")
      end
  | _ => Throw (lit "SyntaxError")
  end.

End JS.

(** * script.js *)

Module App.
Import JS.

(** ** State *)

(** A transaction object, with the properties in the order line 67 creates
    them. *)
Record Transaction := {
  id : number;
  title : jsstring;
  amount : number;
  type : jsstring;
  date : jsstring
}.

(** The [li] element a transaction is shown as: its class and the markup
    assigned to its [innerHTML]. *)
Record Element := {
  className : jsstring;
  innerHTML : jsstring
}.

(** What the page does to the outside: the alerts it shows and the items it
    writes to [localStorage]. *)
Inductive Effect :=
  | Alert (message : jsstring)
  | SetItem (key text : jsstring).

Definition Storage := list (jsstring * jsstring).

(** The global [transactions], the storage, the [value] of the three form
    inputs, the children of the list element, the [innerText] of the three
    summary cards, and the effects so far in the order they happened. *)
Record State := {
  transactions : list Transaction;
  localStorage : Storage;
  titleInput : jsstring;
  amountInput : jsstring;
  typeInput : jsstring;
  transactionListEl : list Element;
  balanceEl : jsstring;
  incomeEl : jsstring;
  expenseEl : jsstring;
  effects : list Effect
}.

(** ** localStorage *)

Fixpoint getItem (ls : Storage) (key : jsstring) : option jsstring :=
  match ls with
  | [] => None
  | (k, v) :: ls' => if jsstring_eqb k key then Some v else getItem ls' key
  end.

Fixpoint setItem (ls : Storage) (key text : jsstring) : Storage :=
  match ls with
  | [] => [(key, text)]
  | (k, v) :: ls' =>
      if jsstring_eqb k key then (k, text) :: ls' else (k, v) :: setItem ls' key text
  end.

(** ** The transactions as a value of the language *)

Definition toValue (t : Transaction) : value :=
  Object [(lit "id", Number (id t));
          (lit "title", String (title t));
          (lit "amount", Number (amount t));
          (lit "type", String (type t));
          (lit "date", String (date t))].

Definition storeValue (store : list Transaction) : value :=
  Array (List.map toValue store).

(** ToBoolean, for the left operand of [||]. *)
Definition truthy (v : value) : bool :=
  match v with
  | Null => false
  | Boolean b => b
  | Number x => negb (strictEq x 0%float || isNaN x)
  | String s => negb (jsstring_eqb s [])
  | Array _ | Object _ => true
  end.

(** Line 15: [JSON.parse(localStorage.getItem('transactions')) || []].
    [getItem] gives [null] for a missing key, which [JSON.parse] reads as
    the text [null]. *)
Definition loadTransactions (ls : Storage) : completion value :=
  let text :=
    match getItem ls (lit "transactions") with
    | Some text => text
    | None => lit "null"
    end in
  match JSON_parse text with
  | Return v => Return (if truthy v then v else Array [])
  | Throw e => Throw e
  end.

(** ** Functions *)

(** Lines 20-22 *)
Definition updateLocalStorage (st : State) : State :=
  let text := JSON_stringify (storeValue (transactions st)) in
  {| transactions := transactions st;
     localStorage := setItem (localStorage st) (lit "transactions") text;
     titleInput := titleInput st;
     amountInput := amountInput st;
     typeInput := typeInput st;
     transactionListEl := transactionListEl st;
     balanceEl := balanceEl st;
     incomeEl := incomeEl st;
     expenseEl := expenseEl st;
     effects := effects st ++ [SetItem (lit "transactions") text] |}.

(** Lines 29-31; [random] is what [Math.random()] returned. *)
Definition generateID (random : number) : number :=
  Math_floor (PrimFloat.mul random 1000000000%float).

(** The replacement of line 39, [replace(/\d(?=(\d{3})+\.)/g, '$&,')]: a
    comma after every digit that is followed by a positive multiple of
    three digits and then a point. *)
Definition groupsThenPoint (s : jsstring) : bool :=
  let (ds, r) := spanDigits s in
  match ds, r with
  | _ :: _, 46%N :: _ => Nat.eqb (Nat.modulo (List.length ds) 3) 0
  | _, _ => false
  end.

Fixpoint insertCommas (s : jsstring) : jsstring :=
  match s with
  | [] => []
  | c :: r =>
      if isDigit c && groupsThenPoint r then c :: 44%N :: insertCommas r
      else c :: insertCommas r
  end.

(** Lines 38-40 *)
Definition formatCurrency (x : number) : jsstring :=
  36%N :: insertCommas (toFixed x 2).

(** Lines 100-119: the element built for one transaction. *)
Definition quoted (s : string) : jsstring := 34%N :: lit s ++ [34%N].
Definition indent (n : nat) : jsstring := 10%N :: repeat 32%N n.

(** Line 104, line 107 and the text of line 114. *)
Definition direction (transaction : Transaction) : jsstring :=
  if gt (amount transaction) 0%float then lit "income" else lit "expense".

Definition sign (transaction : Transaction) : jsstring :=
  if gt (amount transaction) 0%float then lit "+" else lit "-".

Definition amountText (transaction : Transaction) : jsstring :=
  sign transaction ++ formatCurrency (Math_abs (amount transaction)).

Definition transactionElement (transaction : Transaction) : Element :=
  {| className := direction transaction;
     innerHTML :=
       indent 8 ++ lit "<div class=" ++ quoted "details" ++ lit ">" ++
       indent 12 ++ lit "<span class=" ++ quoted "title" ++ lit ">" ++
         title transaction ++ lit "</span>" ++
       indent 12 ++ lit "<span class=" ++ quoted "date" ++ lit ">" ++
         date transaction ++ lit "</span>" ++
       indent 8 ++ lit "</div>" ++
       indent 8 ++ lit "<span class=" ++ quoted "amount" ++ lit ">" ++
         amountText transaction ++ lit "</span>" ++
       indent 8 ++ lit "<button class=" ++ quoted "delete-btn" ++ lit " onclick=" ++
         34%N :: lit "deleteTransaction(" ++ Number_toString (id transaction) ++
         lit ")" ++ 34%N :: lit ">" ++ 215%N :: lit "</button>" ++
       indent 4 |}.

Definition addTransactionToDOM (transaction : Transaction) (st : State) : State :=
  {| transactions := transactions st;
     localStorage := localStorage st;
     titleInput := titleInput st;
     amountInput := amountInput st;
     typeInput := typeInput st;
     transactionListEl := transactionListEl st ++ [transactionElement transaction];
     balanceEl := balanceEl st;
     incomeEl := incomeEl st;
     expenseEl := expenseEl st;
     effects := effects st |}.

(** Lines 125-141: the three totals, then the three cards. *)
Definition amounts (store : list Transaction) : list number :=
  List.map amount store.

Definition totalIncome (store : list Transaction) : number :=
  fold_left (fun acc item => PrimFloat.add acc item)
            (filter (fun item => gt item 0%float) (amounts store)) 0%float.

Definition totalExpense (store : list Transaction) : number :=
  fold_left (fun acc item => PrimFloat.add acc item)
            (filter (fun item => lt item 0%float) (amounts store)) 0%float.

Definition totalBalance (store : list Transaction) : number :=
  PrimFloat.add (totalIncome store) (totalExpense store).

Definition updateSummary (st : State) : State :=
  {| transactions := transactions st;
     localStorage := localStorage st;
     titleInput := titleInput st;
     amountInput := amountInput st;
     typeInput := typeInput st;
     transactionListEl := transactionListEl st;
     balanceEl := formatCurrency (totalBalance (transactions st));
     incomeEl := formatCurrency (totalIncome (transactions st));
     expenseEl := formatCurrency (Math_abs (totalExpense (transactions st)));
     effects := effects st |}.

(** Lines 147-151 *)
Definition clearList (st : State) : State :=
  {| transactions := transactions st;
     localStorage := localStorage st;
     titleInput := titleInput st;
     amountInput := amountInput st;
     typeInput := typeInput st;
     transactionListEl := [];
     balanceEl := balanceEl st;
     incomeEl := incomeEl st;
     expenseEl := expenseEl st;
     effects := effects st |}.

Definition init (st : State) : State :=
  updateSummary
    (fold_left (fun s t => addTransactionToDOM t s) (transactions st) (clearList st)).

Definition alert (message : jsstring) (st : State) : State :=
  {| transactions := transactions st;
     localStorage := localStorage st;
     titleInput := titleInput st;
     amountInput := amountInput st;
     typeInput := typeInput st;
     transactionListEl := transactionListEl st;
     balanceEl := balanceEl st;
     incomeEl := incomeEl st;
     expenseEl := expenseEl st;
     effects := effects st ++ [Alert message] |}.

Definition push (transaction : Transaction) (st : State) : State :=
  {| transactions := transactions st ++ [transaction];
     localStorage := localStorage st;
     titleInput := titleInput st;
     amountInput := amountInput st;
     typeInput := typeInput st;
     transactionListEl := transactionListEl st;
     balanceEl := balanceEl st;
     incomeEl := incomeEl st;
     expenseEl := expenseEl st;
     effects := effects st |}.

Definition clearForm (st : State) : State :=
  {| transactions := transactions st;
     localStorage := localStorage st;
     titleInput := [];
     amountInput := [];
     typeInput := typeInput st;
     transactionListEl := transactionListEl st;
     balanceEl := balanceEl st;
     incomeEl := incomeEl st;
     expenseEl := expenseEl st;
     effects := effects st |}.

(** The amount line 70 stores: lines 56-65. *)
Definition normalizedAmount (type amountText : jsstring) : number :=
  let amount := parseFloat amountText in
  let amount :=
    if jsstring_eqb type (lit "expense") && gt amount 0%float
    then PrimFloat.opp amount else amount in
  if jsstring_eqb type (lit "income") && lt amount 0%float
  then Math_abs amount else amount.

(** Lines 46-83.  [random] is what [Math.random()] returns and [today]
    what [new Date().toLocaleDateString()] returns during the call. *)
Definition addTransaction (random : number) (today : jsstring) (st : State) : State :=
  if jsstring_eqb (trim (titleInput st)) [] || jsstring_eqb (trim (amountInput st)) []
  then alert (lit "Please add a title and amount.") st
  else
    let type := typeInput st in
    let amount := normalizedAmount type (amountInput st) in
    let transaction :=
      {| id := generateID random;
         title := titleInput st;
         amount := amount;
         type := type;
         date := today |} in
    clearForm (init (updateLocalStorage (push transaction st))).

(** Lines 89-94 *)
Definition setTransactions (store : list Transaction) (st : State) : State :=
  {| transactions := store;
     localStorage := localStorage st;
     titleInput := titleInput st;
     amountInput := amountInput st;
     typeInput := typeInput st;
     transactionListEl := transactionListEl st;
     balanceEl := balanceEl st;
     incomeEl := incomeEl st;
     expenseEl := expenseEl st;
     effects := effects st |}.

Definition deleteTransaction (id0 : number) (st : State) : State :=
  let kept := filter (fun transaction => strictNe (id transaction) id0) (transactions st) in
  init (updateLocalStorage (setTransactions kept st)).

End App.

(** * Reference definitions and sample data *)

Module Ref.
Import JS App.

(** The sum, from left to right and starting from [acc], of the amounts
    that satisfy [p]: "the sum of the positive amounts" for [p] the test
    [> 0], "the sum of the negative amounts" for [< 0]. *)
Fixpoint sumWhere (p : number -> bool) (acc : number) (store : list Transaction) : number :=
  match store with
  | [] => acc
  | t :: rest =>
      sumWhere p (if p (amount t) then PrimFloat.add acc (amount t) else acc) rest
  end.

(** The sum of all signed amounts, from left to right. *)
Definition sumOfAmounts (store : list Transaction) : number :=
  fold_left PrimFloat.add (amounts store) 0%float.

Definition entry (i : number) (name : string) (a : number) (kind : string) : Transaction :=
  {| id := i; title := lit name; amount := a; type := lit kind; date := lit "11/2/2026" |}.

(** [Subsequence l l']: [l] is [l'] with some elements left out, the others
    in the same order. *)
Inductive Subsequence {A : Type} : list A -> list A -> Prop :=
  | Subsequence_nil : Subsequence [] []
  | Subsequence_keep x l l' : Subsequence l l' -> Subsequence (x :: l) (x :: l')
  | Subsequence_drop x l l' : Subsequence l l' -> Subsequence l (x :: l').

(** The form filled in, over an otherwise empty page. *)
Definition form (name amountText kind : string) (st : State) : State :=
  {| transactions := transactions st;
     localStorage := localStorage st;
     titleInput := lit name;
     amountInput := lit amountText;
     typeInput := lit kind;
     transactionListEl := transactionListEl st;
     balanceEl := balanceEl st;
     incomeEl := incomeEl st;
     expenseEl := expenseEl st;
     effects := effects st |}.

Definition emptyPage : State :=
  {| transactions := [];
     localStorage := [];
     titleInput := [];
     amountInput := [];
     typeInput := lit "income";
     transactionListEl := [];
     balanceEl := [];
     incomeEl := [];
     expenseEl := [];
     effects := [] |}.

(** Three submissions a user can make: ten quadrillion in, ten quadrillion
    out, and one more in. *)
Definition largePage : State :=
  addTransaction 0.75%float (lit "11/2/2026") (form "Tip" "1" "income"
    (addTransaction 0.5%float (lit "11/2/2026") (form "Purchase" "10000000000000000" "expense"
      (addTransaction 0.25%float (lit "11/2/2026") (form "Sale" "10000000000000000" "income"
        emptyPage))))).

Definition largeStore : list Transaction := transactions largePage.

End Ref.

(** * Notions used in the statements and proofs *)

Module Notions.
Import JS App Ref.

(** The sign classes the comparisons with zero decide. *)
Definition sfNonneg (x : spec_float) : bool :=
  match x with
  | S754_zero _ | S754_infinity false | S754_finite false _ _ => true
  | _ => false
  end.

Definition sfPos (x : spec_float) : bool :=
  match x with
  | S754_infinity false | S754_finite false _ _ => true
  | _ => false
  end.

Definition sfNonpos (x : spec_float) : bool :=
  match x with
  | S754_zero _ | S754_infinity true | S754_finite true _ _ => true
  | _ => false
  end.

Definition sfNeg (x : spec_float) : bool :=
  match x with
  | S754_infinity true | S754_finite true _ _ => true
  | _ => false
  end.

Definition signedAs (s : bool) (x : spec_float) : bool :=
  match x with
  | S754_zero s' | S754_infinity s' | S754_finite s' _ _ => Bool.eqb s s'
  | S754_nan => false
  end.

(** [(m', e')] is the decimal [(m, e)] without trailing zeros. *)
Definition Stripped (m e m' e' : Z) : Prop :=
  0 < m' /\ m' mod 10 <> 0 /\ e <= e' /\ m = m' * 10 ^ (e' - e).

(** The decimal [m' * 10^e'] and the binary [m * 2^e] are the same
    number. *)
Definition sameValue (m' e' : Z) (m : positive) (e : Z) : Prop :=
  m' * 10 ^ Z.max e' 0 * 2 ^ Z.max (- e) 0 = Z.pos m * 2 ^ Z.max e 0 * 10 ^ Z.max (- e') 0.

(** The decimal [s * 10^t] reads as [x]. *)
Definition Reads (s t : Z) (x : number) : Prop := 0 < s /\ roundDecimal s t = x.

Definition allDigits (ds : jsstring) : bool := forallb isDigit ds.

(** [s] does not go on with a digit. *)
Definition noDigitAhead (s : jsstring) : Prop :=
  match s with
  | [] => True
  | c :: _ => isDigit c = false
  end.

(** [rest] cannot continue a number: it is empty or starts with something
    other than a digit, a point or an exponent mark. *)
Definition endsNumber (rest : jsstring) : Prop :=
  match rest with
  | [] => True
  | c :: _ => isDigit c = false /\ c <> 46%N /\ c <> 101%N /\ c <> 69%N
  end.

(** The fraction of a number text: nothing, or a point and digits. *)
Definition fractionText (fp : jsstring) : jsstring :=
  match fp with
  | [] => []
  | _ :: _ => 46%N :: fp
  end.

(** The exponent [e] as Number::toString writes it. *)
Definition exponentText (e : Z) : jsstring :=
  101%N :: (if 0 <=? e then 43%N else 45%N) :: decimalDigits (Z.abs e).

(** The numbers JSON text can carry: the finite ones other than negative
    zero. *)
Definition plain (x : number) : bool :=
  match Prim2SF x with
  | S754_zero false | S754_finite _ _ _ => true
  | _ => false
  end.

Definition plainRecord (t : Transaction) : bool := plain (id t) && plain (amount t).

Definition storeTexts (store : list Transaction) : list jsstring :=
  List.map JSON_stringify (List.map toValue store).

Definition isPositive (item : number) : bool := gt item 0%float.
Definition isNegative (item : number) : bool := lt item 0%float.

Definition blank (st : State) : bool :=
  jsstring_eqb (trim (titleInput st)) [] || jsstring_eqb (trim (amountInput st)) [].

Definition newTransaction (random : number) (today : jsstring) (st : State) : Transaction :=
  {| id := generateID random;
     title := titleInput st;
     amount := normalizedAmount (typeInput st) (amountInput st);
     type := typeInput st;
     date := today |}.

(** The markup of lines 109-116 around the four texts it is filled with:
    the title, the date, the signed amount and the id. *)
Definition rowMarkup (titleText dateText signedAmount idText : jsstring) : jsstring :=
  indent 8 ++ lit "<div class=" ++ quoted "details" ++ lit ">" ++
  indent 12 ++ lit "<span class=" ++ quoted "title" ++ lit ">" ++
    titleText ++ lit "</span>" ++
  indent 12 ++ lit "<span class=" ++ quoted "date" ++ lit ">" ++
    dateText ++ lit "</span>" ++
  indent 8 ++ lit "</div>" ++
  indent 8 ++ lit "<span class=" ++ quoted "amount" ++ lit ">" ++
    signedAmount ++ lit "</span>" ++
  indent 8 ++ lit "<button class=" ++ quoted "delete-btn" ++ lit " onclick=" ++
    34%N :: lit "deleteTransaction(" ++ idText ++
    lit ")" ++ 34%N :: lit ">" ++ 215%N :: lit "</button>" ++
  indent 4.

(** A storage whose transactions item was cut short while being written:
    the first twenty-one characters of the text of [largeStore]. *)
Definition truncatedStorage : Storage :=
  [(lit "transactions", firstn 21 (JSON_stringify (storeValue largeStore)))].

(** [text] is a JSON text of the value [v]: the reader, given fuel enough,
    reads [v] from it and leaves only white space. *)
Definition JSONText (text : jsstring) (v : value) : Prop :=
  exists fuel r, parseValue fuel text = Parsed v r /\ skipWs r = [].

(** A reader consumes input when what it leaves is shorter than what it was
    given. *)
Definition Consumes {A : Type} (read : jsstring -> parsed A) : Prop :=
  forall s a r, read s = Parsed a r -> (List.length r < List.length s)%nat.

End Notions.

(** * script.js: the theme switcher and the page load *)

Module Theme.
Import JS App.

(** The page as the theme code sees it: the state of the ledger, the
    [data-theme] attribute of the document element ([None] when the
    attribute is absent) and the [innerText] of the theme button. *)
Record Document := {
  ledger : State;
  dataTheme : option jsstring;
  themeSwitcherBtn : jsstring
}.

(** The two button texts of lines 157 and 160, in UTF-16: U+2600 U+FE0F and
    the surrogate pair of U+1F319. *)
Definition sun : jsstring := [9728; 65039]%N.
Definition moon : jsstring := [55356; 57113]%N.

(** Lines 154-162 *)
Definition applyTheme (theme : jsstring) (d : Document) : Document :=
  if jsstring_eqb theme (lit "dark") then
    {| ledger := ledger d;
       dataTheme := Some (lit "dark");
       themeSwitcherBtn := sun |}
  else
    {| ledger := ledger d;
       dataTheme := None;
       themeSwitcherBtn := moon |}.

(** [localStorage.setItem(key, text)] *)
Definition writeItem (key text : jsstring) (st : State) : State :=
  {| transactions := transactions st;
     localStorage := setItem (localStorage st) key text;
     titleInput := titleInput st;
     amountInput := amountInput st;
     typeInput := typeInput st;
     transactionListEl := transactionListEl st;
     balanceEl := balanceEl st;
     incomeEl := incomeEl st;
     expenseEl := expenseEl st;
     effects := effects st ++ [SetItem key text] |}.

(** Lines 164-169; [getAttribute] gives [null] for an absent attribute. *)
Definition handleThemeSwitch (d : Document) : Document :=
  let currentTheme := dataTheme d in
  let newTheme :=
    match currentTheme with
    | Some t => if jsstring_eqb t (lit "dark") then lit "light" else lit "dark"
    | None => lit "dark"
    end in
  applyTheme newTheme
    {| ledger := writeItem (lit "theme") newTheme (ledger d);
       dataTheme := dataTheme d;
       themeSwitcherBtn := themeSwitcherBtn d |}.

(** Line 177: [localStorage.getItem('theme') || 'light']; the empty string
    is falsy, as [null] is. *)
Definition savedTheme (ls : Storage) : jsstring :=
  match getItem ls (lit "theme") with
  | Some t => if jsstring_eqb t [] then lit "light" else t
  | None => lit "light"
  end.

(** Lines 177-179, on a page whose [transactions] line 15 has loaded. *)
Definition load (d : Document) : Document :=
  let d' := applyTheme (savedTheme (localStorage (ledger d))) d in
  {| ledger := init (ledger d');
     dataTheme := dataTheme d';
     themeSwitcherBtn := themeSwitcherBtn d' |}.

End Theme.

(** * The handlers as the user reaches them *)

Module Session.
Import JS App Theme.

(** The user types into the form: the [value] of the three inputs. *)
Definition fill (title amount type : jsstring) (st : State) : State :=
  {| transactions := transactions st;
     localStorage := localStorage st;
     titleInput := title;
     amountInput := amount;
     typeInput := type;
     transactionListEl := transactionListEl st;
     balanceEl := balanceEl st;
     incomeEl := incomeEl st;
     expenseEl := expenseEl st;
     effects := effects st |}.

Definition onLedger (f : State -> State) (d : Document) : Document :=
  {| ledger := f (ledger d);
     dataTheme := dataTheme d;
     themeSwitcherBtn := themeSwitcherBtn d |}.

(** The three things that call into the script: a submission of the form
    (line 172), a click on a delete button (the [onclick] of line 115) and
    a click on the theme button (line 173).  A submission carries what the
    form held and what [Math.random()] and the clock gave during the
    call. *)
Inductive Event :=
  | Submit (title amount type : jsstring) (random : number) (today : jsstring)
  | Delete (id0 : number)
  | SwitchTheme.

Definition handle (ev : Event) (d : Document) : Document :=
  match ev with
  | Submit title amount type random today =>
      onLedger (fun st => addTransaction random today (fill title amount type st)) d
  | Delete id0 => onLedger (deleteTransaction id0) d
  | SwitchTheme => handleThemeSwitch d
  end.

Definition run (events : list Event) (d : Document) : Document :=
  fold_left (fun d ev => handle ev d) events d.

End Session.

(** * Notions used in the further properties *)

Module Conditions.
Import JS App Ref Notions Theme Session.

(** The list and the three cards show the store. *)
Definition Shown (st : State) : Prop :=
  transactionListEl st = List.map transactionElement (transactions st)
  /\ balanceEl st = formatCurrency (totalBalance (transactions st))
  /\ incomeEl st = formatCurrency (totalIncome (transactions st))
  /\ expenseEl st = formatCurrency (Math_abs (totalExpense (transactions st))).

(** The transactions item of the storage is the text of the store. *)
Definition Saved (st : State) : Prop :=
  getItem (localStorage st) (lit "transactions")
  = Some (JSON_stringify (storeValue (transactions st))).

(** The page is shown dark. *)
Definition isDark (d : Document) : bool :=
  match dataTheme d with
  | Some t => jsstring_eqb t (lit "dark")
  | None => false
  end.

(** What the user sees of the theme. *)
Definition presentation (d : Document) : option jsstring * jsstring :=
  (dataTheme d, themeSwitcherBtn d).

(** Digits in groups of three counted from the right, with a comma between
    two groups: the digits are taken from the last one backwards, [k] of
    them since the last comma. *)
Fixpoint groupRev (l : jsstring) (k : nat) : jsstring :=
  match l with
  | [] => []
  | c :: r => if Nat.eqb k 3 then 44%N :: c :: groupRev r 1 else c :: groupRev r (S k)
  end.

Definition groupThousands (ds : jsstring) : jsstring := rev (groupRev (rev ds) 0).

(** What a number is once written by [JSON.stringify] and read by
    [JSON.parse]: a finite number is itself, but for negative zero, which
    is zero; NaN and the infinities are [null]. *)
Definition reloadedNumber (x : number) : value :=
  match Prim2SF x with
  | S754_zero _ => Number 0%float
  | S754_finite _ _ _ => Number x
  | _ => Null
  end.

Definition reloadedRecord (t : Transaction) : value :=
  Object [(lit "id", reloadedNumber (id t));
          (lit "title", String (title t));
          (lit "amount", reloadedNumber (amount t));
          (lit "type", String (type t));
          (lit "date", String (date t))].

(** The sign of the amount does not contradict the type tag, and the title
    is not blank. *)
Definition Wellformed (t : Transaction) : Prop :=
  trim (title t) <> []
  /\ (type t = lit "income" -> lt (amount t) 0%float = false)
  /\ (type t = lit "expense" -> gt (amount t) 0%float = false).

(** What the user sees and what is stored: everything but the form and the
    log of effects. *)
Definition outcome_of (st : State) :=
  (transactions st, localStorage st, transactionListEl st,
   (balanceEl st, incomeEl st, expenseEl st)).

(** The events that change the store and write it: a deletion, and a
    submission with a title and an amount that are not blank. *)
Definition writes (ev : Event) : bool :=
  match ev with
  | Submit title amount _ _ _ =>
      negb (jsstring_eqb (trim title) [] || jsstring_eqb (trim amount) [])
  | Delete _ => true
  | SwitchTheme => false
  end.

(** A number [Math.random()] can return: of positive sign, at least 0 and
    below 1. *)
Definition isRandom (random : number) : bool :=
  match Prim2SF random with
  | S754_zero false => true
  | S754_finite false _ _ => lt random 1%float
  | _ => false
  end.

End Conditions.

(** * Facts about binary64 arithmetic *)

Module FloatFacts.
Import JS Notions.

Lemma Prim2SF_zero : Prim2SF 0%float = S754_zero false.
Proof. reflexivity. Qed.

Lemma gt_zero x : gt x 0%float = sfPos (Prim2SF x).
Proof.
  unfold gt. rewrite ltb_spec, Prim2SF_zero.
  destruct (Prim2SF x) as [[]|[]| |[] m e]; reflexivity.
Qed.

Lemma lt_zero x : lt x 0%float = sfNeg (Prim2SF x).
Proof.
  unfold lt. rewrite ltb_spec, Prim2SF_zero.
  destruct (Prim2SF x) as [[]|[]| |[] m e]; reflexivity.
Qed.

Lemma ge_zero x : ge x 0%float = sfNonneg (Prim2SF x).
Proof.
  unfold ge. rewrite leb_spec, Prim2SF_zero.
  destruct (Prim2SF x) as [[]|[]| |[] m e]; reflexivity.
Qed.

Lemma le_zero x : le x 0%float = sfNonpos (Prim2SF x).
Proof.
  unfold le. rewrite leb_spec, Prim2SF_zero.
  destruct (Prim2SF x) as [[]|[]| |[] m e]; reflexivity.
Qed.

Lemma isNaN_spec x : isNaN x = match Prim2SF x with S754_nan => true | _ => false end.
Proof.
  unfold isNaN. rewrite eqb_spec. unfold SFeqb.
  destruct (Prim2SF x) as [[]|[]| |[] m e]; simpl; try reflexivity;
    rewrite Z.compare_refl, Pos.compare_cont_refl; reflexivity.
Qed.

(** Rounding keeps the sign: shifting right and rounding to nearest never
    take a non-negative mantissa below zero. *)
Lemma shr_1_nonneg mrs : 0 <= shr_m mrs -> 0 <= shr_m (shr_1 mrs).
Proof.
  destruct mrs as [m r s]; simpl.
  destruct m as [|[p|p|]|[p|p|]]; simpl; lia.
Qed.

Lemma iter_shr_1_nonneg p : forall mrs,
  0 <= shr_m mrs -> 0 <= shr_m (iter_pos shr_1 p mrs).
Proof.
  induction p; intros mrs H; simpl; auto using shr_1_nonneg.
Qed.

Lemma shr_nonneg mrs e n : 0 <= shr_m mrs -> 0 <= shr_m (fst (shr mrs e n)).
Proof.
  destruct n; simpl; auto using iter_shr_1_nonneg.
Qed.

Lemma shr_fexp_nonneg m e l : 0 <= m -> 0 <= shr_m (fst (shr_fexp prec emax m e l)).
Proof.
  intros H. unfold shr_fexp. apply shr_nonneg.
  destruct l as [|[]]; simpl; exact H.
Qed.

Lemma round_nearest_even_nonneg m l : 0 <= m -> 0 <= round_nearest_even m l.
Proof.
  destruct l as [|[]]; simpl; try lia.
  destruct (Z.even m); lia.
Qed.

Lemma binary_round_aux_sign s m e l :
  0 <= m -> signedAs s (binary_round_aux prec emax s m e l) = true.
Proof.
  intros H. unfold binary_round_aux.
  pose proof (shr_fexp_nonneg m e l H) as H1.
  destruct (shr_fexp prec emax m e l) as [mrs' e'] eqn:E1. simpl in H1.
  pose proof (shr_fexp_nonneg _ e' loc_Exact
                (round_nearest_even_nonneg _ (loc_of_shr_record mrs') H1)) as H2.
  destruct (shr_fexp prec emax (round_nearest_even _ _) e' loc_Exact) as [mrs'' e''].
  simpl in H2.
  destruct (shr_m mrs'') as [|p|p]; try lia.
  - simpl. apply Bool.eqb_reflx.
  - destruct (e'' <=? emax - prec); simpl; apply Bool.eqb_reflx.
Qed.

Lemma binary_round_sign s m e : signedAs s (binary_round prec emax s m e) = true.
Proof.
  unfold binary_round.
  destruct (shl_align m e _) as [mz ez].
  apply binary_round_aux_sign. lia.
Qed.

Lemma signedAs_false_nonneg x : signedAs false x = true -> sfNonneg x = true.
Proof. destruct x as [[]|[]| |[] m e]; simpl; congruence. Qed.

Lemma signedAs_true_nonpos x : signedAs true x = true -> sfNonpos x = true.
Proof. destruct x as [[]|[]| |[] m e]; simpl; congruence. Qed.

(** Adding a positive number to a non-negative one gives a non-negative
    one, whatever the rounding and also at infinity. *)
Lemma SF64add_nonneg x y :
  sfNonneg x = true -> sfPos y = true -> sfNonneg (SF64add x y) = true.
Proof.
  destruct x as [[]|[]| |[] mx ex]; destruct y as [[]|[]| |[] my ey];
    simpl; try congruence; intros _ _.
  apply signedAs_false_nonneg.
  unfold SF64add, SFadd. simpl. apply binary_round_sign.
Qed.

Lemma SF64add_nonpos x y :
  sfNonpos x = true -> sfNeg y = true -> sfNonpos (SF64add x y) = true.
Proof.
  destruct x as [[]|[]| |[] mx ex]; destruct y as [[]|[]| |[] my ey];
    simpl; try congruence; intros _ _.
  apply signedAs_true_nonpos.
  unfold SF64add, SFadd. simpl. apply binary_round_sign.
Qed.

Lemma add_nonneg x y :
  ge x 0%float = true -> gt y 0%float = true -> ge (PrimFloat.add x y) 0%float = true.
Proof.
  rewrite !ge_zero, gt_zero, add_spec. apply SF64add_nonneg.
Qed.

Lemma add_nonpos x y :
  le x 0%float = true -> lt y 0%float = true -> le (PrimFloat.add x y) 0%float = true.
Proof.
  rewrite !le_zero, lt_zero, add_spec. apply SF64add_nonpos.
Qed.

End FloatFacts.

(** * Rounding to binary64 *)

Module Rounding.
Import JS Notions FloatFacts.

(** [iter_pos f p] applies [f] [p] times. *)
Lemma iter_pos_nat {A} (f : A -> A) p : forall x,
  iter_pos f p x = Nat.iter (Pos.to_nat p) f x.
Proof.
  induction p as [p IH|p IH|]; intros x; cbn [iter_pos].
  - rewrite !IH, Pos2Nat.inj_xI, <- Nat.iter_add, Nat.iter_succ_r.
    f_equal. lia.
  - rewrite !IH, Pos2Nat.inj_xO, <- Nat.iter_add. f_equal. lia.
  - reflexivity.
Qed.

Lemma iter_pos_succ {A} (f : A -> A) p x :
  iter_pos f (Pos.succ p) x = iter_pos f p (f x).
Proof.
  rewrite !iter_pos_nat, Pos2Nat.inj_succ. apply Nat.iter_succ_r.
Qed.

Lemma pos_iter_xO_succ m d : Pos.iter xO (xO m) d = Pos.iter xO m (Pos.succ d).
Proof.
  rewrite Pos.iter_succ_r. reflexivity.
Qed.

(** Doubling the mantissa and lowering the exponent by one does not change
    what [binary_round] gives. *)
Lemma binary_round_double s m e :
  binary_round prec emax s (xO m) (e - 1) = binary_round prec emax s m e.
Proof.
  unfold binary_round.
  change (digits2_pos m~0) with (Pos.succ (digits2_pos m)).
  replace (Z.pos (Pos.succ (digits2_pos m)) + (e - 1)) with (Z.pos (digits2_pos m) + e) by lia.
  set (F := fexp prec emax (Z.pos (digits2_pos m) + e)).
  unfold shl_align.
  destruct (F - e) as [|d|d] eqn:Ed.
  - (* F = e *)
    replace (F - (e - 1)) with 1 by lia.
    unfold binary_round_aux, shr_fexp. simpl Zdigits2.
    change (digits2_pos m~0) with (Pos.succ (digits2_pos m)).
    replace (Z.pos (Pos.succ (digits2_pos m)) + (e - 1)) with (Z.pos (digits2_pos m) + e) by lia.
    fold F. rewrite Ed. replace (F - (e - 1)) with 1 by lia.
    simpl. replace (e - 1 + 1) with e by lia. reflexivity.
  - (* F > e *)
    replace (F - (e - 1)) with (Z.pos (Pos.succ d)) by lia.
    unfold binary_round_aux, shr_fexp. simpl Zdigits2.
    change (digits2_pos m~0) with (Pos.succ (digits2_pos m)).
    replace (Z.pos (Pos.succ (digits2_pos m)) + (e - 1)) with (Z.pos (digits2_pos m) + e) by lia.
    fold F. rewrite Ed. replace (F - (e - 1)) with (Z.pos (Pos.succ d)) by lia.
    unfold shr. rewrite iter_pos_succ. simpl shr_record_of_loc. simpl shr_1.
    replace (e - 1 + Z.pos (Pos.succ d)) with (e + Z.pos d) by lia. reflexivity.
  - (* F < e *)
    destruct (F - (e - 1)) as [|d'|d'] eqn:Ed'; try lia.
    + assert (d = 1%positive) by lia. subst d. simpl.
      replace F with (e - 1) by lia. reflexivity.
    + replace d with (Pos.succ d') by lia.
      rewrite pos_iter_xO_succ. reflexivity.
Qed.

Lemma binary_round_shift s m e (j : nat) :
  binary_round prec emax s (Pos.iter xO m (Pos.of_succ_nat j)) (e - Z.of_nat (S j))
  = binary_round prec emax s m e.
Proof.
  revert e. induction j as [|j IH]; intros e.
  - simpl. apply binary_round_double.
  - rewrite SuccNat2Pos.inj_succ, Pos.iter_succ.
    replace (e - Z.of_nat (S (S j))) with ((e - Z.of_nat (S j)) - 1) by lia.
    rewrite binary_round_double. apply IH.
Qed.

(** A mantissa and exponent that already are a binary64 number round to
    themselves. *)
Lemma binary_round_valid s m e :
  bounded prec emax m e = true ->
  binary_round prec emax s m e = S754_finite s m e.
Proof.
  unfold bounded, canonical_mantissa. intros H.
  apply andb_true_iff in H. destruct H as [Hc He]. apply Z.eqb_eq in Hc.
  unfold binary_round, shl_align. rewrite Hc, Z.sub_diag.
  unfold binary_round_aux, shr_fexp, Zdigits2. rewrite Hc, Z.sub_diag.
  cbn [shr shr_record_of_loc loc_of_shr_record shr_m shr_r shr_s round_nearest_even].
  rewrite Hc, Z.sub_diag. cbn [shr shr_record_of_loc shr_m].
  rewrite He. reflexivity.
Qed.

End Rounding.

(** * Decimals without trailing zeros *)

Module Decimals.
Import JS Notions FloatFacts Rounding.

Lemma stripZeros_spec fuel : forall m e,
  0 < m -> m < 2 ^ Z.of_nat fuel ->
  Stripped m e (fst (stripZeros fuel m e)) (snd (stripZeros fuel m e)).
Proof.
  induction fuel as [|fuel IH]; intros m e Hm Hlt.
  - simpl in Hlt. lia.
  - simpl. destruct (Z.eqb_spec (m mod 10) 0) as [H0|H0].
    + assert (Hdiv : m = 10 * (m / 10)).
      { pose proof (Z.div_mod m 10 ltac:(lia)). lia. }
      assert (Hq : 0 < m / 10) by lia.
      assert (Hlt' : m / 10 < 2 ^ Z.of_nat fuel).
      { rewrite Nat2Z.inj_succ, Z.pow_succ_r in Hlt by lia. lia. }
      destruct (IH (m / 10) (e + 1) Hq Hlt') as (H1 & H2 & H3 & H4).
      set (m' := fst (stripZeros fuel (m / 10) (e + 1))) in *.
      set (e' := snd (stripZeros fuel (m / 10) (e + 1))) in *.
      repeat split; try assumption; try lia.
      replace (e' - e) with (Z.succ (e' - (e + 1))) by lia.
      rewrite Z.pow_succ_r by lia. lia.
    + simpl. repeat split; try assumption; try lia.
      rewrite Z.sub_diag. simpl. lia.
Qed.

Lemma canonicalDecimal_spec m e :
  0 < m -> Stripped m e (fst (canonicalDecimal m e)) (snd (canonicalDecimal m e)).
Proof.
  intros Hm. unfold canonicalDecimal. apply stripZeros_spec; [exact Hm|].
  rewrite Nat2Z.inj_succ, Z2Nat.id by apply Z.log2_nonneg.
  apply Z.log2_spec. exact Hm.
Qed.

Lemma pow10_pos a : 0 <= a -> 0 < 10 ^ a.
Proof. intros. apply Z.pow_pos_nonneg; lia. Qed.

Lemma Stripped_unique m e m1 e1 m2 e2 :
  Stripped m e m1 e1 -> Stripped m e m2 e2 -> m1 = m2 /\ e1 = e2.
Proof.
  intros (Hp1 & Hn1 & He1 & Hv1) (Hp2 & Hn2 & He2 & Hv2).
  assert (Hkey : forall a b x y, 0 < x -> 0 < y -> x mod 10 <> 0 -> y mod 10 <> 0 ->
                   0 <= a -> a <= b -> x * 10 ^ a = y * 10 ^ b -> a = b).
  { intros a b x y Hx Hy Hx10 Hy10 Ha Hab Heq.
    destruct (Z.eq_dec a b) as [|Hne]; [assumption|exfalso].
    replace b with (a + Z.succ (b - a - 1)) in Heq by lia.
    rewrite Z.pow_add_r, Z.pow_succ_r in Heq by lia.
    assert (Hx' : x = y * (10 * 10 ^ (b - a - 1))).
    { apply (Z.mul_reg_r _ _ (10 ^ a)); [pose proof (pow10_pos a Ha); lia|].
      rewrite Heq. ring. }
    apply Hx10. rewrite Hx'.
    replace (y * (10 * 10 ^ (b - a - 1))) with ((y * 10 ^ (b - a - 1)) * 10) by ring.
    apply Z.mod_mul. lia. }
  assert (He : e1 = e2).
  { destruct (Z.le_ge_cases e1 e2).
    - assert (e1 - e = e2 - e); [|lia].
      apply (Hkey _ _ m1 m2); try assumption; try lia.
    - assert (e2 - e = e1 - e); [|lia].
      apply (Hkey _ _ m2 m1); try assumption; try lia. }
  split; [|exact He]. subst e2.
  apply (Z.mul_reg_r _ _ (10 ^ (e1 - e))); [pose proof (pow10_pos (e1 - e)); lia|].
  congruence.
Qed.

(** Trailing zeros can be moved into the exponent. *)
Lemma canonicalDecimal_scale m e j :
  0 < m -> 0 <= j -> canonicalDecimal (m * 10 ^ j) e = canonicalDecimal m (e + j).
Proof.
  intros Hm Hj.
  assert (Hmj : 0 < m * 10 ^ j) by (pose proof (pow10_pos j Hj); nia).
  pose proof (canonicalDecimal_spec (m * 10 ^ j) e Hmj) as H1.
  pose proof (canonicalDecimal_spec m (e + j) Hm) as (Hp & Hn & He & Hv).
  assert (H2 : Stripped (m * 10 ^ j) e (fst (canonicalDecimal m (e + j)))
                        (snd (canonicalDecimal m (e + j)))).
  { repeat split; try assumption; try lia.
    rewrite Hv at 1. rewrite <- Z.mul_assoc, <- Z.pow_add_r by lia.
    f_equal. f_equal. lia. }
  destruct (Stripped_unique _ _ _ _ _ _ H1 H2) as [Ha Hb].
  destruct (canonicalDecimal (m * 10 ^ j) e), (canonicalDecimal m (e + j)).
  simpl in *. congruence.
Qed.

Lemma canonicalDecimal_idem m e :
  0 < m ->
  canonicalDecimal (fst (canonicalDecimal m e)) (snd (canonicalDecimal m e))
  = canonicalDecimal m e.
Proof.
  intros Hm. pose proof (canonicalDecimal_spec m e Hm) as (Hp & Hn & He & Hv).
  pose proof (canonicalDecimal_spec _ (snd (canonicalDecimal m e)) Hp) as H1.
  assert (H2 : Stripped (fst (canonicalDecimal m e)) (snd (canonicalDecimal m e))
                        (fst (canonicalDecimal m e)) (snd (canonicalDecimal m e))).
  { repeat split; try assumption; try lia. rewrite Z.sub_diag. simpl. lia. }
  destruct (Stripped_unique _ _ _ _ _ _ H1 H2) as [Ha Hb].
  destruct (canonicalDecimal (fst (canonicalDecimal m e)) (snd (canonicalDecimal m e))).
  destruct (canonicalDecimal m e). simpl in *. congruence.
Qed.

End Decimals.

(** * The decimal expansion of a binary64 number reads as the number *)

Module Exact.
Import JS Notions FloatFacts Rounding Decimals.

Lemma pos_iter_xO_pow m d : Z.pos (Pos.iter xO m d) = Z.pos m * 2 ^ Z.pos d.
Proof.
  induction d as [|d IH] using Pos.peano_ind.
  - simpl. lia.
  - rewrite Pos.iter_succ, Pos2Z.inj_succ, Z.pow_succ_r by lia.
    rewrite Pos2Z.inj_xO, IH. ring.
Qed.

Lemma binary_normalize_shift m e j :
  0 <= j ->
  binary_normalize prec emax (Z.pos m * 2 ^ j) (e - j) false = binary_round prec emax false m e.
Proof.
  intros Hj. destruct j as [|d|d]; try lia.
  - rewrite Z.mul_1_r, Z.sub_0_r. reflexivity.
  - rewrite <- pos_iter_xO_pow. cbn [binary_normalize].
    replace d with (Pos.of_succ_nat (pred (Pos.to_nat d))) at 1
      by (rewrite SuccNat2Pos.inv with (n := pred (Pos.to_nat d)) (p := d); lia).
    replace (Z.pos d) with (Z.of_nat (S (pred (Pos.to_nat d)))) by lia.
    apply binary_round_shift.
Qed.

Lemma digits2_pos_size m : digits2_pos m = Pos.size m.
Proof. induction m; simpl; congruence. Qed.

Lemma bounded_lt_2_53 m e : bounded prec emax m e = true -> Z.pos m < 2 ^ 53.
Proof.
  unfold bounded, canonical_mantissa, fexp. intros H.
  apply andb_true_iff in H. destruct H as [Hc _]. apply Z.eqb_eq in Hc.
  assert (Hd : Z.pos (digits2_pos m) <= 53) by (change prec with 53 in Hc; lia).
  rewrite digits2_pos_size in Hd.
  pose proof (Pos.size_gt m) as Hs.
  apply Z.lt_le_trans with (2 ^ Z.pos (Pos.size m)).
  - apply Pos2Z.pos_lt_pos in Hs. rewrite Pos2Z.inj_pow in Hs. exact Hs.
  - apply Z.pow_le_mono_r; lia.
Qed.

Lemma div_eucl_exact q d : 0 < d -> Z.div_eucl (q * d) d = (q, 0).
Proof.
  intros Hd. pose proof (Z.div_mul q d ltac:(lia)) as H1.
  pose proof (Z.mod_mul q d ltac:(lia)) as H2.
  unfold Z.div, Z.modulo in H1, H2.
  destruct (Z.div_eucl (q * d) d). congruence.
Qed.

(** Reading the decimal expansion of a binary64 number gives back the
    number. *)
Lemma roundCanonical_exact m e m' e' :
  bounded prec emax m e = true -> 0 < m' -> sameValue m' e' m e ->
  roundCanonical m' e' = S754_finite false m e.
Proof.
  intros Hb Hm' Hv. rewrite <- (binary_round_valid false m e Hb).
  unfold roundCanonical, sameValue in *.
  destruct (Z.leb_spec 0 e') as [He'|He'].
  - rewrite Z.max_l, (Z.max_r (- e')), Z.pow_0_r, Z.mul_1_r in Hv by lia.
    destruct (Z.le_gt_cases 0 e) as [He|He].
    + rewrite (Z.max_r (- e)), Z.max_l, Z.pow_0_r, Z.mul_1_r in Hv by lia.
      rewrite Hv. rewrite <- (binary_normalize_shift m e e He). f_equal. lia.
    + rewrite (Z.max_l (- e)), (Z.max_r e), Z.pow_0_r, Z.mul_1_r in Hv by lia.
      assert (Hi : 0 < m' * 10 ^ e') by (pose proof (pow10_pos e' He'); nia).
      destruct (m' * 10 ^ e') as [|p|p] eqn:Ep; try lia.
      change (binary_round prec emax false m e)
        with (binary_normalize prec emax (Z.pos m) e false).
      rewrite <- Hv. replace e with (0 - - e) at 2 by lia.
      rewrite (binary_normalize_shift p 0 (- e)) by lia. reflexivity.
  - rewrite (Z.max_r e'), (Z.max_l (- e')), Z.pow_0_r, Z.mul_1_r in Hv by lia.
    set (den := 10 ^ (- e')) in *.
    set (sh := Z.log2 den + 64).
    assert (Hden : 0 < den) by (apply pow10_pos; lia).
    assert (Hsh : 0 <= sh + e /\ m' * 2 ^ sh = (Z.pos m * 2 ^ (sh + e)) * den).
    { pose proof (Z.log2_nonneg den) as Hl.
      destruct (Z.le_gt_cases 0 e) as [He|He].
      - rewrite (Z.max_r (- e)), Z.max_l, Z.pow_0_r, Z.mul_1_r in Hv by lia.
        split; [unfold sh; lia|].
        rewrite Hv, Z.pow_add_r by (unfold sh; lia). ring.
      - rewrite (Z.max_l (- e)), (Z.max_r e), Z.pow_0_r, Z.mul_1_r in Hv by lia.
        assert (Hle : - e <= sh).
        { pose proof (bounded_lt_2_53 m e Hb) as H53.
          destruct (Z.log2_spec den Hden) as [_ Hl2].
          assert (H1 : 2 ^ (- e) <= m' * 2 ^ (- e))
            by (pose proof (Z.pow_pos_nonneg 2 (- e)); nia).
          assert (H2 : Z.pos m * den < 2 ^ 53 * 2 ^ Z.succ (Z.log2 den)).
          { apply Z.mul_lt_mono_nonneg; lia. }
          rewrite <- Z.pow_add_r in H2 by lia.
          assert (H3 : 2 ^ (- e) < 2 ^ (53 + Z.succ (Z.log2 den))) by lia.
          apply Z.pow_lt_mono_r_iff in H3; unfold sh; lia. }
        split; [lia|].
        replace sh with ((- e) + (sh + e)) at 1 by lia.
        rewrite Z.pow_add_r, Z.mul_assoc, Hv by lia. ring. }
    destruct Hsh as [Hse Hq]. rewrite Hq, (div_eucl_exact _ den Hden).
    cbn [Z.eqb]. rewrite Z.add_0_r.
    rewrite <- (binary_normalize_shift m e (sh + e + 1)) by lia.
    f_equal.
    + rewrite (Z.pow_add_r 2 (sh + e) 1) by lia. ring.
    + lia.
Qed.

End Exact.

(** * The digits Number::toString chooses *)

Module Shortest.
Import JS Notions FloatFacts Rounding Decimals Exact.

Lemma roundDecimal_pos m e :
  0 < m ->
  roundDecimal m e
  = SF2Prim (roundCanonical (fst (canonicalDecimal m e)) (snd (canonicalDecimal m e))).
Proof.
  intros Hm. unfold roundDecimal.
  destruct (Z.leb_spec m 0); [lia|].
  destruct (canonicalDecimal m e). reflexivity.
Qed.

Lemma pow10_split a : 0 <= a -> 10 ^ a = 2 ^ a * 5 ^ a.
Proof. intros. rewrite <- Z.pow_mul_l. reflexivity. Qed.

Lemma exactDecimal_sameValue m e m' e' :
  Stripped (fst (exactDecimal m e)) (snd (exactDecimal m e)) m' e' ->
  sameValue m' e' m e.
Proof.
  unfold exactDecimal, sameValue.
  destruct (Z.leb_spec 0 e) as [He|He]; cbn [fst snd];
    intros (Hp & _ & Hle & Hv).
  - rewrite Z.sub_0_r in Hv.
    rewrite (Z.max_l e'), (Z.max_r (- e)), (Z.max_l e), (Z.max_r (- e')) by lia.
    rewrite !Z.pow_0_r, Hv. ring.
  - rewrite (Z.max_l (- e)), (Z.max_r e), Z.pow_0_r, Z.mul_1_r by lia.
    assert (H5 : 0 < 5 ^ (- e)) by (apply Z.pow_pos_nonneg; lia).
    apply (Z.mul_reg_r _ _ (5 ^ (- e))); [lia|].
    destruct (Z.le_gt_cases 0 e') as [He'|He'].
    + rewrite (Z.max_l e'), (Z.max_r (- e')), Z.pow_0_r, Z.mul_1_r by lia.
      rewrite Hv. replace (e' - e) with (e' + - e) by lia.
      rewrite Z.pow_add_r, (pow10_split (- e)) by lia. ring.
    + rewrite (Z.max_r e'), (Z.max_l (- e')), Z.pow_0_r, Z.mul_1_r by lia.
      replace (Z.pos m * 10 ^ (- e') * 5 ^ (- e))
        with ((Z.pos m * 5 ^ (- e)) * 10 ^ (- e')) by ring.
      rewrite Hv.
      replace (m' * 10 ^ (e' - e) * 10 ^ (- e')) with (m' * 10 ^ (- e)).
      * rewrite (pow10_split (- e)) by lia. ring.
      * rewrite <- Z.mul_assoc, <- Z.pow_add_r by lia. do 2 f_equal. lia.
Qed.

Lemma exactDecimal_pos m e : 0 < fst (exactDecimal m e).
Proof.
  unfold exactDecimal. destruct (Z.leb_spec 0 e); cbn [fst snd].
  - pose proof (Z.pow_pos_nonneg 2 e). nia.
  - pose proof (Z.pow_pos_nonneg 5 (- e)). nia.
Qed.

(** The decimal expansion of a positive finite number reads as the
    number. *)
Lemma exactDecimal_reads x m e :
  Prim2SF x = S754_finite false m e ->
  Reads (fst (exactDecimal m e)) (snd (exactDecimal m e)) x.
Proof.
  intros Hx. pose proof (exactDecimal_pos m e) as Hp. split; [exact Hp|].
  rewrite roundDecimal_pos by exact Hp.
  pose proof (canonicalDecimal_spec _ (snd (exactDecimal m e)) Hp) as Hs.
  rewrite (roundCanonical_exact m e).
  - rewrite <- Hx. apply SF2Prim_Prim2SF.
  - pose proof (Prim2SF_valid x) as Hv. rewrite Hx in Hv. exact Hv.
  - apply Hs.
  - apply exactDecimal_sameValue. exact Hs.
Qed.

Lemma readsAs_Reads s t x : readsAs s t x = true -> Reads s t x.
Proof.
  unfold readsAs, Reads. intros H. apply andb_true_iff in H. destruct H as [H1 H2].
  split; [apply Z.ltb_lt; exact H1|]. apply FloatAxioms.Leibniz.eqb_spec. exact H2.
Qed.

Lemma candidate_reads x r n k s t : candidate x r n k = Some (s, t) -> Reads s t x.
Proof.
  unfold candidate. destruct (scale10 r (n - k)) as [num den].
  cbv zeta.
  destruct (readsAs (num / den) (n - k) x) eqn:Hlo;
    destruct (readsAs (num / den + 1) (n - k) x) eqn:Hhi;
    repeat match goal with
           | |- context [if ?c then _ else _] => destruct c
           end;
    intros H; inversion H; subst; apply readsAs_Reads; assumption.
Qed.

Lemma shortestFrom_reads x r n exact :
  Reads (fst exact) (snd exact) x ->
  forall fuel k, Reads (fst (shortestFrom fuel x r n k exact))
                       (snd (shortestFrom fuel x r n k exact)) x.
Proof.
  intros He. induction fuel as [|fuel IH]; intros k; simpl.
  - exact He.
  - destruct (candidate x r n k) as [[s t]|] eqn:Ec.
    + apply (candidate_reads _ _ _ _ _ _ Ec).
    + apply IH.
Qed.

Lemma canonical_reads s t x :
  Reads s t x -> Reads (fst (canonicalDecimal s t)) (snd (canonicalDecimal s t)) x.
Proof.
  intros [Hp Hr]. pose proof (canonicalDecimal_spec s t Hp) as (Hp' & _).
  split; [exact Hp'|]. rewrite <- Hr.
  rewrite !roundDecimal_pos by assumption.
  rewrite canonicalDecimal_idem by exact Hp. reflexivity.
Qed.

(** The digits Number::toString writes for a positive finite number read
    back as the number. *)
Lemma shortestDecimal_reads x m e :
  Prim2SF x = S754_finite false m e ->
  Reads (fst (shortestDecimal x m e)) (snd (shortestDecimal x m e)) x.
Proof.
  intros Hx. unfold shortestDecimal.
  pose proof (shortestFrom_reads x (ratio m e) (magnitude (ratio m e)) (exactDecimal m e)
                (exactDecimal_reads x m e Hx) 17 1) as H.
  destruct (shortestFrom 17 x (ratio m e) (magnitude (ratio m e)) 1 (exactDecimal m e))
    as [s t].
  apply canonical_reads. exact H.
Qed.

End Shortest.

(** * Strings of decimal digits *)

Module Digits.
Import JS Notions.

Lemma spanDigits_app ds rest :
  allDigits ds = true -> noDigitAhead rest -> spanDigits (ds ++ rest) = (ds, rest).
Proof.
  intros Hd Hr. induction ds as [|c ds IH]; simpl in *.
  - destruct rest as [|c r]; simpl in *; [reflexivity|]. rewrite Hr. reflexivity.
  - apply andb_true_iff in Hd. destruct Hd as [Hc Hd]. rewrite Hc, (IH Hd). reflexivity.
Qed.

Lemma digitsValue_from ds : forall acc,
  fold_left (fun a c => 10 * a + (Z.of_N c - 48)) ds acc
  = acc * 10 ^ Z.of_nat (List.length ds) + digitsValue ds.
Proof.
  unfold digitsValue. induction ds as [|c ds IH]; intros acc.
  - simpl. lia.
  - cbn [fold_left List.length]. rewrite IH, (IH (10 * 0 + _)).
    rewrite Nat2Z.inj_succ, Z.pow_succ_r by lia. ring.
Qed.

Lemma digitsValue_app a b :
  digitsValue (a ++ b) = digitsValue a * 10 ^ Z.of_nat (List.length b) + digitsValue b.
Proof.
  unfold digitsValue at 1. rewrite fold_left_app. apply digitsValue_from.
Qed.

Lemma digitsValue_cons c ds :
  digitsValue (c :: ds) = (Z.of_N c - 48) * 10 ^ Z.of_nat (List.length ds) + digitsValue ds.
Proof.
  change (c :: ds) with ([c] ++ ds). rewrite digitsValue_app. reflexivity.
Qed.

Lemma zeros_length j : 0 <= j -> Z.of_nat (List.length (zeros j)) = j.
Proof. intros. unfold zeros. rewrite repeat_length. lia. Qed.

Lemma zeros_allDigits j : allDigits (zeros j) = true.
Proof.
  unfold zeros. induction (Z.to_nat j); simpl; [reflexivity|assumption].
Qed.

Lemma zeros_value j : digitsValue (zeros j) = 0.
Proof.
  unfold zeros. induction (Z.to_nat j) as [|n IH]; [reflexivity|].
  cbn [repeat]. rewrite digitsValue_cons, IH. reflexivity.
Qed.

Lemma allDigits_app a b : allDigits (a ++ b) = allDigits a && allDigits b.
Proof. apply forallb_app. Qed.

Lemma isDigit_offset n : (n < 10)%N -> isDigit (48 + n)%N = true.
Proof.
  intros H. unfold isDigit. apply andb_true_iff. split; apply N.leb_le; lia.
Qed.

Lemma digitsFuel_S f n acc :
  digitsFuel (S f) n acc
  = if (n <? 10)%N then (48 + n)%N :: acc
    else digitsFuel f (n / 10)%N ((48 + n mod 10)%N :: acc).
Proof. reflexivity. Qed.

(** What [digitsFuel] adds in front of [acc]: the digits of [n]. *)
Lemma digitsFuel_spec fuel : forall n acc,
  (n < 10 ^ N.of_nat (S fuel))%N ->
  exists ds, digitsFuel (S fuel) n acc = ds ++ acc
             /\ ds <> [] /\ allDigits ds = true /\ digitsValue ds = Z.of_N n
             /\ ((0 < n)%N -> hd 0%N ds <> 48%N).
Proof.
  assert (Hsmall : forall f n acc, (n < 10)%N ->
            exists ds, digitsFuel (S f) n acc = ds ++ acc
             /\ ds <> [] /\ allDigits ds = true /\ digitsValue ds = Z.of_N n
             /\ ((0 < n)%N -> hd 0%N ds <> 48%N)).
  { intros f n acc Hlt. rewrite digitsFuel_S.
    destruct (N.ltb_spec n 10) as [_|Hge]; [|lia].
    exists [(48 + n)%N]. split; [reflexivity|]. split; [discriminate|].
    split; [|split].
    - unfold allDigits. cbn [forallb]. rewrite andb_true_r.
      apply isDigit_offset. exact Hlt.
    - unfold digitsValue. cbn [fold_left]. lia.
    - cbn [hd]. lia. }
  induction fuel as [|fuel IH]; intros n acc Hn.
  - apply Hsmall. exact Hn.
  - destruct (N.ltb_spec n 10) as [Hlt|Hge]; [apply Hsmall; exact Hlt|].
    rewrite digitsFuel_S. destruct (N.ltb_spec n 10) as [Hlt|_]; [lia|].
    assert (Hq : (n / 10 < 10 ^ N.of_nat (S fuel))%N).
    { apply N.Div0.div_lt_upper_bound.
      rewrite (Nat2N.inj_succ (S fuel)), N.pow_succ_r' in Hn. exact Hn. }
    destruct (IH (n / 10)%N ((48 + n mod 10)%N :: acc) Hq)
      as (ds & Heq & Hne & Hall & Hval & Hhd).
    assert (Hm : (n mod 10 < 10)%N) by (apply N.mod_lt; lia).
    exists (ds ++ [(48 + n mod 10)%N]). split; [|split; [|split; [|split]]].
    + rewrite Heq, <- app_assoc. reflexivity.
    + destruct ds; discriminate.
    + rewrite allDigits_app, Hall. unfold allDigits. cbn [forallb andb].
      rewrite andb_true_r. apply isDigit_offset. exact Hm.
    + rewrite digitsValue_app, Hval. unfold digitsValue. cbn [fold_left List.length].
      pose proof (N.div_mod n 10 ltac:(lia)). lia.
    + intros _. destruct ds as [|c ds]; [congruence|]. cbn [app hd] in *.
      apply Hhd. apply N.div_str_pos. lia.
Qed.

Lemma decimalDigits_spec n :
  0 <= n ->
  decimalDigits n <> [] /\ allDigits (decimalDigits n) = true
  /\ digitsValue (decimalDigits n) = n
  /\ (0 < n -> hd 0%N (decimalDigits n) <> 48%N).
Proof.
  intros Hn. unfold decimalDigits.
  assert (Hlt : (Z.to_N n < 10 ^ N.of_nat (S (N.to_nat (N.log2 (Z.to_N n)))))%N).
  { rewrite Nat2N.inj_succ, N2Nat.id.
    destruct (N.eq_dec (Z.to_N n) 0) as [->|Hne].
    - simpl. lia.
    - apply N.lt_le_trans with (2 ^ N.succ (N.log2 (Z.to_N n)))%N.
      + apply N.log2_spec. lia.
      + apply N.pow_le_mono_l. lia. }
  destruct (digitsFuel_spec _ _ [] Hlt) as (ds & Heq & Hne & Hall & Hval & Hhd).
  rewrite Heq, app_nil_r. repeat split; try assumption.
  - rewrite Hval. lia.
  - intros Hp. apply Hhd. lia.
Qed.

End Digits.

(** * Number texts and the number reader *)

Module NumberText.
Import JS Notions FloatFacts Rounding Decimals Exact Shortest Digits.

Lemma takeChar_other c x r : x <> c -> takeChar c (x :: r) = None.
Proof.
  intros H. unfold takeChar, char_eqb. destruct (N.eqb_spec x c); congruence.
Qed.

Lemma endsNumber_noDigit rest : endsNumber rest -> noDigitAhead rest.
Proof. destruct rest; simpl; tauto. Qed.

Lemma endsNumber_noPoint rest : endsNumber rest -> takeChar 46%N rest = None.
Proof.
  destruct rest as [|c r]; simpl; [reflexivity|]. intros (_ & H & _).
  apply takeChar_other. exact H.
Qed.

Lemma endsNumber_noExponent rest : endsNumber rest -> takeExponentMark rest = None.
Proof.
  destruct rest as [|c r]; [reflexivity|]. intros (_ & _ & H1 & H2).
  unfold takeExponentMark. rewrite !takeChar_other by assumption. reflexivity.
Qed.

Lemma isDigit_range c : isDigit c = true -> (48 <= c <= 57)%N.
Proof.
  unfold isDigit. intros H. apply andb_true_iff in H. destruct H as [H1 H2].
  apply N.leb_le in H1. apply N.leb_le in H2. lia.
Qed.

(** After the integer part and the fraction, what is left decides the
    exponent. *)
Lemma parseUnsigned_mantissa neg ip fp tail :
  ip <> [] -> allDigits ip = true -> leadingZero ip = false ->
  allDigits fp = true ->
  noDigitAhead tail -> takeChar 46%N tail = None ->
  parseUnsigned neg (ip ++ fractionText fp ++ tail)
  = match takeExponentMark tail with
    | Some _ =>
        let (ex, r3) := exponentPart tail in
        match takeExponentMark r3 with
        | Some _ => SyntaxError
        | None => Parsed (signed neg (decimalValue ip fp ex)) r3
        end
    | None => Parsed (signed neg (decimalValue ip fp 0)) tail
    end.
Proof.
  intros Hne Hip Hlz Hfp Htail Hpt. unfold parseUnsigned.
  assert (Hnd : noDigitAhead (fractionText fp ++ tail)).
  { destruct fp; simpl; [exact Htail|reflexivity]. }
  rewrite (spanDigits_app ip _ Hip Hnd).
  destruct ip as [|c ip']; [congruence|]. rewrite Hlz.
  destruct fp as [|d fp']; cbn [fractionText app].
  - rewrite Hpt. reflexivity.
  - cbn [takeChar]. change (char_eqb 46%N 46%N) with true. cbv iota.
    change (d :: fp' ++ tail) with ((d :: fp') ++ tail).
    rewrite (spanDigits_app (d :: fp') tail Hfp Htail). reflexivity.
Qed.

Lemma takeExponentMark_e r : takeExponentMark (101%N :: r) = Some r.
Proof. reflexivity. Qed.

Lemma takeSign_plus r : takeSign (43%N :: r) = (false, r).
Proof. reflexivity. Qed.

Lemma takeSign_minus r : takeSign (45%N :: r) = (true, r).
Proof. reflexivity. Qed.

Lemma exponentPart_text e rest :
  noDigitAhead rest -> exponentPart (exponentText e ++ rest) = (e, rest).
Proof.
  intros Hr. unfold exponentText, exponentPart. cbn [app].
  rewrite takeExponentMark_e.
  destruct (decimalDigits_spec (Z.abs e) (Z.abs_nonneg e)) as (Hne & Hall & Hval & _).
  destruct (Z.leb_spec 0 e) as [He|He].
  - rewrite takeSign_plus, (spanDigits_app _ rest Hall Hr).
    destruct (decimalDigits (Z.abs e)) as [|c ds]; [congruence|].
    rewrite Hval. f_equal. lia.
  - rewrite takeSign_minus, (spanDigits_app _ rest Hall Hr).
    destruct (decimalDigits (Z.abs e)) as [|c ds]; [congruence|].
    rewrite Hval. f_equal. lia.
Qed.

Lemma parseUnsigned_plain neg ip fp rest :
  ip <> [] -> allDigits ip = true -> leadingZero ip = false ->
  allDigits fp = true -> endsNumber rest ->
  parseUnsigned neg (ip ++ fractionText fp ++ rest)
  = Parsed (signed neg (decimalValue ip fp 0)) rest.
Proof.
  intros Hne Hip Hlz Hfp Hr.
  rewrite parseUnsigned_mantissa; try assumption.
  - rewrite (endsNumber_noExponent rest Hr). reflexivity.
  - apply endsNumber_noDigit. exact Hr.
  - apply endsNumber_noPoint. exact Hr.
Qed.

Lemma parseUnsigned_exponent neg ip fp e rest :
  ip <> [] -> allDigits ip = true -> leadingZero ip = false ->
  allDigits fp = true -> endsNumber rest ->
  parseUnsigned neg (ip ++ fractionText fp ++ exponentText e ++ rest)
  = Parsed (signed neg (decimalValue ip fp e)) rest.
Proof.
  intros Hne Hip Hlz Hfp Hr.
  rewrite parseUnsigned_mantissa; try assumption; try reflexivity.
  rewrite (exponentPart_text e rest (endsNumber_noDigit rest Hr)).
  rewrite (endsNumber_noExponent rest Hr). reflexivity.
Qed.

Lemma roundDecimal_scale m e j :
  0 < m -> 0 <= j -> roundDecimal (m * 10 ^ j) e = roundDecimal m (e + j).
Proof.
  intros Hm Hj.
  assert (Hmj : 0 < m * 10 ^ j) by (pose proof (pow10_pos j Hj); nia).
  rewrite !roundDecimal_pos by assumption.
  rewrite canonicalDecimal_scale by assumption. reflexivity.
Qed.

Lemma leadingZero_head l : hd 0%N l <> 48%N -> leadingZero l = false.
Proof.
  destruct l as [|c [|c' l]]; try reflexivity. cbn [hd leadingZero]. intros H.
  unfold char_eqb. apply N.eqb_neq. exact H.
Qed.

Lemma fractionText_cons fp : fp <> [] -> fractionText fp = 46%N :: fp.
Proof. destruct fp; [congruence|reflexivity]. Qed.

Lemma allDigits_firstn n ds : allDigits ds = true -> allDigits (firstn n ds) = true.
Proof.
  revert n. induction ds as [|c ds IH]; intros [|n] H; try reflexivity.
  cbn [firstn]. unfold allDigits in *. cbn [forallb] in *.
  apply andb_true_iff in H. destruct H as [H1 H2]. rewrite H1, (IH n H2). reflexivity.
Qed.

Lemma allDigits_skipn n ds : allDigits ds = true -> allDigits (skipn n ds) = true.
Proof.
  revert n. induction ds as [|c ds IH]; intros [|n] H; try reflexivity; try exact H.
  cbn [skipn]. unfold allDigits in *. cbn [forallb] in H.
  apply andb_true_iff in H. destruct H as [H1 H2]. apply (IH n H2).
Qed.

(** What Number::toString writes for the decimal [d * 10^t] reads as that
    decimal. *)
Lemma formatDecimal_parse neg d t rest :
  0 < d -> endsNumber rest ->
  parseUnsigned neg (formatDecimal d t ++ rest)
  = Parsed (signed neg (roundDecimal d t)) rest.
Proof.
  intros Hd Hr. unfold formatDecimal.
  destruct (decimalDigits_spec d ltac:(lia)) as (Hne & Hall & Hval & Hhd).
  specialize (Hhd Hd).
  set (ds := decimalDigits d) in *.
  set (k := Z.of_nat (List.length ds)).
  assert (Hk : 1 <= k) by (unfold k; destruct ds; [congruence|cbn [List.length]; lia]).
  set (n := t + k).
  destruct ((-5 <=? n) && (n <=? 21)) eqn:Hrange.
  - destruct (Z.leb_spec k n) as [Hkn|Hkn]; [|destruct (Z.ltb_spec 0 n) as [Hn|Hn]].
    + (* digits and zeros *)
      replace ((ds ++ zeros (n - k)) ++ rest)
        with ((ds ++ zeros (n - k)) ++ fractionText [] ++ rest) by reflexivity.
      rewrite parseUnsigned_plain; try assumption; try reflexivity.
      * unfold decimalValue. rewrite app_nil_r, digitsValue_app, zeros_value, Hval.
        rewrite zeros_length by lia. cbn [List.length Z.of_nat].
        rewrite Z.add_0_r. rewrite (roundDecimal_scale d (0 - 0) (n - k) Hd) by (clear - Hkn; lia).
        do 3 f_equal. unfold n. lia.
      * destruct ds; [congruence|discriminate].
      * rewrite allDigits_app, Hall, zeros_allDigits. reflexivity.
      * apply leadingZero_head. destruct ds; [congruence|exact Hhd].
    + (* digits, point, digits *)
      assert (Hlen : (Z.to_nat n < List.length ds)%nat) by (unfold k in Hkn; lia).
      assert (Hfp : skipn (Z.to_nat n) ds <> []).
      { intros E. apply (f_equal (@List.length _)) in E.
        rewrite length_skipn in E. cbn [List.length] in E. lia. }
      rewrite <- app_assoc, <- (fractionText_cons _ Hfp).
      rewrite parseUnsigned_plain; try assumption.
      * unfold decimalValue. rewrite firstn_skipn, Hval, length_skipn.
        do 3 f_equal. unfold n, k in *. lia.
      * intros E. apply (f_equal (@List.length _)) in E.
        rewrite length_firstn in E. cbn [List.length] in E. lia.
      * apply allDigits_firstn. exact Hall.
      * apply leadingZero_head. destruct ds as [|c ds']; [congruence|].
        destruct (Z.to_nat n) eqn:En; [lia|]. exact Hhd.
      * apply allDigits_skipn. exact Hall.
    + (* zero, point, zeros, digits *)
      assert (Hfp : zeros (- n) ++ ds <> [])
        by (intros E; apply app_eq_nil in E; destruct E; congruence).
      change (48%N :: 46%N :: zeros (- n) ++ ds) with ([48%N] ++ 46%N :: zeros (- n) ++ ds).
      rewrite <- (fractionText_cons _ Hfp), <- !app_assoc.
      rewrite parseUnsigned_plain; try assumption; try reflexivity; try discriminate.
      * unfold decimalValue. cbn [app]. rewrite digitsValue_cons, digitsValue_app.
        rewrite zeros_value, Hval, length_app, Nat2Z.inj_add, zeros_length by lia.
        change (Z.of_N 48 - 48) with 0. do 3 f_equal; unfold n, k in *; lia.
      * rewrite allDigits_app, Hall, zeros_allDigits. reflexivity.
  - (* exponent notation *)
    destruct ds as [|c ds'] eqn:Eds; [congruence|].
    fold (exponentText (n - 1)).
    assert (Hc : allDigits [c] = true /\ allDigits ds' = true).
    { unfold allDigits in *. cbn [forallb] in *. apply andb_true_iff in Hall.
      destruct Hall as [H1 H2]. rewrite H1. auto. }
    destruct Hc as [Hc Hds'].
    destruct ds' as [|c' ds''].
    + change (c :: exponentText (n - 1)) with ([c] ++ fractionText [] ++ exponentText (n - 1)).
      rewrite <- !app_assoc.
      rewrite parseUnsigned_exponent; try assumption; try reflexivity; try discriminate.
      unfold decimalValue. rewrite app_nil_r, Hval. cbn [List.length Z.of_nat].
      do 3 f_equal. unfold n, k. cbn [List.length]. lia.
    + change (c :: 46%N :: (c' :: ds'') ++ exponentText (n - 1))
        with ([c] ++ fractionText (c' :: ds'') ++ exponentText (n - 1)).
      rewrite <- !app_assoc.
      rewrite parseUnsigned_exponent; try assumption; try reflexivity; try discriminate.
      unfold decimalValue. change ([c] ++ c' :: ds'') with (c :: c' :: ds''). rewrite Hval.
      do 3 f_equal. unfold n, k. cbn [List.length]. lia.
Qed.

Lemma takeChar_some c s r : takeChar c s = Some r -> s = c :: r.
Proof.
  destruct s as [|x s']; simpl; [discriminate|]. unfold char_eqb.
  destruct (N.eqb_spec x c); [|discriminate]. intros H. injection H as ->. congruence.
Qed.

Lemma parseUnsigned_minus neg r : parseUnsigned neg (45%N :: r) = SyntaxError.
Proof. reflexivity. Qed.

(** Number::toString followed by the number reader of [JSON.parse] is the
    identity on plain numbers. *)
Lemma Number_toString_parse x rest :
  plain x = true -> endsNumber rest ->
  parseNumber (Number_toString x ++ rest) = Parsed x rest.
Proof.
  unfold plain, Number_toString. intros Hx Hr.
  destruct (Prim2SF x) as [[]| | |s m e] eqn:Ex; try discriminate.
  - (* zero *)
    assert (x = 0%float) as -> by (apply Prim2SF_inj; rewrite Ex; reflexivity).
    unfold parseNumber.
    change (takeChar 45%N (lit "0" ++ rest)) with (@None jsstring). cbv iota.
    change (lit "0" ++ rest) with ([48%N] ++ fractionText [] ++ rest).
    rewrite parseUnsigned_plain; try assumption; try reflexivity. discriminate.
  - assert (Ha : Prim2SF (PrimFloat.abs x) = S754_finite false m e)
      by (rewrite abs_spec, Ex; reflexivity).
    pose proof (shortestDecimal_reads _ m e Ha) as [Hd Hread].
    destruct (shortestDecimal (PrimFloat.abs x) m e) as [d t]. cbn [fst snd] in *.
    pose proof (formatDecimal_parse false d t rest Hd Hr) as Hpos.
    destruct s; cbn [minus app].
    + unfold parseNumber.
      change (takeChar 45%N (45%N :: formatDecimal d t ++ rest))
        with (Some (formatDecimal d t ++ rest)). cbv iota.
      rewrite (formatDecimal_parse true d t rest Hd Hr), Hread. f_equal.
      apply Prim2SF_inj. cbn [signed]. rewrite opp_spec, Ha, Ex. reflexivity.
    + unfold parseNumber. destruct (takeChar 45%N (formatDecimal d t ++ rest)) as [r|] eqn:Et.
      * apply takeChar_some in Et. rewrite Et, parseUnsigned_minus in Hpos. discriminate Hpos.
      * rewrite Hpos, Hread. f_equal. cbn [signed]. apply Prim2SF_inj. rewrite Ha, Ex. reflexivity.
Qed.

End NumberText.

(** * String texts and the string reader *)

Module StringText.
Import JS Notions.

Lemma hexValue_hexDigit d : (d < 16)%N -> hexValue (hexDigit d) = Some d.
Proof.
  intros H.
  assert (Hc : In d [0;1;2;3;4;5;6;7;8;9;10;11;12;13;14;15]%N).
  { destruct d as [|p]; [left; reflexivity|].
    do 4 (try destruct p as [p|p|]); simpl; try lia; tauto. }
  simpl in Hc. repeat (destruct Hc as [<-|Hc]; [reflexivity|]). contradiction.
Qed.

Lemma hex4_unicodeEscape c :
  (c < 65536)%N ->
  exists h1 h2 h3 h4,
    unicodeEscape c = [92; 117; h1; h2; h3; h4]%N /\ hex4 h1 h2 h3 h4 = Some c.
Proof.
  intros Hc. unfold unicodeEscape. do 4 eexists. split; [reflexivity|].
  unfold hex4. rewrite !hexValue_hexDigit by (apply N.mod_lt; lia).
  f_equal.
  pose proof (N.div_mod c 16 ltac:(lia)).
  pose proof (N.div_mod (c / 16) 16 ltac:(lia)).
  pose proof (N.div_mod (c / 16 / 16) 16 ltac:(lia)).
  pose proof (N.div_mod (c / 16 / 16 / 16) 16 ltac:(lia)).
  rewrite !N.Div0.div_div in *.
  change (16 * 16)%N with 256%N in *. change (256 * 16)%N with 4096%N in *.
  assert (c / (4096 * 16) = 0)%N by (apply N.div_small; lia).
  change (4096 * 16)%N with 65536%N in *.
  assert (Hm : (c / 4096 mod 16 = c / 4096)%N).
  { apply N.mod_small. apply N.Div0.div_lt_upper_bound. lia. }
  lia.
Qed.

Lemma parse_literal_unit c tail :
  c <> 34%N -> c <> 92%N -> (32 <= c)%N ->
  parseStringChars (c :: tail) = consParsed c (parseStringChars tail).
Proof.
  intros H1 H2 H3. cbn [parseStringChars]. unfold char_eqb.
  destruct (N.eqb_spec c 34); [congruence|].
  destruct (N.eqb_spec c 92); [congruence|].
  destruct (N.ltb_spec c 32); [lia|]. reflexivity.
Qed.

Lemma parse_unicodeEscape c tail :
  (c < 65536)%N ->
  parseStringChars (unicodeEscape c ++ tail) = consParsed c (parseStringChars tail).
Proof.
  intros Hc. destruct (hex4_unicodeEscape c Hc) as (h1 & h2 & h3 & h4 & -> & Hh).
  cbn [app parseStringChars].
  change (char_eqb 92%N 34%N) with false. change (char_eqb 92%N 92%N) with true.
  change (char_eqb 117%N 117%N) with true. cbv iota. rewrite Hh. reflexivity.
Qed.

Lemma shortEscape_cases c e :
  shortEscape c = Some e ->
  In (c, e) [(8, 98); (9, 116); (10, 110); (12, 102); (13, 114); (34, 34); (92, 92)]%N.
Proof.
  unfold shortEscape.
  repeat match goal with
         | |- context [N.eqb c ?k] => destruct (N.eqb_spec c k) as [->|?]
         end; intros H; inversion H; subst; simpl; tauto.
Qed.

Lemma shortEscape_none c : shortEscape c = None -> c <> 34%N /\ c <> 92%N.
Proof.
  intros H. split; intros ->; discriminate H.
Qed.

Lemma surrogate_lt c :
  ((c <? 32) || isHighSurrogate c || isLowSurrogate c = true -> c < 65536)%N.
Proof.
  unfold isHighSurrogate, isLowSurrogate. intros H.
  repeat (apply orb_true_iff in H; destruct H as [H|H]).
  - apply N.ltb_lt in H. lia.
  - apply andb_true_iff in H. destruct H as [_ H]. apply N.leb_le in H. lia.
  - apply andb_true_iff in H. destruct H as [_ H]. apply N.leb_le in H. lia.
Qed.

(** Reading what [quoteUnit] writes gives the code unit back. *)
Lemma parse_quoteUnit c tail :
  parseStringChars (quoteUnit c ++ tail) = consParsed c (parseStringChars tail).
Proof.
  unfold quoteUnit. destruct (shortEscape c) as [e|] eqn:Ee.
  - apply shortEscape_cases in Ee. simpl in Ee.
    repeat (destruct Ee as [Ee|Ee]; [inversion Ee; subst; reflexivity|]).
    contradiction.
  - destruct (shortEscape_none c Ee) as [H1 H2].
    destruct ((c <? 32)%N || isHighSurrogate c || isLowSurrogate c) eqn:Eu.
    + apply parse_unicodeEscape. apply surrogate_lt. exact Eu.
    + apply parse_literal_unit; try assumption.
      apply orb_false_iff in Eu. destruct Eu as [Eu _].
      apply orb_false_iff in Eu. destruct Eu as [Eu _].
      apply N.ltb_ge in Eu. exact Eu.
Qed.

Lemma high_surrogate_literal c tail :
  isHighSurrogate c = true ->
  parseStringChars (c :: tail) = consParsed c (parseStringChars tail).
Proof.
  unfold isHighSurrogate. intros H. apply andb_true_iff in H. destruct H as [H _].
  apply N.leb_le in H. apply parse_literal_unit; lia.
Qed.

Lemma low_surrogate_literal c tail :
  isLowSurrogate c = true ->
  parseStringChars (c :: tail) = consParsed c (parseStringChars tail).
Proof.
  unfold isLowSurrogate. intros H. apply andb_true_iff in H. destruct H as [H _].
  apply N.leb_le in H. apply parse_literal_unit; lia.
Qed.

(** Reading what QuoteJSONString writes gives the string back. *)
Lemma parse_quoteUnits_length n : forall s rest,
  (List.length s <= n)%nat ->
  parseStringChars (quoteUnits s ++ 34%N :: rest) = Parsed s rest.
Proof.
  induction n as [|n IH]; intros s rest Hlen.
  - destruct s; [reflexivity|simpl in Hlen; lia].
  - destruct s as [|c r]; [reflexivity|]. cbn [List.length] in Hlen.
    cbn [quoteUnits]. destruct (isHighSurrogate c) eqn:Eh.
    + destruct r as [|d r'].
      * rewrite parse_unicodeEscape by (apply surrogate_lt; rewrite Eh, orb_true_r; reflexivity).
        reflexivity.
      * destruct (isLowSurrogate d) eqn:El.
        -- cbn [app]. rewrite (high_surrogate_literal c _ Eh), (low_surrogate_literal d _ El).
           rewrite IH by (cbn [List.length] in Hlen; lia). reflexivity.
        -- rewrite <- app_assoc.
           rewrite parse_unicodeEscape by (apply surrogate_lt; rewrite Eh, orb_true_r; reflexivity).
           rewrite IH by lia. reflexivity.
    + rewrite <- app_assoc, parse_quoteUnit, IH by lia. reflexivity.
Qed.

Lemma parse_QuoteJSONString s rest :
  exists tail, QuoteJSONString s ++ rest = 34%N :: tail
               /\ parseStringChars tail = Parsed s rest.
Proof.
  exists (quoteUnits s ++ 34%N :: rest). split.
  - unfold QuoteJSONString. cbn [app]. rewrite <- app_assoc. reflexivity.
  - apply (parse_quoteUnits_length (List.length s)). lia.
Qed.

End StringText.

(** * The fuel of the JSON reader *)

Module ParserFuel.
Import JS Notions.

Lemma bind_settled {A B} (p : parsed A) (k : A -> jsstring -> parsed B) :
  bind p k <> OutOfFuel -> p <> OutOfFuel.
Proof. destruct p; simpl; congruence. Qed.

Section Steps.
Variables (readValue readValue' : jsstring -> parsed value).
Variables (readElements readElements' : jsstring -> parsed (list value)).
Variables (readMembers readMembers' : jsstring -> parsed (list (jsstring * value))).
Hypothesis value_ext : forall s, readValue s <> OutOfFuel -> readValue' s = readValue s.
Hypothesis elements_ext :
  forall s, readElements s <> OutOfFuel -> readElements' s = readElements s.
Hypothesis members_ext :
  forall s, readMembers s <> OutOfFuel -> readMembers' s = readMembers s.

Lemma valueStep_ext s :
  valueStep readElements readMembers s <> OutOfFuel ->
  valueStep readElements' readMembers' s = valueStep readElements readMembers s.
Proof.
  unfold valueStep. destruct (skipWs s) as [|c r]; [reflexivity|].
  destruct (char_eqb c 34); [reflexivity|].
  destruct (char_eqb c 91).
  { destruct (startsWithChar 93 (skipWs r)); [reflexivity|].
    intros H. apply bind_settled in H. rewrite (elements_ext r H). reflexivity. }
  destruct (char_eqb c 123); [|reflexivity].
  destruct (startsWithChar 125 (skipWs r)); [reflexivity|].
  intros H. apply bind_settled in H. rewrite (members_ext r H). reflexivity.
Qed.

Lemma elementsStep_ext s :
  elementsStep readValue readElements s <> OutOfFuel ->
  elementsStep readValue' readElements' s = elementsStep readValue readElements s.
Proof.
  unfold elementsStep. intros H. pose proof (bind_settled _ _ H) as Hv.
  rewrite (value_ext s Hv). destruct (readValue s) as [v r| |]; try reflexivity.
  cbn [bind] in *. destruct (skipWs r) as [|c r']; [reflexivity|].
  destruct (char_eqb c 44); [|reflexivity].
  apply bind_settled in H. rewrite (elements_ext r' H). reflexivity.
Qed.

Lemma membersStep_ext s :
  membersStep readValue readMembers s <> OutOfFuel ->
  membersStep readValue' readMembers' s = membersStep readValue readMembers s.
Proof.
  unfold membersStep. destruct (skipWs s) as [|q r]; [reflexivity|].
  destruct (char_eqb q 34); [|reflexivity].
  destruct (parseStringChars r) as [k r1| |]; try reflexivity. cbn [bind].
  destruct (skipWs r1) as [|colon r2]; [reflexivity|].
  destruct (char_eqb colon 58); [|reflexivity].
  intros H. pose proof (bind_settled _ _ H) as Hv.
  rewrite (value_ext r2 Hv). destruct (readValue r2) as [v r3| |]; try reflexivity.
  cbn [bind] in *. destruct (skipWs r3) as [|c r4]; [reflexivity|].
  destruct (char_eqb c 44); [|reflexivity].
  apply bind_settled in H. rewrite (members_ext r4 H). reflexivity.
Qed.
End Steps.

(** A result other than [OutOfFuel] stays the same with more fuel. *)
Lemma fuel_S f :
  (forall s, parseValue f s <> OutOfFuel -> parseValue (S f) s = parseValue f s)
  /\ (forall s, parseElements f s <> OutOfFuel -> parseElements (S f) s = parseElements f s)
  /\ (forall s, parseMembers f s <> OutOfFuel -> parseMembers (S f) s = parseMembers f s).
Proof.
  induction f as [|f (IHv & IHe & IHm)].
  - repeat split; intros s H; exfalso; apply H; reflexivity.
  - repeat split; intros s H.
    + apply (valueStep_ext _ _ _ _ IHe IHm s H).
    + apply (elementsStep_ext _ _ _ _ IHv IHe s H).
    + apply (membersStep_ext _ _ _ _ IHv IHm s H).
Qed.

Lemma parseValue_fuel f f' s v r :
  (f <= f')%nat -> parseValue f s = Parsed v r -> parseValue f' s = Parsed v r.
Proof.
  intros Hle H. induction Hle as [|f' Hle IH]; [exact H|].
  destruct (fuel_S f') as (Hv & _). rewrite Hv; [exact IH|]. rewrite IH. discriminate.
Qed.

Lemma syntax_error_fuel f f' s :
  (f <= f')%nat -> parseValue f s = SyntaxError -> parseValue f' s = SyntaxError.
Proof.
  intros Hle H. induction Hle as [|f' Hle IH]; [exact H|].
  destruct (fuel_S f') as (Hv & _). rewrite Hv; [exact IH|]. rewrite IH. discriminate.
Qed.

End ParserFuel.

(** * The JSON reader never runs out of fuel *)

Module ReaderFuel.
Import JS Notions NumberText ParserFuel.

(** ** What a reader leaves is shorter than what it was given *)

Lemma skipWs_length s : (List.length (skipWs s) <= List.length s)%nat.
Proof.
  induction s as [|c s IH]; simpl; [lia|]. destruct (isJSONWhiteSpace c); simpl; lia.
Qed.

Lemma consParsed_inv c p str r :
  consParsed c p = Parsed str r -> exists str', p = Parsed str' r.
Proof.
  destruct p as [str' r'| |]; simpl; intros H; inversion H; subst. eauto.
Qed.

Lemma parseStringChars_length n : forall s str r,
  (List.length s <= n)%nat -> parseStringChars s = Parsed str r ->
  (List.length r < List.length s)%nat.
Proof.
  induction n as [|n IH]; intros s str r Hn H.
  - destruct s; [discriminate H|simpl in Hn; lia].
  - destruct s as [|c s']; [discriminate H|]. cbn [List.length] in *.
    cbn [parseStringChars] in H.
    destruct (char_eqb c 34).
    { inversion H; subst. lia. }
    destruct (char_eqb c 92).
    { destruct s' as [|e r1]; [discriminate H|]. cbn [List.length] in *.
      destruct (char_eqb e 117).
      - destruct r1 as [|h1 [|h2 [|h3 [|h4 r2]]]]; try discriminate H.
        destruct (hex4 h1 h2 h3 h4); [|discriminate H].
        apply consParsed_inv in H. destruct H as [str' H].
        apply IH in H; cbn [List.length] in *; lia.
      - destruct (escapedChar e); [|discriminate H].
        apply consParsed_inv in H. destruct H as [str' H].
        apply IH in H; cbn [List.length] in *; lia. }
    destruct (c <? 32)%N; [discriminate H|].
    apply consParsed_inv in H. destruct H as [str' H]. apply IH in H; lia.
Qed.

Lemma spanDigits_length s : forall ds r,
  spanDigits s = (ds, r) -> List.length s = (List.length ds + List.length r)%nat.
Proof.
  induction s as [|c s IH]; intros ds r H; simpl in H.
  - inversion H. reflexivity.
  - destruct (isDigit c).
    + destruct (spanDigits s) as [d r0]. inversion H; subst.
      cbn [List.length]. rewrite (IH d r eq_refl). reflexivity.
    + inversion H. reflexivity.
Qed.

Lemma takeChar_length c s r : takeChar c s = Some r -> List.length s = S (List.length r).
Proof. intros H. apply takeChar_some in H. subst. reflexivity. Qed.

Lemma exponentPart_length s e r :
  exponentPart s = (e, r) -> (List.length r <= List.length s)%nat.
Proof.
  unfold exponentPart, takeExponentMark, takeSign.
  destruct (takeChar 101 s) as [s1|] eqn:E1.
  - apply takeChar_length in E1.
    destruct (takeChar 45 s1) as [s2|] eqn:E2; [apply takeChar_length in E2|
      destruct (takeChar 43 s1) as [s2|] eqn:E3; [apply takeChar_length in E3|]];
      destruct (spanDigits _) as [ds r0] eqn:Es; apply spanDigits_length in Es;
      destruct ds; intros H; inversion H; subst; cbn [List.length] in *; lia.
  - destruct (takeChar 69 s) as [s1|] eqn:E1'.
    + apply takeChar_length in E1'.
      destruct (takeChar 45 s1) as [s2|] eqn:E2; [apply takeChar_length in E2|
        destruct (takeChar 43 s1) as [s2|] eqn:E3; [apply takeChar_length in E3|]];
        destruct (spanDigits _) as [ds r0] eqn:Es; apply spanDigits_length in Es;
        destruct ds; intros H; inversion H; subst; cbn [List.length] in *; lia.
    + intros H. inversion H. lia.
Qed.

Lemma parseUnsigned_length neg s x r :
  parseUnsigned neg s = Parsed x r -> (List.length r < List.length s)%nat.
Proof.
  unfold parseUnsigned. destruct (spanDigits s) as [ip r1] eqn:Es.
  apply spanDigits_length in Es. destruct ip as [|d ip]; [discriminate|].
  destruct (leadingZero (d :: ip)); [discriminate|]. cbn [List.length] in Es.
  cbv zeta.
  assert (Htail : forall fp r2, (List.length r2 <= List.length r1)%nat ->
            match takeExponentMark r2 with
            | Some _ =>
                let (ex, r3) := exponentPart r2 in
                match takeExponentMark r3 with
                | Some _ => SyntaxError
                | None => Parsed (signed neg (decimalValue (d :: ip) fp ex)) r3
                end
            | None => Parsed (signed neg (decimalValue (d :: ip) fp 0)) r2
            end = Parsed x r -> (List.length r < List.length s)%nat).
  { intros fp r2 Hle. destruct (takeExponentMark r2).
    - destruct (exponentPart r2) as [ex r3] eqn:Ee. apply exponentPart_length in Ee.
      destruct (takeExponentMark r3); [discriminate|]. intros H. inversion H; subst. lia.
    - intros H. inversion H; subst. lia. }
  destruct (takeChar 46 r1) as [r0|] eqn:Et.
  - apply takeChar_length in Et. destruct (spanDigits r0) as [fp0 r3] eqn:Ef.
    apply spanDigits_length in Ef. destruct fp0 as [|f fp0]; [discriminate|].
    apply Htail. lia.
  - apply Htail. lia.
Qed.

Lemma parseNumber_length s x r :
  parseNumber s = Parsed x r -> (List.length r < List.length s)%nat.
Proof.
  unfold parseNumber. destruct (takeChar 45 s) as [r0|] eqn:Et.
  - apply takeChar_length in Et. intros H. apply parseUnsigned_length in H. lia.
  - apply parseUnsigned_length.
Qed.

Lemma startsWith_length p : forall s, startsWith p s = true ->
  (List.length p <= List.length s)%nat.
Proof.
  induction p as [|a p IH]; intros [|b s] H; simpl in *; try lia; try discriminate.
  apply andb_true_iff in H. destruct H as [_ H]. apply IH in H. lia.
Qed.

Lemma Parsed_rest {A : Type} (a a' : A) (r r' : jsstring) :
  Parsed a r = Parsed a' r' -> r' = r.
Proof. congruence. Qed.

Lemma parseLiteral_length s v r :
  parseLiteral s = Parsed v r -> (List.length r < List.length s)%nat.
Proof.
  unfold parseLiteral.
  destruct (startsWith (lit "null") s) eqn:E1;
    [|destruct (startsWith (lit "true") s) eqn:E2;
      [|destruct (startsWith (lit "false") s) eqn:E3; [|discriminate]]];
    intros H; apply Parsed_rest in H; rewrite H, length_skipn;
    match goal with E : startsWith _ _ = true |- _ => apply startsWith_length in E end;
    simpl List.length in *; lia.
Qed.

(** ** Every reader consumes input *)

Lemma bind_Parsed {A B : Type} (p : parsed A) (f : A -> jsstring -> parsed B) b r :
  bind p f = Parsed b r -> exists a r0, p = Parsed a r0 /\ f a r0 = Parsed b r.
Proof. destruct p as [a r0| |]; simpl; intros H; try discriminate. eauto. Qed.

Lemma startsWithChar_tl c s :
  startsWithChar c s = true -> List.length s = S (List.length (tl s)).
Proof. destruct s; simpl; [discriminate|reflexivity]. Qed.

Lemma valueStep_consumes pe pm :
  Consumes pe -> Consumes pm -> Consumes (valueStep pe pm).
Proof.
  intros He Hm s v r. unfold valueStep.
  pose proof (skipWs_length s) as Hs.
  destruct (skipWs s) as [|c r0]; [discriminate|]. cbn [List.length] in Hs.
  destruct (char_eqb c 34).
  { intros H. apply bind_Parsed in H. destruct H as (str & r1 & H1 & H2).
    apply Parsed_rest in H2. subst r.
    apply (parseStringChars_length _ _ _ _ (le_n _)) in H1. lia. }
  destruct (char_eqb c 91).
  { pose proof (skipWs_length r0) as Hr0.
    destruct (startsWithChar 93 (skipWs r0)) eqn:E.
    - apply startsWithChar_tl in E. intros H. apply Parsed_rest in H. subst r. lia.
    - intros H. apply bind_Parsed in H. destruct H as (vs & r1 & H1 & H2).
      apply Parsed_rest in H2. subst r. apply He in H1. lia. }
  destruct (char_eqb c 123).
  { pose proof (skipWs_length r0) as Hr0.
    destruct (startsWithChar 125 (skipWs r0)) eqn:E.
    - apply startsWithChar_tl in E. intros H. apply Parsed_rest in H. subst r. lia.
    - intros H. apply bind_Parsed in H. destruct H as (vs & r1 & H1 & H2).
      apply Parsed_rest in H2. subst r. apply Hm in H1. lia. }
  destruct (isDigit c || char_eqb c 45).
  { intros H. apply bind_Parsed in H. destruct H as (x & r1 & H1 & H2).
    apply Parsed_rest in H2. subst r. apply parseNumber_length in H1.
    cbn [List.length] in H1. lia. }
  intros H. apply parseLiteral_length in H. cbn [List.length] in H. lia.
Qed.

Lemma elementsStep_consumes pv pe :
  Consumes pv -> Consumes pe -> Consumes (elementsStep pv pe).
Proof.
  intros Hv He s vs r. unfold elementsStep. intros H.
  apply bind_Parsed in H. destruct H as (v & r0 & H1 & H2). apply Hv in H1.
  pose proof (skipWs_length r0) as Hs.
  destruct (skipWs r0) as [|c r1]; [discriminate|]. cbn [List.length] in Hs.
  destruct (char_eqb c 44).
  { apply bind_Parsed in H2. destruct H2 as (vs' & r2 & H3 & H4).
    apply Parsed_rest in H4. subst r. apply He in H3. lia. }
  destruct (char_eqb c 93); [|discriminate].
  apply Parsed_rest in H2. subst r. lia.
Qed.

Lemma membersStep_consumes pv pm :
  Consumes pv -> Consumes pm -> Consumes (membersStep pv pm).
Proof.
  intros Hv Hm s kvs r. unfold membersStep.
  pose proof (skipWs_length s) as Hs.
  destruct (skipWs s) as [|q r0]; [discriminate|]. cbn [List.length] in Hs.
  destruct (char_eqb q 34); [|discriminate].
  intros H. apply bind_Parsed in H. destruct H as (k & r1 & H1 & H2).
  apply (parseStringChars_length _ _ _ _ (le_n _)) in H1.
  pose proof (skipWs_length r1) as Hs1.
  destruct (skipWs r1) as [|colon r2]; [discriminate|]. cbn [List.length] in Hs1.
  destruct (char_eqb colon 58); [|discriminate].
  apply bind_Parsed in H2. destruct H2 as (v & r3 & H3 & H4). apply Hv in H3.
  pose proof (skipWs_length r3) as Hs3.
  destruct (skipWs r3) as [|c r4]; [discriminate|]. cbn [List.length] in Hs3.
  destruct (char_eqb c 44).
  { apply bind_Parsed in H4. destruct H4 as (kvs' & r5 & H5 & H6).
    apply Parsed_rest in H6. subst r. apply Hm in H5. lia. }
  destruct (char_eqb c 125); [|discriminate].
  apply Parsed_rest in H4. subst r. lia.
Qed.

Lemma readers_consume fuel :
  Consumes (parseValue fuel) /\ Consumes (parseElements fuel)
  /\ Consumes (parseMembers fuel).
Proof.
  induction fuel as [|fuel (IHv & IHe & IHm)].
  - repeat split; intros s a r H; discriminate H.
  - repeat split; cbn [parseValue parseElements parseMembers].
    + apply valueStep_consumes; assumption.
    + apply elementsStep_consumes; assumption.
    + apply membersStep_consumes; assumption.
Qed.

(** ** The fuel of [JSON_parse] is enough *)

Lemma bind_fuel {A B : Type} (p : parsed A) (f : A -> jsstring -> parsed B) :
  p <> OutOfFuel -> (forall a r, p = Parsed a r -> f a r <> OutOfFuel) ->
  bind p f <> OutOfFuel.
Proof. destruct p as [a r| |]; simpl; intros Hp Hf; auto. discriminate. Qed.

Lemma consParsed_fuel u p : p <> OutOfFuel -> consParsed u p <> OutOfFuel.
Proof. destruct p; simpl; congruence. Qed.

Lemma parseStringChars_fuel_upto n : forall s,
  (List.length s <= n)%nat -> parseStringChars s <> OutOfFuel.
Proof.
  induction n as [|n IH]; intros [|c r] Hn; cbn [parseStringChars List.length] in *;
    try discriminate; try lia.
  destruct (char_eqb c 34); [discriminate|].
  destruct (char_eqb c 92).
  - destruct r as [|e r1]; [discriminate|]. cbn [List.length] in Hn.
    destruct (char_eqb e 117).
    + destruct r1 as [|h1 [|h2 [|h3 [|h4 r2]]]]; try discriminate.
      destruct (hex4 h1 h2 h3 h4); [|discriminate].
      apply consParsed_fuel, IH. cbn [List.length] in Hn. lia.
    + destruct (escapedChar e); [|discriminate]. apply consParsed_fuel, IH. lia.
  - destruct (c <? 32)%N; [discriminate|]. apply consParsed_fuel, IH. lia.
Qed.

Lemma parseStringChars_fuel s : parseStringChars s <> OutOfFuel.
Proof. apply (parseStringChars_fuel_upto (List.length s)). lia. Qed.

Lemma parseUnsigned_fuel neg s : parseUnsigned neg s <> OutOfFuel.
Proof.
  unfold parseUnsigned.
  repeat match goal with
         | |- context [match ?x with _ => _ end] => destruct x
         end; discriminate.
Qed.

Lemma parseNumber_fuel s : parseNumber s <> OutOfFuel.
Proof. unfold parseNumber. destruct (takeChar 45 s); apply parseUnsigned_fuel. Qed.

Lemma parseLiteral_fuel s : parseLiteral s <> OutOfFuel.
Proof.
  unfold parseLiteral.
  repeat match goal with
         | |- context [if ?x then _ else _] => destruct x
         end; discriminate.
Qed.

Lemma valueStep_fuel pe pm s :
  (forall r, (List.length r < List.length s)%nat -> pe r <> OutOfFuel) ->
  (forall r, (List.length r < List.length s)%nat -> pm r <> OutOfFuel) ->
  valueStep pe pm s <> OutOfFuel.
Proof.
  intros He Hm. unfold valueStep.
  pose proof (skipWs_length s) as Hs.
  destruct (skipWs s) as [|c r0]; [discriminate|]. cbn [List.length] in Hs.
  destruct (char_eqb c 34).
  { apply bind_fuel; [apply parseStringChars_fuel|discriminate]. }
  destruct (char_eqb c 91).
  { destruct (startsWithChar 93 (skipWs r0)); [discriminate|].
    apply bind_fuel; [apply He; lia|discriminate]. }
  destruct (char_eqb c 123).
  { destruct (startsWithChar 125 (skipWs r0)); [discriminate|].
    apply bind_fuel; [apply Hm; lia|discriminate]. }
  destruct (isDigit c || char_eqb c 45).
  { apply bind_fuel; [apply parseNumber_fuel|discriminate]. }
  apply parseLiteral_fuel.
Qed.

Lemma elementsStep_fuel pv pe s :
  Consumes pv -> pv s <> OutOfFuel ->
  (forall r, (List.length r < List.length s)%nat -> pe r <> OutOfFuel) ->
  elementsStep pv pe s <> OutOfFuel.
Proof.
  intros Hc Hv He. unfold elementsStep.
  apply bind_fuel; [assumption|]. intros v r Hr. apply Hc in Hr.
  pose proof (skipWs_length r) as Hs.
  destruct (skipWs r) as [|c r1]; [discriminate|]. cbn [List.length] in Hs.
  destruct (char_eqb c 44).
  { apply bind_fuel; [apply He; lia|discriminate]. }
  destruct (char_eqb c 93); discriminate.
Qed.

Lemma membersStep_fuel pv pm s :
  Consumes pv ->
  (forall r, (List.length r < List.length s)%nat -> pv r <> OutOfFuel) ->
  (forall r, (List.length r < List.length s)%nat -> pm r <> OutOfFuel) ->
  membersStep pv pm s <> OutOfFuel.
Proof.
  intros Hc Hv Hm. unfold membersStep.
  pose proof (skipWs_length s) as Hs.
  destruct (skipWs s) as [|q r0]; [discriminate|]. cbn [List.length] in Hs.
  destruct (char_eqb q 34); [|discriminate].
  apply bind_fuel; [apply parseStringChars_fuel|]. intros k r1 H1.
  apply (parseStringChars_length _ _ _ _ (le_n _)) in H1.
  pose proof (skipWs_length r1) as Hs1.
  destruct (skipWs r1) as [|colon r2]; [discriminate|]. cbn [List.length] in Hs1.
  destruct (char_eqb colon 58); [|discriminate].
  apply bind_fuel; [apply Hv; lia|]. intros v r3 H3. apply Hc in H3.
  pose proof (skipWs_length r3) as Hs3.
  destruct (skipWs r3) as [|c r4]; [discriminate|]. cbn [List.length] in Hs3.
  destruct (char_eqb c 44).
  { apply bind_fuel; [apply Hm; lia|discriminate]. }
  destruct (char_eqb c 125); discriminate.
Qed.

(** A text of at most [n] code units is read with [2 * n + 1] calls in
    depth when it is a value or the members of an object, and with one more
    when it is the elements of an array. *)
Lemma enough_fuel n :
  (forall s fuel, (List.length s <= n)%nat -> (2 * n + 1 <= fuel)%nat ->
     parseValue fuel s <> OutOfFuel)
  /\ (forall s fuel, (List.length s <= n)%nat -> (2 * n + 2 <= fuel)%nat ->
     parseElements fuel s <> OutOfFuel)
  /\ (forall s fuel, (List.length s <= n)%nat -> (2 * n + 1 <= fuel)%nat ->
     parseMembers fuel s <> OutOfFuel).
Proof.
  induction n as [|n (IHv & IHe & IHm)].
  - assert (Hv : forall s fuel, (List.length s <= 0)%nat -> (1 <= fuel)%nat ->
                   parseValue fuel s <> OutOfFuel).
    { intros [|c s] [|fuel] Hs Hf; cbn [List.length] in *; try lia. discriminate. }
    repeat split.
    + intros s fuel Hs Hf. apply Hv; lia.
    + intros s [|fuel] Hs Hf; [lia|]. cbn [parseElements].
      apply elementsStep_fuel; [apply readers_consume|apply Hv; lia|]. intros r Hr. lia.
    + intros [|c s] [|fuel] Hs Hf; cbn [List.length] in *; try lia. discriminate.
  - assert (Hv : forall s fuel, (List.length s <= S n)%nat -> (2 * S n + 1 <= fuel)%nat ->
                   parseValue fuel s <> OutOfFuel).
    { intros s [|fuel] Hs Hf; [lia|]. cbn [parseValue].
      apply valueStep_fuel; intros r Hr; [apply IHe|apply IHm]; lia. }
    repeat split.
    + exact Hv.
    + intros s [|fuel] Hs Hf; [lia|]. cbn [parseElements].
      apply elementsStep_fuel; [apply readers_consume|apply Hv; lia|].
      intros r Hr. apply IHe; lia.
    + intros s [|fuel] Hs Hf; [lia|]. cbn [parseMembers].
      apply membersStep_fuel; [apply readers_consume| |]; intros r Hr;
        [apply IHv|apply IHm]; lia.
Qed.

(** [JSON_parse] never stops for want of fuel: when it throws, the text is
    not a JSON text. *)
Lemma JSON_parse_fuel text :
  parseValue (2 * List.length text + 2) text <> OutOfFuel.
Proof. apply (enough_fuel (List.length text)); lia. Qed.

(** ** What [JSON_parse] returns and when it throws *)

Lemma parseValue_settled f f' s :
  parseValue f s <> OutOfFuel -> parseValue f' s <> OutOfFuel ->
  parseValue f s = parseValue f' s.
Proof.
  intros H H'. destruct (Nat.le_ge_cases f f') as [Hle|Hle].
  - destruct (parseValue f s) as [v r| |] eqn:E; [| |congruence].
    + symmetry. apply (parseValue_fuel f f'); assumption.
    + symmetry. apply (syntax_error_fuel f f'); assumption.
  - destruct (parseValue f' s) as [v r| |] eqn:E; [| |congruence].
    + apply (parseValue_fuel f' f); assumption.
    + apply (syntax_error_fuel f' f); assumption.
Qed.

Lemma JSON_parse_text text v : JSONText text v -> JSON_parse text = Return v.
Proof.
  intros (fuel & r & Hp & Hr). unfold JSON_parse.
  rewrite <- (parseValue_settled fuel _ text), Hp, Hr; [reflexivity|congruence|].
  apply JSON_parse_fuel.
Qed.

Lemma JSON_parse_not_text text :
  (forall v, ~ JSONText text v) -> JSON_parse text = Throw (lit "SyntaxError").
Proof.
  intros Hno. unfold JSON_parse.
  destruct (parseValue _ text) as [v r| |] eqn:E; try reflexivity.
  destruct (skipWs r) eqn:Er; [|reflexivity].
  exfalso. apply (Hno v). exists (2 * List.length text + 2)%nat, r. split; assumption.
Qed.

Lemma syntax_error_not_text fuel text :
  parseValue fuel text = SyntaxError -> forall v, ~ JSONText text v.
Proof.
  intros He v (f & r & Hp & _).
  assert (H : parseValue fuel text = parseValue f text)
    by (apply parseValue_settled; congruence).
  congruence.
Qed.

Lemma trailing_text_not_text fuel text v r :
  parseValue fuel text = Parsed v r -> skipWs r <> [] -> forall v', ~ JSONText text v'.
Proof.
  intros He Hr v' (f & r' & Hp & Hr').
  assert (H : parseValue fuel text = parseValue f text)
    by (apply parseValue_settled; congruence).
  congruence.
Qed.

End ReaderFuel.

(** * The aggregator (updateSummary) *)

Module Aggregator.
Import JS App Ref Notions FloatFacts.

(** The map-filter-reduce chain of lines 126-134 is one pass over the
    records. *)
Lemma reduce_filter_sumWhere p : forall store acc,
  fold_left (fun a item => PrimFloat.add a item) (filter p (amounts store)) acc
  = sumWhere p acc store.
Proof.
  induction store as [|t rest IH]; intros acc; simpl.
  - reflexivity.
  - destruct (p (amount t)); simpl; apply IH.
Qed.

Lemma sumWhere_nonneg : forall store acc,
  ge acc 0%float = true -> ge (sumWhere isPositive acc store) 0%float = true.
Proof.
  induction store as [|t rest IH]; intros acc Hacc; simpl.
  - exact Hacc.
  - apply IH. destruct (isPositive (amount t)) eqn:Hp.
    + apply add_nonneg; assumption.
    + exact Hacc.
Qed.

Lemma sumWhere_nonpos : forall store acc,
  le acc 0%float = true -> le (sumWhere isNegative acc store) 0%float = true.
Proof.
  induction store as [|t rest IH]; intros acc Hacc; simpl.
  - exact Hacc.
  - apply IH. destruct (isNegative (amount t)) eqn:Hp.
    + apply add_nonpos; assumption.
    + exact Hacc.
Qed.

(** C1, as the code has it.  For every record list: the total income is the
    sum of the amounts that are [> 0] and is [>= 0]; the total expense is
    the sum of the amounts that are [< 0] and is [<= 0]; the balance is
    their binary64 sum, and the three cards show these three numbers.  (The
    balance is not always the sum of all amounts, as binary64 addition
    rounds.) *)
Theorem summary_totals (st : State) :
  let store := transactions st in
  totalIncome store = sumWhere isPositive 0%float store
  /\ ge (totalIncome store) 0%float = true
  /\ totalExpense store = sumWhere isNegative 0%float store
  /\ le (totalExpense store) 0%float = true
  /\ totalBalance store = PrimFloat.add (totalIncome store) (totalExpense store)
  /\ incomeEl (updateSummary st) = formatCurrency (totalIncome store)
  /\ expenseEl (updateSummary st) = formatCurrency (Math_abs (totalExpense store))
  /\ balanceEl (updateSummary st) = formatCurrency (totalBalance store).
Proof.
  intros store.
  assert (Hi : totalIncome store = sumWhere isPositive 0%float store)
    by apply reduce_filter_sumWhere.
  assert (He : totalExpense store = sumWhere isNegative 0%float store)
    by apply reduce_filter_sumWhere.
  repeat split; try assumption; try reflexivity.
  - rewrite Hi. apply sumWhere_nonneg. reflexivity.
  - rewrite He. apply sumWhere_nonpos. reflexivity.
Qed.

(** C1, as stated, fails.  After the three submissions of [largePage] the
    store holds 1e16, -1e16 and 1.  The income 1e16 + 1 rounds to 1e16, so
    the balance shown is 0, while the amounts sum to 1 (in binary64 from
    left to right, and exactly). *)
Lemma balance_is_not_sum_of_amounts :
  amounts largeStore = [1e16; -1e16; 1]%float
  /\ totalIncome largeStore = 1e16%float
  /\ totalExpense largeStore = (-1e16)%float
  /\ totalBalance largeStore = 0%float
  /\ sumOfAmounts largeStore = 1%float
  /\ strictEq (totalBalance largeStore) (sumOfAmounts largeStore) = false
  /\ totalBalance largeStore <> sumOfAmounts largeStore.
Proof.
  repeat split; try (vm_compute; reflexivity).
  intros H. apply (f_equal Prim2SF) in H. vm_compute in H. discriminate H.
Qed.

End Aggregator.

(** * The store: addTransaction and deleteTransaction *)

Module Store.
Import JS App Ref Notions FloatFacts.

Lemma jsstring_eqb_eq a : forall b, jsstring_eqb a b = true <-> a = b.
Proof.
  induction a as [|x a IH]; intros [|y b]; simpl; split; intros H;
    try reflexivity; try discriminate.
  - apply andb_true_iff in H. destruct H as [H1 H2].
    apply N.eqb_eq in H1. apply IH in H2. congruence.
  - injection H as -> ->. apply andb_true_iff. split.
    + apply N.eqb_refl.
    + apply IH. reflexivity.
Qed.

Lemma jsstring_eqb_nil s : jsstring_eqb s [] = false <-> s <> [].
Proof.
  destruct s; simpl; split; congruence.
Qed.

Lemma getItem_setItem ls key text : getItem (setItem ls key text) key = Some text.
Proof.
  assert (Hrefl : forall k, jsstring_eqb k k = true) by (intros k; apply jsstring_eqb_eq; reflexivity).
  induction ls as [|[k v] ls IH]; simpl.
  - rewrite Hrefl. reflexivity.
  - destruct (jsstring_eqb k key) eqn:E; simpl; rewrite E.
    + reflexivity.
    + exact IH.
Qed.

(** Rendering touches neither the store, nor the storage, nor the
    effects. *)
Lemma render_all_frame store : forall st,
  let st' := fold_left (fun s t => addTransactionToDOM t s) store st in
  transactions st' = transactions st /\ localStorage st' = localStorage st
  /\ effects st' = effects st.
Proof.
  induction store as [|t rest IH]; intros st; simpl.
  - auto.
  - destruct (IH (addTransactionToDOM t st)) as (H1 & H2 & H3).
    rewrite H1, H2, H3. auto.
Qed.

Lemma init_frame st :
  transactions (init st) = transactions st /\ localStorage (init st) = localStorage st
  /\ effects (init st) = effects st.
Proof.
  unfold init. simpl. apply (render_all_frame (transactions st) (clearList st)).
Qed.

Lemma blank_true st :
  blank st = true <-> trim (titleInput st) = [] \/ trim (amountInput st) = [].
Proof.
  unfold blank. rewrite orb_true_iff, !jsstring_eqb_eq. reflexivity.
Qed.

Lemma blank_false st :
  blank st = false <-> trim (titleInput st) <> [] /\ trim (amountInput st) <> [].
Proof.
  unfold blank. rewrite orb_false_iff, !jsstring_eqb_nil. reflexivity.
Qed.

Lemma addTransaction_rejected random today st :
  blank st = true ->
  addTransaction random today st = alert (lit "Please add a title and amount.") st.
Proof.
  unfold addTransaction, blank. intros ->. reflexivity.
Qed.

Lemma addTransaction_accepted random today st :
  blank st = false ->
  addTransaction random today st
  = clearForm (init (updateLocalStorage (push (newTransaction random today st) st))).
Proof.
  unfold addTransaction, blank. intros ->. reflexivity.
Qed.

Lemma addTransaction_accepted_store random today st :
  blank st = false ->
  transactions (addTransaction random today st)
  = transactions st ++ [newTransaction random today st].
Proof.
  intros H. rewrite addTransaction_accepted by exact H.
  destruct (init_frame (updateLocalStorage (push (newTransaction random today st) st)))
    as (H1 & _).
  transitivity (transactions (init (updateLocalStorage
                  (push (newTransaction random today st) st)))); [reflexivity|].
  rewrite H1. reflexivity.
Qed.

Lemma deleteTransaction_store id0 st :
  transactions (deleteTransaction id0 st)
  = filter (fun t => strictNe (id t) id0) (transactions st).
Proof.
  unfold deleteTransaction.
  destruct (init_frame (updateLocalStorage
    (setTransactions (filter (fun t => strictNe (id t) id0) (transactions st)) st)))
    as (H1 & _).
  etransitivity; [exact H1|]. reflexivity.
Qed.

(** What rendering and [init] leave, field by field. *)
Lemma render_all store : forall st,
  fold_left (fun s t => addTransactionToDOM t s) store st
  = {| transactions := transactions st;
       localStorage := localStorage st;
       titleInput := titleInput st;
       amountInput := amountInput st;
       typeInput := typeInput st;
       transactionListEl := transactionListEl st ++ List.map transactionElement store;
       balanceEl := balanceEl st;
       incomeEl := incomeEl st;
       expenseEl := expenseEl st;
       effects := effects st |}.
Proof.
  induction store as [|t rest IH]; intros st; cbn [fold_left List.map].
  - rewrite app_nil_r. destruct st; reflexivity.
  - rewrite IH. unfold addTransactionToDOM.
    cbn [transactions localStorage titleInput amountInput typeInput transactionListEl
         balanceEl incomeEl expenseEl effects].
    rewrite <- app_assoc. reflexivity.
Qed.

Lemma init_eq st :
  init st
  = {| transactions := transactions st;
       localStorage := localStorage st;
       titleInput := titleInput st;
       amountInput := amountInput st;
       typeInput := typeInput st;
       transactionListEl := List.map transactionElement (transactions st);
       balanceEl := formatCurrency (totalBalance (transactions st));
       incomeEl := formatCurrency (totalIncome (transactions st));
       expenseEl := formatCurrency (Math_abs (totalExpense (transactions st)));
       effects := effects st |}.
Proof.
  unfold init. rewrite render_all. reflexivity.
Qed.

(** The state a deletion leaves, field by field. *)
Lemma deleteTransaction_eq id0 st :
  let kept := filter (fun t => strictNe (id t) id0) (transactions st) in
  let text := JSON_stringify (storeValue kept) in
  deleteTransaction id0 st
  = {| transactions := kept;
       localStorage := setItem (localStorage st) (lit "transactions") text;
       titleInput := titleInput st;
       amountInput := amountInput st;
       typeInput := typeInput st;
       transactionListEl := List.map transactionElement kept;
       balanceEl := formatCurrency (totalBalance kept);
       incomeEl := formatCurrency (totalIncome kept);
       expenseEl := formatCurrency (Math_abs (totalExpense kept));
       effects := effects st ++ [SetItem (lit "transactions") text] |}.
Proof.
  cbv zeta. unfold deleteTransaction. cbv zeta. rewrite init_eq. reflexivity.
Qed.

(** The state an accepted submission leaves, field by field. *)
Lemma addTransaction_eq random today st :
  blank st = false ->
  let store := transactions st ++ [newTransaction random today st] in
  let text := JSON_stringify (storeValue store) in
  addTransaction random today st
  = {| transactions := store;
       localStorage := setItem (localStorage st) (lit "transactions") text;
       titleInput := [];
       amountInput := [];
       typeInput := typeInput st;
       transactionListEl := List.map transactionElement store;
       balanceEl := formatCurrency (totalBalance store);
       incomeEl := formatCurrency (totalIncome store);
       expenseEl := formatCurrency (Math_abs (totalExpense store));
       effects := effects st ++ [SetItem (lit "transactions") text] |}.
Proof.
  intros Hb. cbv zeta. rewrite addTransaction_accepted by exact Hb.
  rewrite init_eq. reflexivity.
Qed.

(** Sign facts for the two normalizations of lines 59-65. *)
Lemma opp_of_positive x : gt x 0%float = true -> le (PrimFloat.opp x) 0%float = true.
Proof.
  rewrite gt_zero, le_zero, opp_spec.
  destruct (Prim2SF x) as [[]|[]| |[] m e]; simpl; congruence.
Qed.

Lemma abs_nonneg x : isNaN x = false -> ge (Math_abs x) 0%float = true.
Proof.
  unfold Math_abs. rewrite isNaN_spec, ge_zero, abs_spec.
  destruct (Prim2SF x) as [[]|[]| |[] m e]; simpl; congruence.
Qed.

Lemma not_positive_nonpos x :
  isNaN x = false -> gt x 0%float = false -> le x 0%float = true.
Proof.
  rewrite isNaN_spec, gt_zero, le_zero.
  destruct (Prim2SF x) as [[]|[]| |[] m e]; simpl; congruence.
Qed.

Lemma not_negative_nonneg x :
  isNaN x = false -> lt x 0%float = false -> ge x 0%float = true.
Proof.
  rewrite isNaN_spec, lt_zero, ge_zero.
  destruct (Prim2SF x) as [[]|[]| |[] m e]; simpl; congruence.
Qed.

Lemma normalizedAmount_income text :
  isNaN (parseFloat text) = false ->
  ge (normalizedAmount (lit "income") text) 0%float = true.
Proof.
  intros Hn. unfold normalizedAmount.
  change (jsstring_eqb (lit "income") (lit "expense")) with false.
  change (jsstring_eqb (lit "income") (lit "income")) with true.
  simpl. destruct (lt (parseFloat text) 0%float) eqn:Hlt.
  - apply abs_nonneg. exact Hn.
  - apply not_negative_nonneg; assumption.
Qed.

Lemma normalizedAmount_expense text :
  isNaN (parseFloat text) = false ->
  le (normalizedAmount (lit "expense") text) 0%float = true.
Proof.
  intros Hn. unfold normalizedAmount.
  change (jsstring_eqb (lit "expense") (lit "expense")) with true.
  change (jsstring_eqb (lit "expense") (lit "income")) with false.
  simpl. destruct (gt (parseFloat text) 0%float) eqn:Hgt.
  - apply opp_of_positive. exact Hgt.
  - apply not_positive_nonpos; assumption.
Qed.

(** C2, as the code has it.  A submission whose trimmed title and amount are
    not empty adds exactly one record, at the end; the record carries the
    selected type, and when the amount field reads as a number (not NaN)
    its amount is [>= 0] for type income and [<= 0] for type expense,
    whatever sign was entered. *)
Theorem add_grows_and_normalizes_sign random today st :
  trim (titleInput st) <> [] -> trim (amountInput st) <> [] ->
  let st' := addTransaction random today st in
  exists t,
    transactions st' = transactions st ++ [t]
    /\ List.length (transactions st') = S (List.length (transactions st))
    /\ type t = typeInput st
    /\ (isNaN (parseFloat (amountInput st)) = false ->
        (typeInput st = lit "income" -> ge (amount t) 0%float = true)
        /\ (typeInput st = lit "expense" -> le (amount t) 0%float = true)).
Proof.
  intros Ht Ha st'. exists (newTransaction random today st).
  assert (Hb : blank st = false) by (apply blank_false; split; assumption).
  unfold st'. rewrite (addTransaction_accepted_store random today st Hb).
  split; [reflexivity|]. split; [rewrite length_app; simpl; lia|].
  split; [reflexivity|]. intros Hn. split; intros Hty; simpl; rewrite Hty.
  - apply normalizedAmount_income. exact Hn.
  - apply normalizedAmount_expense. exact Hn.
Qed.

Lemma add_grows_and_normalizes_sign_witness :
  exists t,
    transactions (addTransaction 0.5%float (lit "11/2/2026") (form "Rent" "400" "expense" emptyPage))
      = [] ++ [t]
    /\ type t = lit "expense" /\ amount t = (-400)%float /\ le (amount t) 0%float = true.
Proof.
  destruct (add_grows_and_normalizes_sign 0.5%float (lit "11/2/2026")
              (form "Rent" "400" "expense" emptyPage)) as (t & H1 & H2 & H3 & H4).
  - vm_compute. discriminate.
  - vm_compute. discriminate.
  - exists t. split; [exact H1|]. split; [exact H3|].
    vm_compute in H1. injection H1 as <-. split; reflexivity.
Defined.

(** C2, as stated, fails: the amount field [abc] passes the validation,
    reads as NaN, and is stored as NaN under type income; NaN is not
    [>= 0]. *)
Lemma nan_amount_has_no_sign :
  let st := form "Pay" "abc" "income" emptyPage in
  let st' := addTransaction 0.5%float (lit "11/2/2026") st in
  trim (titleInput st) <> [] /\ trim (amountInput st) <> []
  /\ List.map type (transactions st') = [lit "income"]
  /\ List.map (fun t => isNaN (amount t)) (transactions st') = [true]
  /\ List.map (fun t => ge (amount t) 0%float) (transactions st') = [false].
Proof.
  repeat split; try (vm_compute; reflexivity); vm_compute; discriminate.
Qed.

(** C4.  A submission whose trimmed title or trimmed amount is empty is
    answered with the alert and nothing else: the store, the storage and the
    page stay as they were and no item is written.  Any other submission is
    accepted, whatever the amount text reads as and whatever id is drawn:
    one record is added and written to storage, and no alert is shown. *)
Theorem only_empty_fields_are_rejected :
  (forall random today st,
      trim (titleInput st) = [] \/ trim (amountInput st) = [] ->
      let st' := addTransaction random today st in
      transactions st' = transactions st
      /\ localStorage st' = localStorage st
      /\ effects st' = effects st ++ [Alert (lit "Please add a title and amount.")]
      /\ (titleInput st', amountInput st', typeInput st')
         = (titleInput st, amountInput st, typeInput st)
      /\ (transactionListEl st', balanceEl st', incomeEl st', expenseEl st')
         = (transactionListEl st, balanceEl st, incomeEl st, expenseEl st))
  /\ (forall random today st,
      trim (titleInput st) <> [] -> trim (amountInput st) <> [] ->
      let st' := addTransaction random today st in
      let text := JSON_stringify (storeValue (transactions st')) in
      transactions st' = transactions st ++ [newTransaction random today st]
      /\ getItem (localStorage st') (lit "transactions") = Some text
      /\ effects st' = effects st ++ [SetItem (lit "transactions") text]).
Proof.
  split.
  - intros random today st Hb st'. apply blank_true in Hb.
    unfold st'. rewrite (addTransaction_rejected random today st Hb).
    repeat split.
  - intros random today st Ht Ha st' text.
    assert (Hb : blank st = false) by (apply blank_false; split; assumption).
    assert (Hs : transactions st' = transactions st ++ [newTransaction random today st])
      by apply (addTransaction_accepted_store random today st Hb).
    unfold text. rewrite Hs. unfold st'.
    rewrite (addTransaction_accepted random today st Hb).
    destruct (init_frame (updateLocalStorage (push (newTransaction random today st) st)))
      as (_ & H2 & H3).
    split; [reflexivity|]. split.
    + transitivity (getItem (localStorage (init (updateLocalStorage
                      (push (newTransaction random today st) st)))) (lit "transactions"));
        [reflexivity|].
      rewrite H2. simpl. apply getItem_setItem.
    + transitivity (effects (init (updateLocalStorage
                      (push (newTransaction random today st) st)))); [reflexivity|].
      rewrite H3. reflexivity.
Qed.

(** Instances of C4: a title of spaces is rejected; a non-numeric amount,
    a negative zero and an id already in the store are accepted. *)
Lemma only_empty_fields_are_rejected_witness :
  transactions (addTransaction 0.5%float (lit "11/2/2026") (form "   " "5" "income" emptyPage)) = []
  /\ List.length (transactions (addTransaction 0.5%float (lit "11/2/2026")
                     (form "Pay" "abc" "income" emptyPage))) = 1%nat
  /\ List.length (transactions (addTransaction 0.5%float (lit "11/2/2026")
                     (form "Pay" "-0" "income" emptyPage))) = 1%nat
  /\ List.map id (transactions (addTransaction 0.5%float (lit "11/2/2026")
                     (form "Rent" "400" "expense"
                        (addTransaction 0.5%float (lit "11/2/2026")
                           (form "Pay" "1000" "income" emptyPage)))))
     = [500000000; 500000000]%float.
Proof.
  destruct only_empty_fields_are_rejected as [Hrej Hacc].
  split; [|split; [|split]].
  - apply (Hrej 0.5%float (lit "11/2/2026") (form "   " "5" "income" emptyPage)).
    left. reflexivity.
  - destruct (Hacc 0.5%float (lit "11/2/2026") (form "Pay" "abc" "income" emptyPage))
      as (H & _); [vm_compute; discriminate ..|].
    rewrite H. reflexivity.
  - destruct (Hacc 0.5%float (lit "11/2/2026") (form "Pay" "-0" "income" emptyPage))
      as (H & _); [vm_compute; discriminate ..|].
    rewrite H. reflexivity.
  - destruct (Hacc 0.5%float (lit "11/2/2026")
               (form "Rent" "400" "expense"
                  (addTransaction 0.5%float (lit "11/2/2026")
                     (form "Pay" "1000" "income" emptyPage))))
      as (H & _); [vm_compute; discriminate ..|].
    rewrite H. vm_compute. reflexivity.
Defined.

(** C3.  After [deleteTransaction(id)] no record of the store has an id
    [===] the given one (so, unless the given id is NaN, none has that id),
    and when no record had it the store is what it was. *)
Theorem delete_removes_every_match id0 st :
  let st' := deleteTransaction id0 st in
  (forall t, In t (transactions st') -> strictEq (id t) id0 = false)
  /\ (isNaN id0 = false -> forall t, In t (transactions st') -> id t <> id0)
  /\ ((forall t, In t (transactions st) -> strictEq (id t) id0 = false) ->
      transactions st' = transactions st).
Proof.
  intros st'. unfold st'. rewrite deleteTransaction_store.
  assert (H1 : forall t,
             In t (filter (fun t => strictNe (id t) id0) (transactions st)) ->
             strictEq (id t) id0 = false).
  { intros t Hin. apply filter_In in Hin. destruct Hin as [_ Hne].
    unfold strictNe in Hne. apply negb_true_iff in Hne. exact Hne. }
  split; [exact H1|]. split.
  - intros Hn t Hin Heq. apply H1 in Hin. rewrite Heq in Hin.
    unfold isNaN in Hn. apply negb_false_iff in Hn.
    unfold strictEq in Hin. congruence.
  - clear H1. intros Hnone. induction (transactions st) as [|t rest IH]; simpl.
    + reflexivity.
    + assert (Hd : strictNe (id t) id0 = true)
        by (unfold strictNe; fold (strictEq (id t) id0);
            rewrite (Hnone t (or_introl eq_refl)); reflexivity).
      rewrite Hd. f_equal. apply IH. intros t' Hin. apply Hnone. right. exact Hin.
Qed.

Lemma delete_removes_every_match_witness :
  let st := addTransaction 0.25%float (lit "11/2/2026") (form "Pay" "1000" "income" emptyPage) in
  List.map id (transactions st) = [250000000%float]
  /\ transactions (deleteTransaction 250000000%float st) = []
  /\ transactions (deleteTransaction 7%float st) = transactions st.
Proof.
  intros st. split; [reflexivity|]. split.
  - destruct (transactions (deleteTransaction 250000000%float st)) as [|t rest] eqn:E.
    + reflexivity.
    + vm_compute in E. discriminate E.
  - destruct (delete_removes_every_match 7%float st) as (_ & _ & H).
    apply H. intros t [<-|[]]. reflexivity.
Defined.

(** C9.  [addTransaction] leaves the records that were there as they were
    and puts the new one after them.  After [deleteTransaction(id)] the
    store is a subsequence of what it was; the records whose id is [!==]
    the given one are all still there, and they are the same sequence as
    before. *)
Theorem add_and_delete_keep_the_other_records :
  (forall random today st,
      trim (titleInput st) <> [] -> trim (amountInput st) <> [] ->
      exists t, transactions (addTransaction random today st) = transactions st ++ [t])
  /\ (forall id0 st,
      let differs := fun t => strictNe (id t) id0 in
      let st' := deleteTransaction id0 st in
      Subsequence (transactions st') (transactions st)
      /\ (forall t, In t (transactions st) -> differs t = true -> In t (transactions st'))
      /\ filter differs (transactions st') = filter differs (transactions st)).
Proof.
  split.
  - intros random today st Ht Ha. exists (newTransaction random today st).
    apply addTransaction_accepted_store. apply blank_false. split; assumption.
  - intros id0 st differs st'. unfold st'. rewrite deleteTransaction_store.
    fold differs. split; [|split].
    + induction (transactions st) as [|t rest IH]; simpl.
      * constructor.
      * destruct (differs t); constructor; exact IH.
    + intros t Hin Hd. apply filter_In. split; assumption.
    + induction (transactions st) as [|t rest IH]; simpl.
      * reflexivity.
      * destruct (differs t) eqn:E; simpl; rewrite ?E, IH; reflexivity.
Qed.

Lemma add_and_delete_keep_the_other_records_witness :
  let st1 := addTransaction 0.25%float (lit "11/2/2026") (form "Pay" "1000" "income" emptyPage) in
  let st2 := addTransaction 0.5%float (lit "11/2/2026") (form "Rent" "400" "expense" st1) in
  (exists t, transactions st2 = transactions st1 ++ [t])
  /\ filter (fun t => strictNe (id t) 500000000%float) (transactions (deleteTransaction 500000000%float st2))
     = transactions st1.
Proof.
  intros st1 st2. destruct add_and_delete_keep_the_other_records as [Hadd Hdel]. split.
  - apply (Hadd 0.5%float (lit "11/2/2026") (form "Rent" "400" "expense" st1));
      vm_compute; discriminate.
  - destruct (Hdel 500000000%float st2) as (_ & _ & H). rewrite H.
    vm_compute. reflexivity.
Defined.

(** C8 at two submissions that draw the same random number: both records
    get the id 500000000, so the ids of the store are not unique. *)
Lemma equal_draws_give_equal_ids :
  let st1 := addTransaction 0.5%float (lit "11/2/2026") (form "Pay" "1000" "income" emptyPage) in
  let st2 := addTransaction 0.5%float (lit "11/2/2026") (form "Rent" "400" "expense" st1) in
  List.map id (transactions st2) = [500000000; 500000000]%float
  /\ List.map title (transactions st2) = [lit "Pay"; lit "Rent"]
  /\ ~ NoDup (List.map id (transactions st2)).
Proof.
  intros st1 st2.
  assert (H : List.map id (transactions st2) = [500000000; 500000000]%float)
    by (vm_compute; reflexivity).
  split; [exact H|]. split; [vm_compute; reflexivity|].
  rewrite H. intros Hnd. inversion Hnd as [|x l Hnotin _]. apply Hnotin. left. reflexivity.
Qed.

End Store.

(** * The presenter (addTransactionToDOM) and zero amounts *)

Module Presenter.
Import JS App Ref Notions FloatFacts Store.

(** C7.  Two records with the same id, title, amount and date are shown by
    the same element (class and markup), whatever their type tags; the
    class and the sign are decided by [amount > 0] alone and the magnitude
    shown is that of the amount. *)
Theorem rendering_ignores_the_type_tag t1 t2 :
  id t1 = id t2 -> title t1 = title t2 -> amount t1 = amount t2 -> date t1 = date t2 ->
  transactionElement t1 = transactionElement t2
  /\ className (transactionElement t1)
     = (if gt (amount t1) 0%float then lit "income" else lit "expense")
  /\ amountText t1
     = (if gt (amount t1) 0%float then lit "+" else lit "-")
         ++ formatCurrency (Math_abs (amount t1)).
Proof.
  intros Hi Ht Ha Hd. split; [|split; reflexivity].
  unfold transactionElement, amountText, direction, sign.
  rewrite Hi, Ht, Ha, Hd. reflexivity.
Qed.

(** An expense of 5 tagged income is shown as the same expense. *)
Lemma rendering_ignores_the_type_tag_witness :
  type (entry 7 "Book" (-5) "income") <> type (entry 7 "Book" (-5) "expense")
  /\ transactionElement (entry 7 "Book" (-5) "income")
     = transactionElement (entry 7 "Book" (-5) "expense")
  /\ className (transactionElement (entry 7 "Book" (-5) "income")) = lit "expense"
  /\ amountText (entry 7 "Book" (-5) "income") = lit "-$5.00".
Proof.
  destruct (rendering_ignores_the_type_tag
              (entry 7 "Book" (-5) "income") (entry 7 "Book" (-5) "expense")
              eq_refl eq_refl eq_refl eq_refl) as (H1 & H2 & H3).
  split; [vm_compute; discriminate|]. split; [exact H1|].
  split; [rewrite H2|rewrite H3]; vm_compute; reflexivity.
Defined.

Lemma strictEq_zero x :
  strictEq x 0%float = match Prim2SF x with S754_zero _ => true | _ => false end.
Proof.
  unfold strictEq. rewrite eqb_spec, Prim2SF_zero.
  destruct (Prim2SF x) as [[]|[]| |[] m e]; reflexivity.
Qed.

Lemma zero_is_not_positive x : strictEq x 0%float = true -> gt x 0%float = false.
Proof.
  rewrite strictEq_zero, gt_zero.
  destruct (Prim2SF x) as [[]|[]| |[] m e]; simpl; congruence.
Qed.

Lemma zero_is_not_negative x : strictEq x 0%float = true -> lt x 0%float = false.
Proof.
  rewrite strictEq_zero, lt_zero.
  destruct (Prim2SF x) as [[]|[]| |[] m e]; simpl; congruence.
Qed.

Lemma abs_of_zero x : strictEq x 0%float = true -> Math_abs x = 0%float.
Proof.
  rewrite strictEq_zero. intros H. apply Prim2SF_inj.
  unfold Math_abs. rewrite abs_spec, Prim2SF_zero.
  destruct (Prim2SF x) as [[]|[]| |[] m e]; simpl; congruence.
Qed.

Lemma normalizedAmount_zero kind text :
  strictEq (parseFloat text) 0%float = true ->
  normalizedAmount kind text = parseFloat text.
Proof.
  intros H. unfold normalizedAmount.
  rewrite (zero_is_not_positive _ H), andb_false_r.
  rewrite (zero_is_not_negative _ H), andb_false_r. reflexivity.
Qed.

(** A field that trims to nothing does not read as a number. *)
Lemma trimStart_all_white s : trimStart s = [] -> forallb isWhiteSpace s = true.
Proof.
  induction s as [|c s IH]; simpl; [reflexivity|].
  destruct (isWhiteSpace c); [exact IH | discriminate].
Qed.

Lemma trimStart_head s : forall c r, trimStart s = c :: r -> isWhiteSpace c = false.
Proof.
  induction s as [|a s IH]; simpl; intros c r H; [discriminate|].
  destruct (isWhiteSpace a) eqn:E.
  - apply (IH c r H).
  - injection H as <- _. exact E.
Qed.

Lemma trim_nil s : trim s = [] -> trimStart s = [].
Proof.
  unfold trim, trimEnd. intros H.
  destruct (trimStart s) as [|c r] eqn:E; [reflexivity|exfalso].
  assert (Hw : forallb isWhiteSpace (rev (c :: r)) = true).
  { apply trimStart_all_white.
    destruct (trimStart (rev (c :: r))) as [|x l]; [reflexivity|].
    apply (f_equal (@List.length _)) in H. rewrite length_rev in H. discriminate H. }
  simpl in Hw. rewrite forallb_app in Hw. apply andb_true_iff in Hw.
  destruct Hw as [_ Hc]. simpl in Hc. rewrite (trimStart_head s c r E) in Hc.
  discriminate Hc.
Qed.

Lemma parseFloat_blank s : trim s = [] -> parseFloat s = NaN.
Proof.
  intros H. unfold parseFloat. rewrite (trim_nil s H). reflexivity.
Qed.

Lemma zero_text_is_not_blank s : strictEq (parseFloat s) 0%float = true -> trim s <> [].
Proof.
  intros H Hb. rewrite (parseFloat_blank s Hb) in H. discriminate H.
Qed.

(** C10.  An amount field that reads as zero passes the validation and is
    stored as read, for any selected type, and the list then shows the
    older records and the new one.  A record whose amount is zero is shown
    with the class [expense] and the text [-$0.00]: that is the [li]
    element [addTransactionToDOM] appends to the list, with the markup of
    lines 109-116 around the title, the date, [-$0.00] and the id.  The
    record changes none of the three totals. *)
Theorem zero_amount_is_an_uncounted_expense :
  (forall random today st,
      trim (titleInput st) <> [] ->
      strictEq (parseFloat (amountInput st)) 0%float = true ->
      exists t, transactions (addTransaction random today st) = transactions st ++ [t]
                /\ amount t = parseFloat (amountInput st)
                /\ transactionListEl (addTransaction random today st)
                   = List.map transactionElement (transactions st) ++ [transactionElement t])
  /\ (forall t, strictEq (amount t) 0%float = true ->
      className (transactionElement t) = lit "expense"
      /\ sign t = lit "-"
      /\ amountText t = lit "-$0.00"
      /\ innerHTML (transactionElement t)
         = rowMarkup (title t) (date t) (lit "-$0.00") (Number_toString (id t))
      /\ forall st,
           transactionListEl (addTransactionToDOM t st)
           = transactionListEl st
             ++ [{| className := lit "expense";
                    innerHTML := rowMarkup (title t) (date t) (lit "-$0.00")
                                           (Number_toString (id t)) |}])
  /\ (forall t before after, strictEq (amount t) 0%float = true ->
      totalIncome (before ++ t :: after) = totalIncome (before ++ after)
      /\ totalExpense (before ++ t :: after) = totalExpense (before ++ after)
      /\ totalBalance (before ++ t :: after) = totalBalance (before ++ after)).
Proof.
  split; [|split].
  - intros random today st Ht Hz.
    assert (Hb : blank st = false).
    { apply blank_false. split; [exact Ht|]. apply zero_text_is_not_blank. exact Hz. }
    exists (newTransaction random today st). split; [|split].
    + apply addTransaction_accepted_store. exact Hb.
    + simpl. apply normalizedAmount_zero. exact Hz.
    + rewrite (addTransaction_eq random today st Hb). cbv zeta.
      cbn [transactionListEl]. rewrite map_app. reflexivity.
  - intros t Hz.
    assert (Hclass : className (transactionElement t) = lit "expense").
    { simpl. unfold direction. rewrite (zero_is_not_positive _ Hz). reflexivity. }
    assert (Hsign : sign t = lit "-").
    { unfold sign. rewrite (zero_is_not_positive _ Hz). reflexivity. }
    assert (Htext : amountText t = lit "-$0.00").
    { unfold amountText. rewrite Hsign, (abs_of_zero _ Hz). reflexivity. }
    assert (Hmarkup : innerHTML (transactionElement t)
                      = rowMarkup (title t) (date t) (lit "-$0.00") (Number_toString (id t))).
    { unfold transactionElement, rowMarkup. cbn [innerHTML]. rewrite Htext. reflexivity. }
    repeat (split; [assumption|]).
    intros st. unfold addTransactionToDOM. cbn [transactionListEl].
    do 2 f_equal. rewrite <- Hclass, <- Hmarkup. destruct (transactionElement t); reflexivity.
  - intros t before after Hz.
    assert (Hi : totalIncome (before ++ t :: after) = totalIncome (before ++ after)).
    { unfold totalIncome, amounts. rewrite !map_app, !filter_app. simpl.
      rewrite (zero_is_not_positive _ Hz). reflexivity. }
    assert (He : totalExpense (before ++ t :: after) = totalExpense (before ++ after)).
    { unfold totalExpense, amounts. rewrite !map_app, !filter_app. simpl.
      rewrite (zero_is_not_negative _ Hz). reflexivity. }
    unfold totalBalance. rewrite Hi, He. auto.
Qed.

Lemma zero_amount_is_an_uncounted_expense_witness :
  (exists t, transactions (addTransaction 0.5%float (lit "11/2/2026")
                             (form "Gift" "0" "income" emptyPage)) = [] ++ [t]
             /\ amount t = parseFloat (lit "0")
             /\ transactionListEl (addTransaction 0.5%float (lit "11/2/2026")
                                     (form "Gift" "0" "income" emptyPage))
                = [] ++ [transactionElement t])
  /\ amountText (entry 1 "Gift" 0 "income") = lit "-$0.00"
  /\ transactionListEl (addTransactionToDOM (entry 1 "Gift" 0 "income") emptyPage)
     = [] ++ [{| className := lit "expense";
                 innerHTML := rowMarkup (lit "Gift") (lit "11/2/2026") (lit "-$0.00")
                                        (Number_toString 1) |}]
  /\ totalBalance ([entry 2 "Pay" 1000 "income"] ++ entry 1 "Gift" (-0) "income" :: [])
     = totalBalance ([entry 2 "Pay" 1000 "income"] ++ []).
Proof.
  destruct zero_amount_is_an_uncounted_expense as (Hadd & Hshow & Hsum).
  split; [|split; [|split]].
  - apply (Hadd 0.5%float (lit "11/2/2026") (form "Gift" "0" "income" emptyPage)).
    + vm_compute. discriminate.
    + vm_compute. reflexivity.
  - apply (Hshow (entry 1 "Gift" 0 "income")). vm_compute. reflexivity.
  - destruct (Hshow (entry 1 "Gift" 0 "income")) as (_ & _ & _ & _ & Hlist).
    + vm_compute. reflexivity.
    + apply (Hlist emptyPage).
  - apply (Hsum (entry 1 "Gift" (-0) "income")). vm_compute. reflexivity.
Defined.

End Presenter.

(** * The text of a store and its reader *)

Module StoreText.
Import JS App Ref Notions NumberText StringText ParserFuel.

(** A number read by [parseNumber] starts with a digit or a minus. *)
Lemma parseNumber_head s x r :
  parseNumber s = Parsed x r ->
  exists c s', s = c :: s'
    /\ In c [45; 48; 49; 50; 51; 52; 53; 54; 55; 56; 57]%N.
Proof.
  unfold parseNumber. destruct (takeChar 45 s) as [r0|] eqn:Et.
  - apply takeChar_some in Et. intros _. exists 45%N, r0. split; [exact Et|]. left. reflexivity.
  - unfold parseUnsigned. destruct s as [|c s']; [discriminate|].
    cbn [spanDigits]. destruct (isDigit c) eqn:Ed.
    + intros _. exists c, s'. split; [reflexivity|]. right.
      apply isDigit_range in Ed.
      assert (Hc : (c = 48 \/ c = 49 \/ c = 50 \/ c = 51 \/ c = 52 \/ c = 53 \/ c = 54
                    \/ c = 55 \/ c = 56 \/ c = 57)%N) by lia.
      simpl. intuition.
    + discriminate.
Qed.

Section Values.
Variables (readElements : jsstring -> parsed (list value)).
Variables (readMembers : jsstring -> parsed (list (jsstring * value))).

Lemma valueStep_number s x r :
  parseNumber s = Parsed x r ->
  valueStep readElements readMembers s = Parsed (Number x) r.
Proof.
  intros H. destruct (parseNumber_head s x r H) as (c & s' & -> & Hc).
  simpl in Hc.
  repeat (destruct Hc as [<-|Hc];
          [unfold valueStep; cbn [skipWs isJSONWhiteSpace];
           cbv beta iota delta [char_eqb isDigit N.eqb N.leb N.compare Pos.eqb Pos.compare
                                Pos.compare_cont orb andb];
           rewrite H; reflexivity|]).
  contradiction.
Qed.

Lemma valueStep_string str rest :
  valueStep readElements readMembers (QuoteJSONString str ++ rest)
  = Parsed (String str) rest.
Proof.
  destruct (parse_QuoteJSONString str rest) as (tail & -> & Ht).
  unfold valueStep. cbn [skipWs isJSONWhiteSpace].
  change (char_eqb 34 34) with true. cbv iota. rewrite Ht. reflexivity.
Qed.
End Values.

Section Members.
Variables (readValue : jsstring -> parsed value).
Variables (readMembers : jsstring -> parsed (list (jsstring * value))).

Lemma membersStep_more k text v r4 :
  readValue (text ++ 44%N :: r4) = Parsed v (44%N :: r4) ->
  membersStep readValue readMembers (QuoteJSONString k ++ 58%N :: text ++ 44%N :: r4)
  = bind (readMembers r4) (fun kvs r5 => Parsed ((k, v) :: kvs) r5).
Proof.
  intros Hv. destruct (parse_QuoteJSONString k (58%N :: text ++ 44%N :: r4))
    as (tail & -> & Ht).
  unfold membersStep. cbn [skipWs isJSONWhiteSpace].
  change (char_eqb 34 34) with true. cbv iota. rewrite Ht. cbn [bind skipWs isJSONWhiteSpace].
  change (char_eqb 58 58) with true. cbv iota. rewrite Hv. reflexivity.
Qed.

Lemma membersStep_last k text v r4 :
  readValue (text ++ 125%N :: r4) = Parsed v (125%N :: r4) ->
  membersStep readValue readMembers (QuoteJSONString k ++ 58%N :: text ++ 125%N :: r4)
  = Parsed [(k, v)] r4.
Proof.
  intros Hv. destruct (parse_QuoteJSONString k (58%N :: text ++ 125%N :: r4))
    as (tail & -> & Ht).
  unfold membersStep. cbn [skipWs isJSONWhiteSpace].
  change (char_eqb 34 34) with true. cbv iota. rewrite Ht. cbn [bind skipWs isJSONWhiteSpace].
  change (char_eqb 58 58) with true. cbv iota. rewrite Hv. reflexivity.
Qed.
End Members.

Lemma plain_isFinite x : plain x = true -> isFinite x = true.
Proof.
  unfold plain, isFinite. destruct (Prim2SF x) as [[]|[]| |s m e]; congruence.
Qed.

Lemma endsNumber_comma r : endsNumber (44%N :: r).
Proof. repeat split; discriminate. Qed.

Lemma endsNumber_brace r : endsNumber (125%N :: r).
Proof. repeat split; discriminate. Qed.

(** The text of one transaction, member by member. *)
Lemma transaction_text t rest :
  plain (id t) = true -> plain (amount t) = true ->
  JSON_stringify (toValue t) ++ rest
  = 123%N :: QuoteJSONString (lit "id") ++ 58%N :: Number_toString (id t) ++ 44%N ::
    QuoteJSONString (lit "title") ++ 58%N :: QuoteJSONString (title t) ++ 44%N ::
    QuoteJSONString (lit "amount") ++ 58%N :: Number_toString (amount t) ++ 44%N ::
    QuoteJSONString (lit "type") ++ 58%N :: QuoteJSONString (type t) ++ 44%N ::
    QuoteJSONString (lit "date") ++ 58%N :: QuoteJSONString (date t) ++ 125%N :: rest.
Proof.
  intros Hi Ha. unfold toValue.
  cbn [JSON_stringify List.map joinComma fst snd].
  rewrite (plain_isFinite _ Hi), (plain_isFinite _ Ha).
  cbn [app]. repeat (rewrite <- app_assoc; cbn [app]). reflexivity.
Qed.

(** Reading the text of a transaction gives the transaction. *)
Lemma parseValue_transaction f t rest :
  plain (id t) = true -> plain (amount t) = true ->
  parseValue (7 + f) (JSON_stringify (toValue t) ++ rest) = Parsed (toValue t) rest.
Proof.
  intros Hi Ha. rewrite (transaction_text t rest Hi Ha).
  change (7 + f)%nat with (S (S (S (S (S (S (S f))))))).
  cbn [parseValue]. unfold valueStep at 1. cbn [skipWs isJSONWhiteSpace].
  change (char_eqb 123 34) with false. change (char_eqb 123 91) with false.
  change (char_eqb 123 123) with true. cbv iota.
  change (startsWithChar 125 (skipWs (QuoteJSONString (lit "id") ++ ?[x]))) with false.
  cbv iota.
  cbn [parseMembers].
  rewrite (membersStep_more _ _ _ _ (Number (id t)))
    by (apply valueStep_number, Number_toString_parse; [exact Hi|apply endsNumber_comma]).
  cbn [parseMembers].
  rewrite (membersStep_more _ _ _ _ (String (title t))) by apply valueStep_string.
  cbn [parseMembers].
  rewrite (membersStep_more _ _ _ _ (Number (amount t)))
    by (apply valueStep_number, Number_toString_parse; [exact Ha|apply endsNumber_comma]).
  cbn [parseMembers].
  rewrite (membersStep_more _ _ _ _ (String (type t))) by apply valueStep_string.
  cbn [parseMembers].
  rewrite (membersStep_last _ _ _ _ (String (date t))) by apply valueStep_string.
  reflexivity.
Qed.

End StoreText.

(** * Persistence: the initial load and updateLocalStorage *)

Module Persistence.
Import JS App Ref Notions FloatFacts Store NumberText StringText ParserFuel ReaderFuel
  StoreText.

Lemma joinComma_cons p q l : joinComma (p :: q :: l) = p ++ 44%N :: joinComma (q :: l).
Proof. reflexivity. Qed.

(** Reading the texts of the transactions, separated by commas and closed
    by a bracket, gives the transactions. *)
Lemma parseElements_store f : forall t store rest,
  forallb plainRecord (t :: store) = true ->
  parseElements (9 + f + List.length store) (joinComma (storeTexts (t :: store)) ++ 93%N :: rest)
  = Parsed (List.map toValue (t :: store)) rest.
Proof.
  intros t store. revert t. induction store as [|t' store IH]; intros t rest Hp;
    cbn [forallb] in Hp; apply andb_true_iff in Hp; destruct Hp as [Ht Hp];
    apply andb_true_iff in Ht; destruct Ht as [Hi Ha].
  - cbn [storeTexts List.map joinComma List.length].
    replace (9 + f + 0)%nat with (S (7 + (1 + f)))%nat by lia.
    cbn [parseElements]. unfold elementsStep.
    rewrite (parseValue_transaction _ t (93%N :: rest) Hi Ha).
    cbn [bind skipWs isJSONWhiteSpace].
    change (char_eqb 93 44) with false. change (char_eqb 93 93) with true. reflexivity.
  - change (storeTexts (t :: t' :: store))
      with (JSON_stringify (toValue t) :: storeTexts (t' :: store)).
    unfold storeTexts at 1. cbn [List.map]. fold (storeTexts store).
    change (JSON_stringify (toValue t') :: storeTexts store) with (storeTexts (t' :: store)).
    unfold storeTexts at 1. cbn [List.map]. rewrite joinComma_cons.
    change (JSON_stringify (toValue t') :: List.map JSON_stringify (List.map toValue store))
      with (storeTexts (t' :: store)).
    rewrite <- app_assoc. cbn [app List.length].
    replace (9 + f + S (List.length store))%nat
      with (S (7 + (2 + f + List.length store)))%nat by lia.
    cbn [parseElements]. unfold elementsStep.
    rewrite (parseValue_transaction _ t _ Hi Ha).
    cbn [bind skipWs isJSONWhiteSpace]. change (char_eqb 44 44) with true. cbv iota.
    replace (7 + (2 + f + List.length store))%nat with (9 + f + List.length store)%nat by lia.
    rewrite (IH t' rest Hp). reflexivity.
Qed.

Lemma joinComma_length parts :
  (forall p, In p parts -> (2 <= List.length p)%nat) ->
  (2 * List.length parts <= List.length (joinComma parts))%nat.
Proof.
  destruct parts as [|p l]; [simpl; lia|]. revert p.
  induction l as [|q l IH]; intros p H.
  - pose proof (H p (or_introl eq_refl)). cbn [joinComma List.length]. lia.
  - rewrite joinComma_cons, length_app.
    pose proof (H p (or_introl eq_refl)).
    pose proof (IH q (fun x Hx => H x (or_intror Hx))) as IHq.
    cbn [List.length] in *. unfold jsstring, char16 in *. lia.
Qed.

Lemma storeTexts_length store :
  (2 * List.length store <= List.length (joinComma (storeTexts store)))%nat.
Proof.
  replace (List.length store) with (List.length (storeTexts store))
    by (unfold storeTexts; rewrite !length_map; reflexivity).
  apply joinComma_length. intros p Hp. unfold storeTexts in Hp.
  apply in_map_iff in Hp. destruct Hp as (v & <- & Hv).
  apply in_map_iff in Hv. destruct Hv as (t & <- & _).
  unfold toValue. cbn [JSON_stringify List.length]. rewrite length_app.
  cbn [List.length]. unfold jsstring, char16 in *. lia.
Qed.

(** [JSON.parse] of [JSON.stringify] of a store of plain records is the
    store. *)
Lemma JSON_parse_stringify_store store :
  forallb plainRecord store = true ->
  JSON_parse (JSON_stringify (storeValue store)) = Return (storeValue store).
Proof.
  intros Hp. unfold JSON_parse.
  destruct store as [|t store].
  - reflexivity.
  - assert (Hv : parseValue (S (9 + 0 + List.length store)) (JSON_stringify (storeValue (t :: store)))
                 = Parsed (storeValue (t :: store)) []).
    { unfold storeValue. cbn [JSON_stringify]. fold (storeTexts (t :: store)).
      cbn [parseValue]. unfold valueStep. cbn [skipWs isJSONWhiteSpace].
      change (char_eqb 91 34) with false. change (char_eqb 91 91) with true. cbv iota.
      assert (Hs : startsWithChar 93
                     (skipWs (joinComma (storeTexts (t :: store)) ++ [93%N])) = false).
      { unfold storeTexts. cbn [List.map]. fold (storeTexts store).
        destruct (storeTexts store); reflexivity. }
      rewrite Hs. rewrite (parseElements_store 0 t store [] Hp). reflexivity. }
    assert (Hle : (S (9 + 0 + List.length store)
                   <= 2 * List.length (JSON_stringify (storeValue (t :: store))) + 2)%nat);
      [|rewrite (parseValue_fuel _ _ _ _ _ Hle Hv); reflexivity].
    unfold storeValue. cbn [JSON_stringify]. fold (storeTexts (t :: store)).
    cbn [List.length]. rewrite length_app.
    pose proof (storeTexts_length (t :: store)) as Hl. cbn [List.length] in *.
    unfold jsstring, char16 in *. lia.
Qed.

(** C5, as the code has it.  When every id and amount of the store is a
    finite number other than negative zero, what [updateLocalStorage]
    writes is read back by the initial load as the same records in the same
    order. *)
Theorem reload_reproduces_plain_store st :
  (forall t, In t (transactions st) -> plain (id t) = true /\ plain (amount t) = true) ->
  loadTransactions (localStorage (updateLocalStorage st))
  = Return (storeValue (transactions st)).
Proof.
  intros Hp. unfold loadTransactions, updateLocalStorage. cbn [localStorage transactions].
  rewrite getItem_setItem, JSON_parse_stringify_store; [reflexivity|].
  apply forallb_forall. intros t Ht. unfold plainRecord.
  destruct (Hp t Ht) as [-> ->]. reflexivity.
Qed.

(** After Pay/1000/income and Rent/400/expense the storage reads back as
    the two records. *)
Lemma reload_reproduces_plain_store_witness :
  let st := addTransaction 0.5%float (lit "11/2/2026") (form "Rent" "400" "expense"
              (addTransaction 0.25%float (lit "11/2/2026") (form "Pay" "1000" "income"
                 emptyPage))) in
  List.map amount (transactions st) = [1000; -400]%float
  /\ loadTransactions (localStorage (updateLocalStorage st))
     = Return (storeValue (transactions st)).
Proof.
  intros st.
  assert (Hst : transactions st
                = [entry 250000000 "Pay" 1000 "income"; entry 500000000 "Rent" (-400) "expense"])
    by (vm_compute; reflexivity).
  split; [rewrite Hst; reflexivity|].
  apply (reload_reproduces_plain_store st).
  rewrite Hst. intros t [<-|[<-|[]]]; split; vm_compute; reflexivity.
Defined.

(** Two stores with the same value are the same list of records. *)
Lemma storeValue_inj a : forall b, storeValue a = storeValue b -> a = b.
Proof.
  unfold storeValue. induction a as [|t a IH]; intros [|t' b] H;
    try reflexivity; try discriminate H.
  injection H as Hi Hti Ha Hty Hd Hrest. f_equal.
  - destruct t, t'. cbn [id title amount type date] in *. congruence.
  - apply IH. f_equal. exact Hrest.
Qed.

(** X17.  What line 15 gives for each kind of transactions item.  With no
    item the load gives the empty list.  With an item that is not a JSON
    text the load throws the SyntaxError of [JSON.parse] and gives no list.
    With the JSON text of a value the load gives that value, or the empty
    list when the value is falsy. *)
Theorem load_of_each_kind_of_item ls :
  (getItem ls (lit "transactions") = None ->
   loadTransactions ls = Return (storeValue []))
  /\ (forall text,
        getItem ls (lit "transactions") = Some text ->
        (forall v, ~ JSONText text v) ->
        loadTransactions ls = Throw (lit "SyntaxError"))
  /\ (forall text v,
        getItem ls (lit "transactions") = Some text ->
        JSONText text v ->
        loadTransactions ls = Return (if truthy v then v else Array [])).
Proof.
  unfold loadTransactions. split; [|split].
  - intros ->. reflexivity.
  - intros text -> Hno. rewrite (JSON_parse_not_text text Hno). reflexivity.
  - intros text v -> Hv. rewrite (JSON_parse_text text v Hv). reflexivity.
Qed.

Lemma load_of_each_kind_of_item_witness :
  loadTransactions [(lit "theme", lit "dark")] = Return (storeValue [])
  /\ loadTransactions [(lit "transactions", lit "[1,")] = Throw (lit "SyntaxError")
  /\ loadTransactions [(lit "transactions", lit "0")] = Return (Array []).
Proof.
  split; [|split].
  - destruct (load_of_each_kind_of_item [(lit "theme", lit "dark")]) as (H & _ & _).
    apply H. reflexivity.
  - destruct (load_of_each_kind_of_item [(lit "transactions", lit "[1,")])
      as (_ & H & _).
    apply (H (lit "[1,")); [reflexivity|].
    apply (syntax_error_not_text 8). vm_compute. reflexivity.
  - destruct (load_of_each_kind_of_item [(lit "transactions", lit "0")])
      as (_ & _ & H).
    apply (H (lit "0") (Number 0)); [reflexivity|].
    exists 1%nat, []. split; vm_compute; reflexivity.
Defined.

(** C6.  With no transactions item the initial load gives the empty list,
    as the comment on line 14 says.  On a transactions item that is not
    valid JSON (here a text cut short) the parser reports a syntax error
    and line 15 throws: the load does not fall back to the empty list, it
    gives no list at all. *)
Lemma corrupt_item_makes_load_throw :
  loadTransactions [] = Return (storeValue [])
  /\ getItem truncatedStorage (lit "transactions") = Some (lit "[{" ++ quoted "id" ++ lit ":250000000," ++ 34%N :: lit "tit")
  /\ parseValue 42 (lit "[{" ++ quoted "id" ++ lit ":250000000," ++ 34%N :: lit "tit") = SyntaxError
  /\ loadTransactions truncatedStorage = Throw (lit "SyntaxError")
  /\ loadTransactions truncatedStorage <> Return (storeValue []).
Proof.
  repeat split; try (vm_compute; reflexivity). vm_compute. discriminate.
Qed.

(** C5, as stated, fails.  The amount field [abc] is stored as NaN, which
    [JSON.stringify] writes as [null]: the reloaded record has the amount
    [null], not NaN.  In the same way an amount of negative zero is written
    [0] and comes back as positive zero. *)
Lemma nan_amount_is_not_reloaded :
  let st := addTransaction 0.5%float (lit "11/2/2026") (form "Pay" "abc" "income" emptyPage) in
  let st' := addTransaction 0.5%float (lit "11/2/2026") (form "Pay" "-0" "expense" emptyPage) in
  List.map amount (transactions st) = [NaN]
  /\ getItem (localStorage st) (lit "transactions")
     = Some (JSON_stringify (storeValue (transactions st)))
  /\ loadTransactions (localStorage st)
     = Return (Array [Object [(lit "id", Number 500000000); (lit "title", String (lit "Pay"));
                              (lit "amount", Null); (lit "type", String (lit "income"));
                              (lit "date", String (lit "11/2/2026"))]])
  /\ loadTransactions (localStorage st) <> Return (storeValue (transactions st))
  /\ List.map amount (transactions st') = [(-0)%float]
  /\ loadTransactions (localStorage st')
     = Return (storeValue [entry 500000000 "Pay" 0 "expense"])
  /\ loadTransactions (localStorage st') <> Return (storeValue (transactions st')).
Proof.
  repeat split; try (vm_compute; reflexivity).
  - vm_compute. discriminate.
  - intros H.
    apply (f_equal (fun c => match c with
                             | Return (Array [Object [_; _; (_, Number x); _; _]]) => Prim2SF x
                             | _ => S754_nan
                             end)) in H.
    vm_compute in H. discriminate H.
Qed.

End Persistence.

(** * The theme switcher (applyTheme, handleThemeSwitch, the page load) *)

Module ThemeFacts.
Import JS App Ref Notions Theme Session Conditions Store.

Lemma jsstring_eqb_refl k : jsstring_eqb k k = true.
Proof. apply jsstring_eqb_eq. reflexivity. Qed.

Lemma jsstring_eqb_neq a b : jsstring_eqb a b = false <-> a <> b.
Proof.
  split.
  - intros H E. apply jsstring_eqb_eq in E. congruence.
  - intros H. destruct (jsstring_eqb a b) eqn:E; [|reflexivity].
    apply jsstring_eqb_eq in E. contradiction.
Qed.

(** Writing one key leaves the item of every other key as it was. *)
Lemma getItem_setItem_other ls key text key' :
  key <> key' -> getItem (setItem ls key text) key' = getItem ls key'.
Proof.
  intros Hne. apply jsstring_eqb_neq in Hne.
  induction ls as [|[k v] ls IH]; cbn [setItem getItem].
  - rewrite Hne. reflexivity.
  - destruct (jsstring_eqb k key) eqn:E; cbn [getItem].
    + apply jsstring_eqb_eq in E. subst k. rewrite Hne. reflexivity.
    + rewrite IH. reflexivity.
Qed.

Lemma applyTheme_ledger theme d : ledger (applyTheme theme d) = ledger d.
Proof. unfold applyTheme. destruct (jsstring_eqb theme (lit "dark")); reflexivity. Qed.

Lemma presentation_applyTheme theme d :
  presentation (applyTheme theme d)
  = if jsstring_eqb theme (lit "dark") then (Some (lit "dark"), sun) else (None, moon).
Proof. unfold applyTheme. destruct (jsstring_eqb theme (lit "dark")); reflexivity. Qed.

(** The theme a switch chooses. *)
Lemma handleThemeSwitch_cases d :
  let newTheme := if isDark d then lit "light" else lit "dark" in
  handleThemeSwitch d
  = applyTheme newTheme
      {| ledger := writeItem (lit "theme") newTheme (ledger d);
         dataTheme := dataTheme d;
         themeSwitcherBtn := themeSwitcherBtn d |}.
Proof.
  unfold handleThemeSwitch, isDark. destruct (dataTheme d) as [t|]; reflexivity.
Qed.

Lemma handleThemeSwitch_stored d :
  getItem (localStorage (ledger (handleThemeSwitch d))) (lit "theme")
  = Some (if isDark d then lit "light" else lit "dark").
Proof.
  rewrite handleThemeSwitch_cases. cbv zeta. rewrite applyTheme_ledger.
  cbn [ledger writeItem localStorage]. apply getItem_setItem.
Qed.

Lemma handleThemeSwitch_presentation d :
  presentation (handleThemeSwitch d)
  = if isDark d then (None, moon) else (Some (lit "dark"), sun).
Proof.
  rewrite handleThemeSwitch_cases. cbv zeta. rewrite presentation_applyTheme.
  destruct (isDark d); reflexivity.
Qed.

Lemma isDark_handleThemeSwitch d : isDark (handleThemeSwitch d) = negb (isDark d).
Proof.
  pose proof (handleThemeSwitch_presentation d) as H. unfold presentation in H.
  unfold isDark at 1. destruct (isDark d); injection H as -> _; reflexivity.
Qed.

Lemma presentation_load d :
  presentation (load d)
  = presentation (applyTheme (savedTheme (localStorage (ledger d))) d).
Proof. reflexivity. Qed.

(** X1.  A page load that finds the storage a theme switch has left shows
    the theme the switch has shown: the same [data-theme] attribute and the
    same button text. *)
Theorem reload_shows_the_switched_theme d d0 :
  localStorage (ledger d0) = localStorage (ledger (handleThemeSwitch d)) ->
  presentation (load d0) = presentation (handleThemeSwitch d).
Proof.
  intros Hls. rewrite presentation_load, presentation_applyTheme, Hls.
  unfold savedTheme. rewrite handleThemeSwitch_stored, handleThemeSwitch_presentation.
  destruct (isDark d); reflexivity.
Qed.

Lemma reload_shows_the_switched_theme_witness :
  let d := {| ledger := emptyPage; dataTheme := None; themeSwitcherBtn := moon |} in
  presentation (load (handleThemeSwitch d)) = (Some (lit "dark"), sun).
Proof.
  intros d.
  rewrite (reload_shows_the_switched_theme d (handleThemeSwitch d) eq_refl).
  reflexivity.
Defined.

(** X2.  A switch turns a dark page light and any other page dark; two
    switches in a row bring back the theme the page had, on the page and in
    the storage. *)
Theorem two_switches_restore_the_theme d :
  let d1 := handleThemeSwitch d in
  let d2 := handleThemeSwitch d1 in
  isDark d1 = negb (isDark d)
  /\ isDark d2 = isDark d
  /\ presentation d2 = (if isDark d then (Some (lit "dark"), sun) else (None, moon))
  /\ getItem (localStorage (ledger d2)) (lit "theme")
     = Some (if isDark d then lit "dark" else lit "light").
Proof.
  cbv zeta. repeat apply conj.
  - apply isDark_handleThemeSwitch.
  - rewrite !isDark_handleThemeSwitch. apply negb_involutive.
  - rewrite handleThemeSwitch_presentation, isDark_handleThemeSwitch.
    destruct (isDark d); reflexivity.
  - rewrite handleThemeSwitch_stored, isDark_handleThemeSwitch.
    destruct (isDark d); reflexivity.
Qed.

Lemma updateLocalStorage_theme st :
  getItem (localStorage (updateLocalStorage st)) (lit "theme")
  = getItem (localStorage st) (lit "theme").
Proof.
  unfold updateLocalStorage. cbn [localStorage].
  apply getItem_setItem_other. discriminate.
Qed.

Lemma init_localStorage st : localStorage (init st) = localStorage st.
Proof. apply init_frame. Qed.

(** X3.  The theme and the ledger do not touch each other: a theme switch
    leaves the store, the stored transactions, the form and what the list
    and the cards show as they were, and writes nothing but the theme item;
    a submission and a deletion leave the stored theme as it was. *)
Theorem theme_and_ledger_are_independent :
  (forall d,
      let st := ledger d in
      let st' := ledger (handleThemeSwitch d) in
      transactions st' = transactions st
      /\ getItem (localStorage st') (lit "transactions")
         = getItem (localStorage st) (lit "transactions")
      /\ (titleInput st', amountInput st', typeInput st')
         = (titleInput st, amountInput st, typeInput st)
      /\ (transactionListEl st', balanceEl st', incomeEl st', expenseEl st')
         = (transactionListEl st, balanceEl st, incomeEl st, expenseEl st)
      /\ exists theme, effects st' = effects st ++ [SetItem (lit "theme") theme])
  /\ (forall random today st,
      getItem (localStorage (addTransaction random today st)) (lit "theme")
      = getItem (localStorage st) (lit "theme"))
  /\ (forall id0 st,
      getItem (localStorage (deleteTransaction id0 st)) (lit "theme")
      = getItem (localStorage st) (lit "theme")).
Proof.
  split; [|split].
  - intros d. cbv zeta. rewrite handleThemeSwitch_cases. cbv zeta.
    rewrite applyTheme_ledger. cbn [ledger writeItem transactions localStorage titleInput
      amountInput typeInput transactionListEl balanceEl incomeEl expenseEl effects].
    repeat apply conj; try reflexivity.
    + apply getItem_setItem_other. discriminate.
    + eexists. reflexivity.
  - intros random today st. unfold addTransaction.
    destruct (jsstring_eqb (trim (titleInput st)) [] || jsstring_eqb (trim (amountInput st)) []).
    + reflexivity.
    + cbv zeta. unfold clearForm. cbn [localStorage].
      rewrite init_localStorage, updateLocalStorage_theme. reflexivity.
  - intros id0 st. unfold deleteTransaction. cbv zeta.
    rewrite init_localStorage, updateLocalStorage_theme. reflexivity.
Qed.

(** X4.  The page loads dark exactly when the stored theme is the text
    [dark]; with no stored theme, an empty one or any other text the
    [data-theme] attribute is removed and the button shows the moon.  The
    load renders the store as [init] does. *)
Theorem page_loads_dark_only_for_dark d :
  let stored := getItem (localStorage (ledger d)) (lit "theme") in
  (stored = Some (lit "dark") -> presentation (load d) = (Some (lit "dark"), sun))
  /\ (stored <> Some (lit "dark") -> presentation (load d) = (None, moon))
  /\ ledger (load d) = init (ledger d).
Proof.
  cbv zeta. rewrite presentation_load, presentation_applyTheme. unfold savedTheme.
  split; [|split].
  - intros ->. reflexivity.
  - intros Hne. destruct (getItem (localStorage (ledger d)) (lit "theme")) as [t|];
      [|reflexivity].
    destruct (jsstring_eqb t []) eqn:Ee; [reflexivity|].
    destruct (jsstring_eqb t (lit "dark")) eqn:Ed; [|reflexivity].
    apply jsstring_eqb_eq in Ed. subst t. contradiction.
  - unfold load. cbn [ledger]. rewrite applyTheme_ledger. reflexivity.
Qed.

End ThemeFacts.

(** * The ledger handlers together *)

Module Ledger.
Import JS App Ref Notions Theme Session Conditions FloatFacts Store ThemeFacts.

(** ** What [init] leaves *)

Lemma init_Shown st : Shown (init st).
Proof. rewrite init_eq. repeat split. Qed.

Lemma init_idem st : init (init st) = init st.
Proof. rewrite (init_eq (init st)), (init_eq st). reflexivity. Qed.

Lemma updateLocalStorage_Saved st : Saved (updateLocalStorage st).
Proof. unfold Saved, updateLocalStorage. cbn [localStorage transactions]. apply getItem_setItem. Qed.

Lemma init_Saved st : Saved st -> Saved (init st).
Proof. unfold Saved. rewrite init_eq. cbn [localStorage transactions]. auto. Qed.

Lemma clearForm_Shown st : Shown st -> Shown (clearForm st).
Proof. unfold Shown, clearForm. cbn. auto. Qed.

Lemma clearForm_Saved st : Saved st -> Saved (clearForm st).
Proof. unfold Saved, clearForm. cbn. auto. Qed.

Lemma accepted_Shown_Saved random today st :
  blank st = false ->
  Shown (addTransaction random today st) /\ Saved (addTransaction random today st).
Proof.
  intros Hb. rewrite addTransaction_accepted by exact Hb. split.
  - apply clearForm_Shown, init_Shown.
  - apply clearForm_Saved, init_Saved, updateLocalStorage_Saved.
Qed.

Lemma deleted_Shown_Saved id0 st :
  Shown (deleteTransaction id0 st) /\ Saved (deleteTransaction id0 st).
Proof.
  unfold deleteTransaction. cbv zeta. split.
  - apply init_Shown.
  - apply init_Saved, updateLocalStorage_Saved.
Qed.

(** X5.  After every accepted submission and after every deletion the list
    shows the records of the store in order, the cards show its totals and
    the stored text is the text of the store, whatever the page and the
    storage held before; a rejected submission keeps both.  [init] shows
    the store, and a second [init] changes nothing. *)
Theorem page_and_storage_follow_the_store :
  (forall random today st,
      trim (titleInput st) <> [] -> trim (amountInput st) <> [] ->
      Shown (addTransaction random today st) /\ Saved (addTransaction random today st))
  /\ (forall id0 st,
      Shown (deleteTransaction id0 st) /\ Saved (deleteTransaction id0 st))
  /\ (forall random today st,
      trim (titleInput st) = [] \/ trim (amountInput st) = [] ->
      (Shown st -> Shown (addTransaction random today st))
      /\ (Saved st -> Saved (addTransaction random today st)))
  /\ (forall st, Shown (init st) /\ init (init st) = init st).
Proof.
  split; [|split; [|split]].
  - intros random today st Ht Ha. apply accepted_Shown_Saved.
    apply blank_false. split; assumption.
  - apply deleted_Shown_Saved.
  - intros random today st Hb. apply blank_true in Hb.
    rewrite addTransaction_rejected by exact Hb. split; intros H; exact H.
  - intros st. split; [apply init_Shown|apply init_idem].
Qed.

(** ** Deleting *)

Lemma strictNe_self x : isNaN x = false -> strictNe x x = false.
Proof. unfold isNaN, strictNe. intros H. exact H. Qed.

Lemma filter_all {A} (p : A -> bool) l :
  (forall x, In x l -> p x = true) -> filter p l = l.
Proof.
  induction l as [|a l IH]; intros H; cbn [filter]; [reflexivity|].
  rewrite (H a (or_introl eq_refl)), IH; [reflexivity|].
  intros x Hx. apply H. right. exact Hx.
Qed.

Lemma filter_comm {A} (p q : A -> bool) l :
  filter p (filter q l) = filter q (filter p l).
Proof.
  induction l as [|a l IH]; [reflexivity|]. cbn [filter].
  destruct (p a) eqn:Ep, (q a) eqn:Eq; cbn [filter]; rewrite ?Ep, ?Eq, IH; reflexivity.
Qed.

Lemma filter_idem {A} (p : A -> bool) l : filter p (filter p l) = filter p l.
Proof.
  apply filter_all. intros x Hx. apply filter_In in Hx. apply Hx.
Qed.

Lemma setItem_setItem ls key a b : setItem (setItem ls key a) key b = setItem ls key b.
Proof.
  induction ls as [|[k v] ls IH]; cbn [setItem].
  - rewrite jsstring_eqb_refl. reflexivity.
  - destruct (jsstring_eqb k key) eqn:E; cbn [setItem]; rewrite E; [reflexivity|].
    rewrite IH. reflexivity.
Qed.

(** X6.  Deleting the record a submission has just added, by its id, undoes
    the submission when the id is a number no older record carries: the
    store, the list, the cards and the stored text are those of the store
    before the submission. *)
Theorem delete_undoes_the_last_add random today st :
  trim (titleInput st) <> [] -> trim (amountInput st) <> [] ->
  isNaN (generateID random) = false ->
  (forall t, In t (transactions st) -> strictNe (id t) (generateID random) = true) ->
  let st' := deleteTransaction (generateID random) (addTransaction random today st) in
  transactions st' = transactions st
  /\ Shown st' /\ Saved st'
  /\ localStorage st'
     = setItem (localStorage st) (lit "transactions")
               (JSON_stringify (storeValue (transactions st))).
Proof.
  intros Ht Ha Hn Hfresh. cbv zeta.
  assert (Hb : blank st = false) by (apply blank_false; split; assumption).
  assert (Hkept : filter (fun t => strictNe (id t) (generateID random))
                    (transactions (addTransaction random today st)) = transactions st).
  { rewrite addTransaction_accepted_store by exact Hb.
    rewrite filter_app. cbn [filter newTransaction id].
    rewrite (strictNe_self _ Hn), app_nil_r. apply filter_all. exact Hfresh. }
  split; [|split; [|split]].
  - rewrite deleteTransaction_store. exact Hkept.
  - apply deleted_Shown_Saved.
  - apply deleted_Shown_Saved.
  - rewrite deleteTransaction_eq. cbv zeta. cbn [localStorage]. rewrite Hkept.
    rewrite (addTransaction_eq random today st Hb). cbv zeta. cbn [localStorage].
    apply setItem_setItem.
Qed.

Lemma delete_undoes_the_last_add_witness :
  let st := form "Rent" "400" "expense"
              (addTransaction 0.25%float (lit "11/2/2026") (form "Pay" "1000" "income"
                 emptyPage)) in
  transactions (deleteTransaction (generateID 0.5%float)
                  (addTransaction 0.5%float (lit "11/2/2026") st))
  = [entry 250000000 "Pay" 1000 "income"].
Proof.
  intros st.
  assert (Hst : transactions st = [entry 250000000 "Pay" 1000 "income"])
    by (vm_compute; reflexivity).
  destruct (delete_undoes_the_last_add 0.5%float (lit "11/2/2026") st) as (H & _).
  - vm_compute. discriminate.
  - vm_compute. discriminate.
  - vm_compute. reflexivity.
  - rewrite Hst. intros t [<-|[]]. vm_compute. reflexivity.
  - rewrite H. exact Hst.
Defined.

(** X7.  Deleting by the same id twice is deleting once, and two deletions
    give the same store, list, cards and storage in either order. *)
Theorem deletions_repeat_and_commute a b st :
  outcome_of (deleteTransaction a (deleteTransaction a st))
  = outcome_of (deleteTransaction a st)
  /\ outcome_of (deleteTransaction a (deleteTransaction b st))
     = outcome_of (deleteTransaction b (deleteTransaction a st)).
Proof.
  split.
  - rewrite (deleteTransaction_eq a (deleteTransaction a st)). cbv zeta.
    rewrite (deleteTransaction_eq a st). cbv zeta.
    unfold outcome_of. cbn [transactions localStorage transactionListEl balanceEl incomeEl
                             expenseEl].
    rewrite filter_idem, setItem_setItem. reflexivity.
  - rewrite (deleteTransaction_eq a (deleteTransaction b st)),
            (deleteTransaction_eq b (deleteTransaction a st)). cbv zeta.
    rewrite (deleteTransaction_eq a st), (deleteTransaction_eq b st). cbv zeta.
    unfold outcome_of. cbn [transactions localStorage transactionListEl balanceEl incomeEl
                             expenseEl].
    rewrite !setItem_setItem.
    rewrite (filter_comm (fun t => strictNe (id t) a) (fun t => strictNe (id t) b)).
    reflexivity.
Qed.

(** ** Submitting *)

(** X8.  An accepted submission empties the title and the amount field, so
    that a second submission of the form as it stands is rejected: the
    record is stored once, and the second call only alerts. *)
Theorem resubmission_is_rejected random today random' today' st :
  trim (titleInput st) <> [] -> trim (amountInput st) <> [] ->
  let st1 := addTransaction random today st in
  let st2 := addTransaction random' today' st1 in
  titleInput st1 = [] /\ amountInput st1 = []
  /\ transactions st2 = transactions st ++ [newTransaction random today st]
  /\ localStorage st2 = localStorage st1
  /\ effects st2 = effects st1 ++ [Alert (lit "Please add a title and amount.")].
Proof.
  intros Ht Ha. cbv zeta.
  assert (Hb : blank st = false) by (apply blank_false; split; assumption).
  rewrite (addTransaction_eq random today st Hb). cbv zeta.
  repeat apply conj; reflexivity.
Qed.

Lemma resubmission_is_rejected_witness :
  let st1 := addTransaction 0.25%float (lit "11/2/2026") (form "Pay" "1000" "income" emptyPage) in
  List.length (transactions (addTransaction 0.5%float (lit "11/2/2026") st1)) = 1%nat.
Proof.
  intros st1.
  destruct (resubmission_is_rejected 0.25%float (lit "11/2/2026") 0.5%float (lit "11/2/2026")
              (form "Pay" "1000" "income" emptyPage)) as (_ & _ & H & _).
  - vm_compute. discriminate.
  - vm_compute. discriminate.
  - unfold st1. rewrite H. reflexivity.
Defined.

Lemma SFabs_opp x : SFabs (SFopp x) = SFabs x.
Proof. destruct x; reflexivity. Qed.

Lemma SFabs_abs x : SFabs (SFabs x) = SFabs x.
Proof. destruct x; reflexivity. Qed.

Lemma abs_opp x : PrimFloat.abs (PrimFloat.opp x) = PrimFloat.abs x.
Proof. apply Prim2SF_inj. rewrite !abs_spec, opp_spec. apply SFabs_opp. Qed.

Lemma abs_abs x : PrimFloat.abs (PrimFloat.abs x) = PrimFloat.abs x.
Proof. apply Prim2SF_inj. rewrite !abs_spec. apply SFabs_abs. Qed.

(** X9.  The normalization of lines 56-65 changes at most the sign: the
    stored amount has the magnitude of the number the amount field reads
    as, and with a type other than income and expense it is that number. *)
Theorem normalization_keeps_the_magnitude kind text :
  Math_abs (normalizedAmount kind text) = Math_abs (parseFloat text)
  /\ (kind <> lit "income" -> kind <> lit "expense" ->
      normalizedAmount kind text = parseFloat text).
Proof.
  unfold normalizedAmount, Math_abs. split.
  - destruct (jsstring_eqb kind (lit "expense") && gt (parseFloat text) 0%float);
      destruct (jsstring_eqb kind (lit "income") && lt _ 0%float);
      rewrite ?abs_abs, ?abs_opp; reflexivity.
  - intros Hi He. apply jsstring_eqb_neq in Hi, He. rewrite Hi, He. reflexivity.
Qed.

(** ** The totals *)

Lemma totalIncome_app store t :
  totalIncome (store ++ [t])
  = if gt (amount t) 0%float then PrimFloat.add (totalIncome store) (amount t)
    else totalIncome store.
Proof.
  unfold totalIncome, amounts. rewrite map_app, filter_app, fold_left_app.
  cbn [List.map filter]. destruct (gt (amount t) 0%float); reflexivity.
Qed.

Lemma totalExpense_app store t :
  totalExpense (store ++ [t])
  = if lt (amount t) 0%float then PrimFloat.add (totalExpense store) (amount t)
    else totalExpense store.
Proof.
  unfold totalExpense, amounts. rewrite map_app, filter_app, fold_left_app.
  cbn [List.map filter]. destruct (lt (amount t) 0%float); reflexivity.
Qed.

(** X10.  An accepted submission moves one total by one addition: a
    positive amount is added to the total income and leaves the total
    expense as it was, a negative amount is added to the total expense and
    leaves the total income, and a zero or NaN amount leaves both; the
    cards show the new totals. *)
Theorem an_accepted_amount_enters_one_total random today st :
  trim (titleInput st) <> [] -> trim (amountInput st) <> [] ->
  let a := normalizedAmount (typeInput st) (amountInput st) in
  let store := transactions st in
  let st' := addTransaction random today st in
  totalIncome (transactions st')
  = (if gt a 0%float then PrimFloat.add (totalIncome store) a else totalIncome store)
  /\ totalExpense (transactions st')
     = (if lt a 0%float then PrimFloat.add (totalExpense store) a else totalExpense store)
  /\ (gt a 0%float = true -> lt a 0%float = false)
  /\ incomeEl st' = formatCurrency (totalIncome (transactions st'))
  /\ expenseEl st' = formatCurrency (Math_abs (totalExpense (transactions st')))
  /\ balanceEl st'
     = formatCurrency (PrimFloat.add (totalIncome (transactions st'))
                                     (totalExpense (transactions st'))).
Proof.
  intros Ht Ha. cbv zeta.
  assert (Hb : blank st = false) by (apply blank_false; split; assumption).
  rewrite (addTransaction_eq random today st Hb). cbv zeta.
  cbn [transactions incomeEl expenseEl balanceEl].
  rewrite totalIncome_app, totalExpense_app. cbn [newTransaction amount].
  repeat apply conj; try reflexivity.
  - rewrite gt_zero, lt_zero.
    destruct (Prim2SF (normalizedAmount (typeInput st) (amountInput st))) as [[]|[]| |[] m e];
      simpl; congruence.
  - unfold totalBalance. rewrite totalIncome_app, totalExpense_app. reflexivity.
Qed.

Lemma an_accepted_amount_enters_one_total_witness :
  let st := form "Rent" "400" "expense"
              (addTransaction 0.25%float (lit "11/2/2026") (form "Pay" "1000" "income"
                 emptyPage)) in
  let st' := addTransaction 0.5%float (lit "11/2/2026") st in
  totalIncome (transactions st') = 1000%float
  /\ totalExpense (transactions st') = (-400)%float
  /\ balanceEl st' = lit "$600.00".
Proof.
  intros st st'.
  destruct (an_accepted_amount_enters_one_total 0.5%float (lit "11/2/2026") st)
    as (Hi & He & _ & _ & _ & Hbal).
  - vm_compute. discriminate.
  - vm_compute. discriminate.
  - fold st' in Hi, He, Hbal. rewrite Hbal, Hi, He. vm_compute. repeat split.
Defined.

End Ledger.

(** * Every state the user can reach *)

Module Reachable.
Import JS App Ref Notions Theme Session Conditions FloatFacts Store Presenter ThemeFacts Ledger.

Lemma lt_abs_zero x : lt (Math_abs x) 0%float = false.
Proof.
  unfold Math_abs. rewrite lt_zero, abs_spec.
  destruct (Prim2SF x) as [[]|[]| |[] m e]; reflexivity.
Qed.

Lemma gt_opp_zero x : gt x 0%float = true -> gt (PrimFloat.opp x) 0%float = false.
Proof.
  rewrite !gt_zero, opp_spec.
  destruct (Prim2SF x) as [[]|[]| |[] m e]; simpl; congruence.
Qed.

Lemma income_is_not_negative text :
  lt (normalizedAmount (lit "income") text) 0%float = false.
Proof.
  unfold normalizedAmount.
  change (jsstring_eqb (lit "income") (lit "expense")) with false.
  change (jsstring_eqb (lit "income") (lit "income")) with true.
  cbn [andb]. destruct (lt (parseFloat text) 0%float) eqn:E.
  - apply lt_abs_zero.
  - exact E.
Qed.

Lemma expense_is_not_positive text :
  gt (normalizedAmount (lit "expense") text) 0%float = false.
Proof.
  unfold normalizedAmount.
  change (jsstring_eqb (lit "expense") (lit "expense")) with true.
  change (jsstring_eqb (lit "expense") (lit "income")) with false.
  cbn [andb]. destruct (gt (parseFloat text) 0%float) eqn:E.
  - apply gt_opp_zero. exact E.
  - exact E.
Qed.

Lemma newTransaction_Wellformed random today st :
  trim (titleInput st) <> [] -> Wellformed (newTransaction random today st).
Proof.
  intros Ht. unfold Wellformed, newTransaction. cbn [title type amount].
  split; [exact Ht|split]; intros ->.
  - apply income_is_not_negative.
  - apply expense_is_not_positive.
Qed.

Lemma Forall_filter {A} (P : A -> Prop) (p : A -> bool) l :
  Forall P l -> Forall P (filter p l).
Proof.
  intros H. apply Forall_forall. intros x Hx. apply filter_In in Hx.
  destruct Hx as [Hx _]. revert x Hx. apply Forall_forall. exact H.
Qed.

Lemma handle_Wellformed ev d :
  Forall Wellformed (transactions (ledger d)) ->
  Forall Wellformed (transactions (ledger (handle ev d))).
Proof.
  intros H. destruct ev as [ti am ty random today|id0|]; cbn [handle onLedger ledger].
  - destruct (blank (fill ti am ty (ledger d))) eqn:Hb.
    + rewrite addTransaction_rejected by exact Hb. exact H.
    + rewrite addTransaction_accepted_store by exact Hb.
      apply Forall_app. split; [exact H|]. constructor; [|constructor].
      apply newTransaction_Wellformed. apply blank_false in Hb. apply Hb.
  - rewrite deleteTransaction_store. apply Forall_filter. exact H.
  - rewrite handleThemeSwitch_cases. cbv zeta. rewrite applyTheme_ledger. exact H.
Qed.

(** X11.  Whatever the user submits, deletes and switches, in any order,
    every record of the store keeps a title that is not blank, an amount
    that is not negative under the type income and an amount that is not
    positive under the type expense, provided the records the page started
    with did. *)
Theorem reachable_records_are_wellformed events d :
  Forall Wellformed (transactions (ledger d)) ->
  Forall Wellformed (transactions (ledger (run events d))).
Proof.
  revert d. induction events as [|ev events IH]; intros d H; cbn [run fold_left].
  - exact H.
  - apply IH, handle_Wellformed, H.
Qed.

Lemma reachable_records_are_wellformed_witness :
  let d := {| ledger := emptyPage; dataTheme := None; themeSwitcherBtn := moon |} in
  let events := [Submit (lit "Pay") (lit "-1000") (lit "income") 0.25%float (lit "11/2/2026");
                 SwitchTheme;
                 Submit (lit "Rent") (lit "400") (lit "expense") 0.5%float (lit "11/2/2026");
                 Delete 250000000%float] in
  Forall Wellformed (transactions (ledger (run events d))).
Proof.
  intros d events. apply (reachable_records_are_wellformed events d). constructor.
Defined.

Lemma handle_Shown ev d : Shown (ledger d) -> Shown (ledger (handle ev d)).
Proof.
  intros H. destruct ev as [ti am ty random today|id0|]; cbn [handle onLedger ledger].
  - destruct (blank (fill ti am ty (ledger d))) eqn:Hb.
    + rewrite addTransaction_rejected by exact Hb. exact H.
    + apply accepted_Shown_Saved. exact Hb.
  - apply deleted_Shown_Saved.
  - rewrite handleThemeSwitch_cases. cbv zeta. rewrite applyTheme_ledger. exact H.
Qed.

Lemma handle_Saved ev d : Saved (ledger d) -> Saved (ledger (handle ev d)).
Proof.
  intros H. destruct ev as [ti am ty random today|id0|]; cbn [handle onLedger ledger].
  - destruct (blank (fill ti am ty (ledger d))) eqn:Hb.
    + rewrite addTransaction_rejected by exact Hb. exact H.
    + apply accepted_Shown_Saved. exact Hb.
  - apply deleted_Shown_Saved.
  - rewrite handleThemeSwitch_cases. cbv zeta. rewrite applyTheme_ledger.
    unfold Saved in *. cbn [ledger writeItem localStorage transactions].
    rewrite getItem_setItem_other by discriminate. exact H.
Qed.

Lemma handle_writes ev d :
  writes ev = true -> Shown (ledger (handle ev d)) /\ Saved (ledger (handle ev d)).
Proof.
  destruct ev as [ti am ty random today|id0|]; cbn [writes handle onLedger ledger]; intros Hw.
  - apply accepted_Shown_Saved. unfold blank. cbn [fill titleInput amountInput].
    apply negb_true_iff. exact Hw.
  - apply deleted_Shown_Saved.
  - discriminate.
Qed.

Lemma run_Shown events : forall d, Shown (ledger d) -> Shown (ledger (run events d)).
Proof.
  induction events as [|ev events IH]; intros d H; cbn [run fold_left]; [exact H|].
  apply IH, handle_Shown, H.
Qed.

Lemma run_Saved events : forall d, Saved (ledger d) -> Saved (ledger (run events d)).
Proof.
  induction events as [|ev events IH]; intros d H; cbn [run fold_left]; [exact H|].
  apply IH, handle_Saved, H.
Qed.

(** X12.  From the page load on, through any submissions, deletions and
    theme switches, the list and the cards show the store; and once one
    event has changed the store, the stored text is the text of the store,
    whatever the storage held before. *)
Theorem shown_and_saved_in_every_state events d :
  Shown (ledger (run events (load d)))
  /\ (forall d0, existsb writes events = true ->
        Shown (ledger (run events d0)) /\ Saved (ledger (run events d0))).
Proof.
  split.
  - apply run_Shown. unfold load. cbn [ledger]. apply init_Shown.
  - clear d. induction events as [|ev events IH]; intros d0 Hw; [discriminate|].
    cbn [existsb] in Hw. cbn [run fold_left].
    destruct (writes ev) eqn:Ew.
    + destruct (handle_writes ev d0 Ew) as [Hs Hv].
      split; [apply run_Shown, Hs|apply run_Saved, Hv].
    + apply (IH (handle ev d0)). exact Hw.
Qed.

(** ** The validation *)

Lemma trimStart_white s : forallb isWhiteSpace s = true -> trimStart s = [].
Proof.
  induction s as [|c s IH]; [reflexivity|]. cbn [forallb trimStart].
  intros H. apply andb_true_iff in H. destruct H as [-> H]. apply IH, H.
Qed.

Lemma trim_white s : trim s = [] <-> forallb isWhiteSpace s = true.
Proof.
  split.
  - intros H. apply trimStart_all_white, trim_nil, H.
  - intros H. unfold trim. rewrite (trimStart_white s H). reflexivity.
Qed.

(** X13.  A submission is rejected exactly when the title or the amount
    field is empty or holds white space only (spaces, tabs, line ends and
    the other characters [trim] strips); every other submission is
    stored. *)
Theorem rejected_exactly_when_a_field_is_white random today st :
  (forallb isWhiteSpace (titleInput st) = true \/ forallb isWhiteSpace (amountInput st) = true)
  <-> addTransaction random today st = alert (lit "Please add a title and amount.") st.
Proof.
  rewrite <- !trim_white. split.
  - intros H. apply addTransaction_rejected, blank_true, H.
  - intros H. apply blank_true. destruct (blank st) eqn:Hb; [reflexivity|].
    rewrite (addTransaction_eq random today st Hb) in H. cbv zeta in H.
    apply (f_equal effects) in H. cbn [effects alert] in H.
    apply app_inv_head in H. discriminate H.
Qed.

End Reachable.

(** * formatCurrency *)

Module Currency.
Import JS App Ref Notions Theme Session Conditions Digits NumberText.

(** ** The shape of [toFixed(2)] *)

Lemma repeat_allDigits n : allDigits (repeat 48%N n) = true.
Proof. induction n as [|n IH]; [reflexivity|]. cbn [repeat allDigits forallb]. exact IH. Qed.

Lemma fixedDigits_shape n :
  0 <= n ->
  exists ip fp, fixedDigits n 2 = ip ++ 46%N :: fp
    /\ ip <> [] /\ allDigits ip = true /\ allDigits fp = true /\ List.length fp = 2%nat.
Proof.
  intros Hn. destruct (decimalDigits_spec n Hn) as (Hne & Hall & _ & _).
  unfold fixedDigits. cbv zeta.
  set (m' := repeat 48%N (3 - List.length (decimalDigits n)) ++ decimalDigits n).
  assert (Hlen : (3 <= List.length m')%nat).
  { unfold m'. rewrite length_app, repeat_length. unfold jsstring, char16 in *. lia. }
  assert (Hm' : allDigits m' = true).
  { unfold m'. rewrite allDigits_app, repeat_allDigits, Hall. reflexivity. }
  exists (firstn (List.length m' - 2) m'), (skipn (List.length m' - 2) m').
  repeat apply conj.
  - reflexivity.
  - intros H. apply (f_equal (@List.length _)) in H.
    rewrite length_firstn in H. cbn [List.length] in H. unfold jsstring, char16 in *. lia.
  - apply allDigits_firstn, Hm'.
  - apply allDigits_skipn, Hm'.
  - rewrite length_skipn. unfold jsstring, char16 in *. lia.
Qed.

Lemma ratio_pos m e : 0 < fst (ratio m e) /\ 0 < snd (ratio m e).
Proof.
  unfold ratio. destruct (0 <=? e) eqn:E; cbn [fst snd].
  - apply Z.leb_le in E. split; [|lia].
    apply Z.mul_pos_pos; [lia|]. apply Z.pow_pos_nonneg; lia.
  - apply Z.leb_gt in E. split; [lia|]. apply Z.pow_pos_nonneg; lia.
Qed.

Lemma toFixed_shape x :
  isFinite x = true -> ge (Math_abs x) 1e21%float = false ->
  exists neg ip fp, toFixed x 2 = minus neg ++ ip ++ 46%N :: fp
    /\ ip <> [] /\ allDigits ip = true /\ allDigits fp = true /\ List.length fp = 2%nat.
Proof.
  unfold isFinite, toFixed, ge, Math_abs. intros Hf Hlt.
  destruct (Prim2SF x) as [s|s| |s m e]; try discriminate Hf.
  - exists false. apply (fixedDigits_shape 0). lia.
  - rewrite Hlt.
    destruct (ratio_pos m e) as [Hnum Hden].
    destruct (ratio m e) as [num den]. cbn [fst snd] in *.
    change (scale10 (num, den) (- Z.of_nat 2)) with (num * 10 ^ 2, den).
    destruct (fixedDigits_shape ((2 * (num * 10 ^ 2) + den) / (2 * den)))
      as (ip & fp & Heq & H); [apply Z.div_pos; lia|].
    exists s, ip, fp. rewrite Heq. split; [reflexivity|exact H].
Qed.

(** ** The replacement *)

Lemma insertCommas_other c s :
  isDigit c = false -> insertCommas (c :: s) = c :: insertCommas s.
Proof. intros H. cbn [insertCommas]. rewrite H. reflexivity. Qed.

Lemma spanDigits_all ds : allDigits ds = true -> spanDigits ds = (ds, []).
Proof.
  intros H. rewrite <- (app_nil_r ds) at 1. apply spanDigits_app; [exact H|exact I].
Qed.

(** No comma enters digits that no point follows. *)
Lemma insertCommas_fraction fp : allDigits fp = true -> insertCommas fp = fp.
Proof.
  induction fp as [|c fp IH]; [reflexivity|]. cbn [allDigits forallb].
  intros H. apply andb_true_iff in H. destruct H as [Hc Hfp].
  cbn [insertCommas]. unfold groupsThenPoint. rewrite (spanDigits_all fp Hfp).
  rewrite (IH Hfp). destruct fp; rewrite andb_false_r; reflexivity.
Qed.

(** After a digit that more digits and then a point follow, a comma is
    written when those digits are a multiple of three. *)
Lemma insertCommas_digit c ip fp :
  isDigit c = true -> allDigits ip = true ->
  insertCommas (c :: ip ++ 46%N :: fp)
  = c :: (if negb (Nat.eqb (List.length ip) 0) && Nat.eqb (Nat.modulo (List.length ip) 3) 0
          then [44%N] else []) ++ insertCommas (ip ++ 46%N :: fp).
Proof.
  intros Hc Hip. cbn [insertCommas]. rewrite Hc. cbn [andb].
  unfold groupsThenPoint. rewrite (spanDigits_app ip (46%N :: fp) Hip) by reflexivity.
  destruct ip as [|d ip']; [reflexivity|].
  cbn [List.length Nat.eqb negb andb].
  destruct (Nat.eqb (Nat.modulo (S (List.length ip')) 3) 0); reflexivity.
Qed.

(** The count of digits since the last comma, after [l] and starting from
    [k]. *)
Lemma groupRev_snoc c l : forall k,
  exists j, groupRev (l ++ [c]) k = groupRev l k ++ (if Nat.eqb j 3 then [44%N; c] else [c])
    /\ (l = [] -> j = k)
    /\ (l <> [] -> (k <= 3)%nat -> j = S (Nat.modulo (k + List.length l - 1) 3)).
Proof.
  induction l as [|x l IH]; intros k.
  - exists k. cbn [app groupRev]. split; [|split]; try congruence.
    destruct (Nat.eqb k 3); reflexivity.
  - cbn [app groupRev].
    destruct (Nat.eqb k 3) eqn:Ek.
    + apply Nat.eqb_eq in Ek. subst k.
      destruct (IH 1%nat) as (j & Heq & Hnil & Hcons). exists j.
      split; [rewrite Heq; reflexivity|]. split; [discriminate|]. intros _ _.
      destruct l as [|y l'].
      * rewrite (Hnil eq_refl). reflexivity.
      * rewrite Hcons by (try discriminate; lia). cbn [List.length].
        f_equal.
        replace (3 + S (S (List.length l')) - 1)%nat
          with (1 + S (List.length l') - 1 + 1 * 3)%nat by lia.
        rewrite Nat.Div0.mod_add. reflexivity.
    + apply Nat.eqb_neq in Ek.
      destruct (IH (S k)) as (j & Heq & Hnil & Hcons). exists j.
      split; [rewrite Heq; reflexivity|]. split; [discriminate|]. intros _ Hk.
      destruct l as [|y l'].
      * rewrite (Hnil eq_refl). cbn [List.length].
        replace (k + 1 - 1)%nat with k by lia.
        rewrite Nat.mod_small by lia. reflexivity.
      * rewrite Hcons by (try discriminate; lia). cbn [List.length].
        f_equal. f_equal. lia.
Qed.

Lemma groupThousands_cons c ds :
  groupThousands (c :: ds)
  = c :: (if negb (Nat.eqb (List.length ds) 0) && Nat.eqb (Nat.modulo (List.length ds) 3) 0
          then [44%N] else []) ++ groupThousands ds.
Proof.
  unfold groupThousands. cbn [rev].
  destruct (groupRev_snoc c (rev ds) 0) as (j & Heq & Hnil & Hcons).
  rewrite Heq, rev_app_distr.
  destruct ds as [|d ds'].
  - rewrite (Hnil eq_refl). reflexivity.
  - assert (Hne : rev (d :: ds') <> []).
    { intros H. apply (f_equal (@List.length _)) in H. rewrite length_rev in H.
      discriminate H. }
    rewrite (Hcons Hne) by lia. rewrite length_rev. cbn [List.length Nat.eqb negb andb].
    replace (0 + S (List.length ds') - 1)%nat with (List.length ds') by lia.
    destruct (Nat.eqb (Nat.modulo (S (List.length ds')) 3) 0) eqn:E.
    + apply Nat.eqb_eq in E.
      assert (Hm : Nat.modulo (List.length ds') 3 = 2%nat).
      { pose proof (Nat.mod_upper_bound (List.length ds') 3 ltac:(lia)) as Hb.
        pose proof (Nat.div_mod_eq (List.length ds') 3) as H1.
        pose proof (Nat.div_mod_eq (S (List.length ds')) 3) as H2.
        rewrite E in H2. lia. }
      rewrite Hm. reflexivity.
    + apply Nat.eqb_neq in E.
      assert (Hm : Nat.modulo (List.length ds') 3 <> 2%nat).
      { intros Hm. apply E.
        pose proof (Nat.mod_upper_bound (S (List.length ds')) 3 ltac:(lia)) as Hb.
        pose proof (Nat.div_mod_eq (List.length ds') 3) as H1.
        pose proof (Nat.div_mod_eq (S (List.length ds')) 3) as H2.
        rewrite Hm in H1. lia. }
      apply Nat.eqb_neq in Hm. rewrite Hm. reflexivity.
Qed.

(** The replacement of line 39 groups the digits before the point in
    threes from the right. *)
Lemma insertCommas_groups ip fp :
  allDigits ip = true -> allDigits fp = true ->
  insertCommas (ip ++ 46%N :: fp) = groupThousands ip ++ 46%N :: fp.
Proof.
  intros Hip Hfp. induction ip as [|c ip IH].
  - cbn [app]. rewrite insertCommas_other by reflexivity.
    rewrite (insertCommas_fraction fp Hfp). reflexivity.
  - cbn [allDigits forallb] in Hip. apply andb_true_iff in Hip. destruct Hip as [Hc Hip].
    cbn [app]. rewrite (insertCommas_digit c ip fp Hc Hip), groupThousands_cons, (IH Hip).
    cbn [app]. rewrite app_assoc. reflexivity.
Qed.

(** X14.  A finite number below 1e21 in magnitude is shown as a dollar
    sign, a minus when [toFixed] writes one, the digits before the point in
    groups of three counted from the right with commas between them, the
    point and two digits: the text of [toFixed(2)] with nothing changed but
    the commas. *)
Theorem currency_groups_by_thousands x :
  isFinite x = true -> ge (Math_abs x) 1e21%float = false ->
  exists neg ip fp,
    toFixed x 2 = minus neg ++ ip ++ 46%N :: fp
    /\ ip <> [] /\ allDigits ip = true /\ allDigits fp = true /\ List.length fp = 2%nat
    /\ formatCurrency x = 36%N :: minus neg ++ groupThousands ip ++ 46%N :: fp.
Proof.
  intros Hf Hlt.
  destruct (toFixed_shape x Hf Hlt) as (neg & ip & fp & Heq & Hne & Hip & Hfp & Hlen).
  exists neg, ip, fp. repeat (split; [assumption|]).
  unfold formatCurrency. rewrite Heq. f_equal.
  destruct neg; cbn [minus app].
  - rewrite insertCommas_other by reflexivity. f_equal. apply insertCommas_groups; assumption.
  - apply insertCommas_groups; assumption.
Qed.

Lemma currency_groups_by_thousands_witness :
  formatCurrency (-1234567.875)%float = lit "$-1,234,567.88"
  /\ exists neg ip fp,
       toFixed (-1234567.875)%float 2 = minus neg ++ ip ++ 46%N :: fp
       /\ formatCurrency (-1234567.875)%float
          = 36%N :: minus neg ++ groupThousands ip ++ 46%N :: fp.
Proof.
  split; [vm_compute; reflexivity|].
  destruct (currency_groups_by_thousands (-1234567.875)%float)
    as (neg & ip & fp & H1 & _ & _ & _ & _ & H2); [reflexivity|reflexivity|].
  exists neg, ip, fp. split; assumption.
Defined.

End Currency.

(** * What the storage gives back for any store *)

Module Reload.
Import JS App Ref Notions Theme Session Conditions FloatFacts Store NumberText StringText
  ParserFuel ReaderFuel StoreText Persistence.

Section NumberTexts.
Variables (readElements : jsstring -> parsed (list value)).
Variables (readMembers : jsstring -> parsed (list (jsstring * value))).

(** Reading the text [JSON.stringify] writes for a number. *)
Lemma valueStep_number_text x rest :
  endsNumber rest ->
  valueStep readElements readMembers (JSON_stringify (Number x) ++ rest)
  = Parsed (reloadedNumber x) rest.
Proof.
  intros Hrest. unfold reloadedNumber. cbn [JSON_stringify]. unfold isFinite.
  destruct (Prim2SF x) as [s|s| |s m e] eqn:E.
  - replace (Number_toString x) with (Number_toString 0%float)
      by (unfold Number_toString; rewrite E; reflexivity).
    apply valueStep_number, Number_toString_parse; [reflexivity|exact Hrest].
  - reflexivity.
  - reflexivity.
  - apply valueStep_number, Number_toString_parse; [|exact Hrest].
    unfold plain. rewrite E. reflexivity.
Qed.
End NumberTexts.

Lemma record_text t rest :
  JSON_stringify (toValue t) ++ rest
  = 123%N :: QuoteJSONString (lit "id") ++ 58%N :: JSON_stringify (Number (id t)) ++ 44%N ::
    QuoteJSONString (lit "title") ++ 58%N :: QuoteJSONString (title t) ++ 44%N ::
    QuoteJSONString (lit "amount") ++ 58%N :: JSON_stringify (Number (amount t)) ++ 44%N ::
    QuoteJSONString (lit "type") ++ 58%N :: QuoteJSONString (type t) ++ 44%N ::
    QuoteJSONString (lit "date") ++ 58%N :: QuoteJSONString (date t) ++ 125%N :: rest.
Proof.
  unfold toValue.
  change (JSON_stringify (Object ?l))
    with (123%N :: joinComma (List.map (fun kv => QuoteJSONString (fst kv) ++ 58%N ::
                                                  JSON_stringify (snd kv)) l) ++ [125%N]).
  cbn [List.map joinComma fst snd].
  change (JSON_stringify (String ?s)) with (QuoteJSONString s).
  cbn [app]. repeat (rewrite <- app_assoc; cbn [app]). reflexivity.
Qed.

Lemma parseValue_record f t rest :
  parseValue (7 + f) (JSON_stringify (toValue t) ++ rest) = Parsed (reloadedRecord t) rest.
Proof.
  rewrite (record_text t rest).
  change (7 + f)%nat with (S (S (S (S (S (S (S f))))))).
  cbn [parseValue]. unfold valueStep at 1. cbn [skipWs isJSONWhiteSpace].
  change (char_eqb 123 34) with false. change (char_eqb 123 91) with false.
  change (char_eqb 123 123) with true. cbv iota.
  change (startsWithChar 125 (skipWs (QuoteJSONString (lit "id") ++ ?[x]))) with false.
  cbv iota.
  cbn [parseMembers].
  rewrite (membersStep_more _ _ _ _ (reloadedNumber (id t)))
    by (apply valueStep_number_text, endsNumber_comma).
  cbn [parseMembers].
  rewrite (membersStep_more _ _ _ _ (String (title t))) by apply valueStep_string.
  cbn [parseMembers].
  rewrite (membersStep_more _ _ _ _ (reloadedNumber (amount t)))
    by (apply valueStep_number_text, endsNumber_comma).
  cbn [parseMembers].
  rewrite (membersStep_more _ _ _ _ (String (type t))) by apply valueStep_string.
  cbn [parseMembers].
  rewrite (membersStep_last _ _ _ _ (String (date t))) by apply valueStep_string.
  reflexivity.
Qed.

Lemma parseElements_records f : forall t store rest,
  parseElements (9 + f + List.length store) (joinComma (storeTexts (t :: store)) ++ 93%N :: rest)
  = Parsed (List.map reloadedRecord (t :: store)) rest.
Proof.
  intros t store. revert t. induction store as [|t' store IH]; intros t rest.
  - cbn [storeTexts List.map joinComma List.length].
    replace (9 + f + 0)%nat with (S (7 + (1 + f)))%nat by lia.
    cbn [parseElements]. unfold elementsStep.
    rewrite (parseValue_record _ t (93%N :: rest)).
    cbn [bind skipWs isJSONWhiteSpace].
    change (char_eqb 93 44) with false. change (char_eqb 93 93) with true. reflexivity.
  - change (storeTexts (t :: t' :: store))
      with (JSON_stringify (toValue t) :: storeTexts (t' :: store)).
    unfold storeTexts at 1. cbn [List.map]. fold (storeTexts store).
    change (JSON_stringify (toValue t') :: storeTexts store) with (storeTexts (t' :: store)).
    unfold storeTexts at 1. cbn [List.map]. rewrite joinComma_cons.
    change (JSON_stringify (toValue t') :: List.map JSON_stringify (List.map toValue store))
      with (storeTexts (t' :: store)).
    rewrite <- app_assoc. cbn [app List.length].
    replace (9 + f + S (List.length store))%nat
      with (S (7 + (2 + f + List.length store)))%nat by lia.
    cbn [parseElements]. unfold elementsStep.
    rewrite (parseValue_record _ t _).
    cbn [bind skipWs isJSONWhiteSpace]. change (char_eqb 44 44) with true. cbv iota.
    replace (7 + (2 + f + List.length store))%nat with (9 + f + List.length store)%nat by lia.
    rewrite (IH t' rest). reflexivity.
Qed.

Lemma JSON_parse_stringify_records store :
  JSON_parse (JSON_stringify (storeValue store))
  = Return (Array (List.map reloadedRecord store)).
Proof.
  unfold JSON_parse.
  destruct store as [|t store].
  - reflexivity.
  - assert (Hv : parseValue (S (9 + 0 + List.length store)) (JSON_stringify (storeValue (t :: store)))
                 = Parsed (Array (List.map reloadedRecord (t :: store))) []).
    { unfold storeValue. cbn [JSON_stringify]. fold (storeTexts (t :: store)).
      cbn [parseValue]. unfold valueStep. cbn [skipWs isJSONWhiteSpace].
      change (char_eqb 91 34) with false. change (char_eqb 91 91) with true. cbv iota.
      assert (Hs : startsWithChar 93
                     (skipWs (joinComma (storeTexts (t :: store)) ++ [93%N])) = false).
      { unfold storeTexts. cbn [List.map]. fold (storeTexts store).
        destruct (storeTexts store); reflexivity. }
      rewrite Hs. rewrite (parseElements_records 0 t store []). reflexivity. }
    assert (Hle : (S (9 + 0 + List.length store)
                   <= 2 * List.length (JSON_stringify (storeValue (t :: store))) + 2)%nat);
      [|rewrite (parseValue_fuel _ _ _ _ _ Hle Hv); reflexivity].
    unfold storeValue. cbn [JSON_stringify]. fold (storeTexts (t :: store)).
    cbn [List.length]. rewrite length_app.
    pose proof (storeTexts_length (t :: store)) as Hl. cbn [List.length] in *.
    unfold jsstring, char16 in *. lia.
Qed.

(** X15.  Whatever the store holds, the text [updateLocalStorage] writes is
    read by the initial load without an error, as an array with one object
    for each record in the same order; the titles, types and dates are the
    same, a finite id or amount is the same number but for negative zero,
    which comes back as zero, and NaN and the infinities come back as
    [null]. *)
Theorem stored_text_always_loads st :
  loadTransactions (localStorage (updateLocalStorage st))
  = Return (Array (List.map reloadedRecord (transactions st))).
Proof.
  unfold loadTransactions, updateLocalStorage. cbn [localStorage transactions].
  rewrite getItem_setItem, JSON_parse_stringify_records. reflexivity.
Qed.

End Reload.

(** * generateID *)

Module Identifier.
Import JS App Ref Notions Conditions FloatFacts Rounding Exact.

(** ** Shifting a mantissa right and rounding it *)

Lemma shr_1_half mrs :
  0 <= shr_m mrs ->
  shr_m (shr_1 mrs) = shr_m mrs / 2 /\ shr_r (shr_1 mrs) = Z.odd (shr_m mrs).
Proof.
  destruct mrs as [m r s]. cbn [shr_m]. intros H. rewrite <- Z.div2_div.
  destruct m as [|[p|p|]|p]; try lia; split; reflexivity.
Qed.

(** After [n] shifts the mantissa is the quotient by [2^n], and the round
    bit is set only when the remainder is at least half of [2^n]. *)
Lemma iter_shr_1 M n :
  0 <= M ->
  let mrs := Nat.iter n shr_1 {| shr_m := M; shr_r := false; shr_s := false |} in
  shr_m mrs = M / 2 ^ Z.of_nat n
  /\ (shr_r mrs = true -> 2 ^ Z.of_nat n <= 2 * (M mod 2 ^ Z.of_nat n)).
Proof.
  intros HM. induction n as [|n IH]; cbv zeta.
  - cbn [Nat.iter nat_rect shr_m shr_r Z.of_nat]. rewrite Z.pow_0_r, Z.div_1_r.
    split; [reflexivity|discriminate].
  - cbv zeta in IH. destruct IH as [IHm IHr]. rewrite Nat.iter_succ.
    set (mrs := Nat.iter n shr_1 _) in *.
    assert (Hp : 0 < 2 ^ Z.of_nat n) by (apply Z.pow_pos_nonneg; lia).
    assert (H0 : 0 <= shr_m mrs) by (rewrite IHm; apply Z.div_pos; lia).
    destruct (shr_1_half mrs H0) as [Hm Hr]. rewrite Hm, Hr, IHm.
    rewrite Nat2Z.inj_succ, Z.pow_succ_r by lia.
    split.
    + rewrite Z.div_div by lia. f_equal. lia.
    + intros Hodd. apply Z.odd_spec in Hodd. destruct Hodd as [q' Hq'].
      pose proof (Z.div_mod M (2 ^ Z.of_nat n) ltac:(lia)) as Hdm.
      pose proof (Z.mod_pos_bound M (2 ^ Z.of_nat n) Hp) as Hb.
      rewrite Hq' in Hdm.
      assert (Hmod : M mod (2 * 2 ^ Z.of_nat n) = 2 ^ Z.of_nat n + M mod 2 ^ Z.of_nat n).
      { symmetry. apply (Z.mod_unique M (2 * 2 ^ Z.of_nat n) q'); [left; lia|].
        rewrite Hdm at 1. ring. }
      rewrite Hmod. lia.
Qed.

Lemma shr_rounded M E k :
  0 <= M ->
  let mrs := fst (shr {| shr_m := M; shr_r := false; shr_s := false |} E k) in
  let m2 := round_nearest_even (shr_m mrs) (loc_of_shr_record mrs) in
  snd (shr {| shr_m := M; shr_r := false; shr_s := false |} E k) = E + Z.max k 0
  /\ shr_m mrs = M / 2 ^ Z.max k 0
  /\ 0 <= m2
  /\ 2 * m2 * 2 ^ Z.max k 0 <= 2 * M + 2 ^ Z.max k 0.
Proof.
  intros HM. cbv zeta. destruct k as [|p|p]; cbn [shr fst snd].
  - cbn [shr_m loc_of_shr_record round_nearest_even Z.max Z.compare].
    rewrite Z.pow_0_r, Z.div_1_r. repeat split; lia.
  - rewrite iter_pos_nat.
    destruct (iter_shr_1 M (Pos.to_nat p) HM) as [Hm Hr]. cbv zeta in Hm, Hr.
    rewrite positive_nat_Z in Hm, Hr.
    replace (Z.max (Z.pos p) 0) with (Z.pos p) by lia.
    set (mrs := Nat.iter (Pos.to_nat p) shr_1 _) in *.
    assert (Hp : 0 < 2 ^ Z.pos p) by (apply Z.pow_pos_nonneg; lia).
    assert (H1 : 0 <= shr_m mrs) by (rewrite Hm; apply Z.div_pos; lia).
    pose proof (Z.div_mod M (2 ^ Z.pos p) ltac:(lia)) as Hdm.
    pose proof (Z.mod_pos_bound M (2 ^ Z.pos p) Hp) as Hb.
    rewrite <- Hm in Hdm.
    split; [reflexivity|]. split; [exact Hm|].
    destruct mrs as [m1 r s]. cbn [shr_m shr_r] in *.
    destruct r.
    + specialize (Hr eq_refl).
      assert (Hle : round_nearest_even m1 (loc_of_shr_record
                      {| shr_m := m1; shr_r := true; shr_s := s |}) <= m1 + 1
                    /\ 0 <= round_nearest_even m1 (loc_of_shr_record
                      {| shr_m := m1; shr_r := true; shr_s := s |})).
      { destruct s; cbn [loc_of_shr_record round_nearest_even]; [lia|].
        destruct (Z.even m1); lia. }
      destruct Hle as [Hle Hge]. split; [exact Hge|]. nia.
    + assert (Heq : round_nearest_even m1 (loc_of_shr_record
                      {| shr_m := m1; shr_r := false; shr_s := s |}) = m1)
        by (destruct s; reflexivity).
      rewrite Heq. split; [exact H1|]. nia.
  - cbn [shr_m loc_of_shr_record round_nearest_even].
    replace (Z.max (Z.neg p) 0) with 0 by lia.
    rewrite Z.pow_0_r, Z.div_1_r. repeat split; lia.
Qed.

(** What [binary_round_aux] gives for a positive mantissa: the mantissa
    shifted to the exponent [e2], rounded to [m2], and shifted once more
    should the rounding have carried. *)
Lemma binary_round_aux_bound (M : positive) E :
  exists m2 m3 e2 e3,
    e2 = E + Z.max (fexp prec emax (Z.pos (digits2_pos M) + E) - E) 0
    /\ 0 <= m2
    /\ 2 * m2 * 2 ^ (e2 - E) <= 2 * Z.pos M + 2 ^ (e2 - E)
    /\ e3 = e2 + Z.max (fexp prec emax (Zdigits2 m2 + e2) - e2) 0
    /\ m3 = m2 / 2 ^ (e3 - e2)
    /\ binary_round_aux prec emax false (Z.pos M) E loc_Exact
       = match m3 with
         | Z0 => S754_zero false
         | Z.pos m => if e3 <=? emax - prec then S754_finite false m e3
                      else S754_infinity false
         | Z.neg _ => S754_nan
         end.
Proof.
  unfold binary_round_aux, shr_fexp. cbn [Zdigits2 shr_record_of_loc].
  set (k := fexp prec emax (Z.pos (digits2_pos M) + E) - E).
  destruct (shr_rounded (Z.pos M) E k ltac:(lia)) as (He2 & _ & Hm2 & Hbound).
  cbv zeta in He2, Hm2, Hbound.
  destruct (shr {| shr_m := Z.pos M; shr_r := false; shr_s := false |} E k) as [mrs' e'].
  cbn [fst snd] in *.
  set (m2 := round_nearest_even (shr_m mrs') (loc_of_shr_record mrs')) in *.
  set (k2 := fexp prec emax (Zdigits2 m2 + e') - e').
  destruct (shr_rounded m2 e' k2 Hm2) as (He3 & Hm3 & _ & _).
  cbv zeta in He3, Hm3.
  destruct (shr {| shr_m := m2; shr_r := false; shr_s := false |} e' k2) as [mrs'' e''].
  cbn [fst snd] in *.
  exists m2, (shr_m mrs''), e', e''.
  replace (e' - E) with (Z.max k 0) by lia.
  replace (e'' - e') with (Z.max k2 0) by lia.
  repeat split; assumption.
Qed.

(** ** Digits *)

Lemma digits_le (p : positive) n : 0 <= n -> Z.pos p < 2 ^ n -> Z.pos (digits2_pos p) <= n.
Proof.
  intros Hn Hlt. rewrite digits2_pos_size.
  pose proof (Pos.size_le p) as Hs.
  apply Pos2Z.pos_le_pos in Hs. rewrite Pos2Z.inj_pow in Hs.
  assert (H2 : 2 ^ Z.pos (Pos.size p) < 2 ^ (n + 1)).
  { rewrite Z.pow_add_r, Z.pow_1_r by lia. lia. }
  apply Z.pow_lt_mono_r_iff in H2; lia.
Qed.

Lemma Zdigits2_le m n : 0 <= m -> 0 <= n -> m < 2 ^ n -> Zdigits2 m <= n.
Proof.
  intros Hm Hn Hlt. destruct m as [|p|p]; cbn [Zdigits2]; try lia.
  apply digits_le; assumption.
Qed.

Lemma digits_ge (p : positive) n : 0 <= n -> 2 ^ n <= Z.pos p -> n < Z.pos (digits2_pos p).
Proof.
  intros Hn Hle. rewrite digits2_pos_size.
  pose proof (Pos.size_gt p) as Hs.
  apply Pos2Z.pos_lt_pos in Hs. rewrite Pos2Z.inj_pow in Hs.
  assert (H2 : 2 ^ n < 2 ^ Z.pos (Pos.size p)) by lia.
  apply Z.pow_lt_mono_r_iff in H2; lia.
Qed.

(** ** A number below one *)

(** The mantissa of 1e9, whose exponent is -23. *)
Lemma Prim2SF_1e9 : Prim2SF 1000000000%float = S754_finite false 8388608000000000 (-23).
Proof. reflexivity. Qed.

Lemma Prim2SF_one : Prim2SF 1%float = S754_finite false 4503599627370496 (-52).
Proof. reflexivity. Qed.

Lemma below_one m e :
  bounded prec emax m e = true ->
  SFltb (S754_finite false m e) (S754_finite false 4503599627370496 (-52)) = true ->
  e <= -53.
Proof.
  intros Hb Hlt. unfold SFltb, SFcompare in Hlt.
  destruct (Z.compare_spec e (-52)) as [He|He|He]; [|lia|discriminate Hlt].
  exfalso. subst e.
  rewrite Pos.compare_cont_spec in Hlt. cbn [Pos.switch_Eq] in Hlt.
  destruct (Pos.compare_spec m 4503599627370496) as [Hc|Hc|Hc]; try discriminate Hlt.
  clear Hlt.
  unfold bounded, canonical_mantissa, fexp in Hb.
  apply andb_true_iff in Hb. destruct Hb as [Hcan _]. apply Z.eqb_eq in Hcan.
  change prec with 53 in Hcan. change (SpecFloat.emin 53 emax) with (-1074) in Hcan.
  assert (Hd : Z.pos (digits2_pos m) <= 52).
  { apply (digits_le m 52); [clear; lia|].
    change (2 ^ 52) with (Z.pos 4503599627370496). apply Pos2Z.pos_lt_pos. exact Hc. }
  clear Hc. change IntDef.Z.max with Z.max in Hcan. lia.
Qed.

(** ** The product of a number below one and 1e9 *)

Lemma fexp_le n : n <= 30 -> fexp prec emax n <= -23.
Proof.
  intros H. unfold fexp. change prec with 53. change (SpecFloat.emin 53 emax) with (-1074).
  change IntDef.Z.max with Z.max. lia.
Qed.

Lemma pow2_split a b : 0 <= a -> 0 <= b -> 2 ^ (a + b) = 2 ^ a * 2 ^ b.
Proof. intros. apply Z.pow_add_r; assumption. Qed.

(** Rounded to binary64, the product stays below 1e9: it is zero, or a
    positive number with a negative exponent whose integer part is below
    [10^9]. *)
Lemma product_below_1e9 m e :
  bounded prec emax m e = true -> e <= -53 ->
  let r := binary_round_aux prec emax false (Z.pos (m * 8388608000000000)) (e + -23)
             loc_Exact in
  r = S754_zero false
  \/ exists m3 e3, r = S754_finite false m3 e3 /\ e3 < 0
                   /\ Z.pos m3 / 2 ^ (- e3) < 10 ^ 9.
Proof.
  intros Hb He. cbv zeta.
  pose proof (bounded_lt_2_53 m e Hb) as Hm.
  destruct (binary_round_aux_bound (m * 8388608000000000) (e + -23))
    as (m2 & m3 & e2 & e3 & He2 & Hm2 & Hbound & He3 & Hm3 & Hr).
  rewrite Hr. clear Hr.
  rewrite Pos2Z.inj_mul in Hbound.
  set (MY := Z.pos 8388608000000000) in *.
  assert (HMY : MY = 10 ^ 9 * 2 ^ 23) by reflexivity.
  assert (HMYlo : 2 ^ 52 < MY) by reflexivity.
  assert (HMYhi : MY < 2 ^ 53) by reflexivity.
  set (E := e + -23) in *.
  (* the first exponent *)
  assert (HM : Z.pos (m * 8388608000000000) < 2 ^ 106).
  { rewrite Pos2Z.inj_mul. fold MY.
    replace 106 with (53 + 53) by reflexivity. rewrite pow2_split by lia.
    apply Z.mul_lt_mono_nonneg; lia. }
  assert (Hd : Z.pos (digits2_pos (m * 8388608000000000)) <= 106)
    by (apply digits_le; [lia|exact HM]).
  clear HM.
  set (d := Z.pos (digits2_pos (m * 8388608000000000))) in *.
  assert (HF : fexp prec emax (d + E) <= -23) by (apply fexp_le; unfold E; lia).
  set (F := fexp prec emax (d + E)) in *.
  assert (HK : 0 <= e2 - E <= - e) by (unfold E in *; lia).
  set (K := e2 - E) in *.
  (* the rounded mantissa *)
  set (a := - e - 53).
  assert (Ha : 0 <= a) by (unfold a; lia).
  assert (Hc : 1 <= 2 ^ a) by (pose proof (Z.pow_pos_nonneg 2 a); lia).
  assert (Hpe : 2 ^ (- e) = 2 ^ 53 * 2 ^ a).
  { replace (- e) with (53 + a) by (unfold a; lia). apply pow2_split; lia. }
  assert (HPK : 0 < 2 ^ K <= 2 ^ (- e)).
  { split; [apply Z.pow_pos_nonneg; lia|apply Z.pow_le_mono_r; lia]. }
  assert (Hlt : m2 * 2 ^ K < MY * 2 ^ (- e)).
  { rewrite Hpe in *. set (c := 2 ^ a) in *. set (P := 2 ^ K) in *.
    set (A := 2 ^ 53) in *.
    assert (HA : 0 < A) by reflexivity.
    assert (H1 : Z.pos m * MY <= (A - 1) * MY) by (apply Z.mul_le_mono_nonneg_r; lia).
    assert (H2 : A * (2 * MY - 1) <= A * c * (2 * MY - 1)).
    { apply Z.mul_le_mono_nonneg_r; [lia|]. nia. }
    nia. }
  (* the second exponent *)
  assert (Hm2lt : m2 < 2 ^ (53 - e - K)).
  { apply (Z.mul_lt_mono_pos_r (2 ^ K)); [lia|].
    rewrite <- pow2_split by lia. replace (53 - e - K + K) with (53 + - e) by lia.
    rewrite pow2_split by lia.
    apply Z.lt_le_trans with (1 := Hlt).
    apply Z.mul_le_mono_nonneg_r; lia. }
  assert (Hd2 : Zdigits2 m2 <= 53 - e - K) by (apply Zdigits2_le; lia).
  assert (HF2 : fexp prec emax (Zdigits2 m2 + e2) <= -23)
    by (apply fexp_le; unfold K, E in *; lia).
  set (F2 := fexp prec emax (Zdigits2 m2 + e2)) in *.
  assert (He3' : e2 <= e3 <= -23) by lia.
  assert (HP3 : 0 < 2 ^ (e3 - e2)) by (apply Z.pow_pos_nonneg; lia).
  assert (Hm3' : 0 <= m3 /\ m3 * 2 ^ (e3 - e2) <= m2).
  { subst m3. split; [apply Z.div_pos; lia|].
    rewrite Z.mul_comm. apply Z.mul_div_le. lia. }
  destruct Hm3' as [Hm3nn Hm3le]. clear Hm3.
  destruct m3 as [|p3|p3]; [left; reflexivity| |lia].
  right. exists p3, e3.
  replace (e3 <=? emax - prec) with true
    by (symmetry; apply Z.leb_le; change (emax - prec) with 971; lia).
  split; [reflexivity|]. split; [lia|].
  apply Z.div_lt_upper_bound; [apply Z.pow_pos_nonneg; lia|].
  (* p3 < 2^(-e3) * 10^9 *)
  apply (Z.mul_lt_mono_pos_r (2 ^ (e3 - E))); [apply Z.pow_pos_nonneg; unfold K in *; lia|].
  replace (2 ^ (- e3) * 10 ^ 9 * 2 ^ (e3 - E)) with (MY * 2 ^ (- e)).
  - apply Z.le_lt_trans with (2 := Hlt).
    replace (e3 - E) with ((e3 - e2) + K) by (unfold K; lia).
    rewrite pow2_split by lia. rewrite Z.mul_assoc.
    apply Z.mul_le_mono_nonneg_r; lia.
  - rewrite HMY. replace (- e) with (- E - 23) by (unfold E; lia).
    replace (2 ^ (- e3) * 10 ^ 9 * 2 ^ (e3 - E))
      with (10 ^ 9 * (2 ^ (- e3) * 2 ^ (e3 - E))) by ring.
    rewrite <- pow2_split by (unfold K in *; lia).
    replace (- e3 + (e3 - E)) with (23 + (- E - 23)) by lia.
    rewrite pow2_split by (unfold E; lia). ring.
Qed.

(** ** The numbers [ofZ] gives for small integers *)

Lemma digits_iter_xO p d :
  Z.pos (digits2_pos (Pos.iter xO p d)) = Z.pos (digits2_pos p) + Z.pos d.
Proof.
  induction d as [|d IH] using Pos.peano_ind.
  - cbn [Pos.iter digits2_pos]. lia.
  - rewrite Pos.iter_succ. cbn [digits2_pos]. rewrite Pos2Z.inj_succ, IH. lia.
Qed.

Lemma ofZ_zero : Prim2SF (ofZ 0) = S754_zero false.
Proof. unfold ofZ. cbn [binary_normalize]. apply Prim2SF_SF2Prim. reflexivity. Qed.

(** A positive integer below [2^52] is a binary64 number. *)
Lemma ofZ_small n :
  0 < n < 2 ^ 52 -> exists m e, Prim2SF (ofZ n) = S754_finite false m e.
Proof.
  intros [Hpos Hlt]. destruct n as [|p|p]; try lia. clear Hpos.
  assert (Hd : Z.pos (digits2_pos p) <= 52) by (apply digits_le; [lia|exact Hlt]).
  clear Hlt.
  set (j := Z.to_nat (52 - Z.pos (digits2_pos p))).
  assert (Hj : Z.of_nat (S j) = 53 - Z.pos (digits2_pos p)) by (unfold j; lia).
  assert (Hb : bounded prec emax (Pos.iter xO p (Pos.of_succ_nat j)) (0 - Z.of_nat (S j))
               = true).
  { unfold bounded, canonical_mantissa, fexp. rewrite digits_iter_xO.
    rewrite Zpos_P_of_succ_nat, <- Nat2Z.inj_succ, Hj.
    change prec with 53. change emax with 1024. change (SpecFloat.emin 53 1024) with (-1074).
    change IntDef.Z.max with Z.max.
    apply andb_true_iff. split; [apply Z.eqb_eq|apply Z.leb_le]; lia. }
  exists (Pos.iter xO p (Pos.of_succ_nat j)), (0 - Z.of_nat (S j)).
  unfold ofZ. cbn [binary_normalize].
  rewrite <- (binary_round_shift false p 0 j), (binary_round_valid _ _ _ Hb).
  apply Prim2SF_SF2Prim. exact Hb.
Qed.

Lemma ofZ_plain n : 0 <= n < 10 ^ 9 -> plain (ofZ n) = true.
Proof.
  intros Hn. unfold plain. destruct (Z.eq_dec n 0) as [->|Hne].
  - rewrite ofZ_zero. reflexivity.
  - destruct (ofZ_small n) as (m & e & ->); [|reflexivity].
    assert (H : 10 ^ 9 < 2 ^ 52) by reflexivity. lia.
Qed.

(** X16.  For a number [Math.random()] can return, of positive sign and
    below 1, [generateID] gives a whole number from 0 to 999999999: a
    finite number that the stored text carries unchanged. *)
Theorem generated_ids_are_whole_numbers_below_1e9 random :
  isRandom random = true ->
  exists n, 0 <= n < 10 ^ 9
            /\ generateID random = ofZ n
            /\ plain (generateID random) = true.
Proof.
  unfold isRandom, generateID. intros Hr.
  set (a := PrimFloat.mul random 1000000000%float).
  assert (Ha : Prim2SF a = SF64mul (Prim2SF random) (Prim2SF 1000000000%float))
    by apply mul_spec.
  rewrite Prim2SF_1e9 in Ha.
  assert (Hzero : Prim2SF a = S754_zero false ->
                  exists n, 0 <= n < 10 ^ 9 /\ Math_floor a = ofZ n
                            /\ plain (Math_floor a) = true).
  { intros Hz. exists 0. unfold Math_floor. rewrite Hz.
    split; [split; [lia|reflexivity]|]. split.
    - apply Prim2SF_inj. rewrite Hz, ofZ_zero. reflexivity.
    - unfold plain. rewrite Hz. reflexivity. }
  pose proof (Prim2SF_valid random) as Hvalid.
  destruct (Prim2SF random) as [[]|s| |[] m e] eqn:Er; try discriminate Hr.
  - apply Hzero. rewrite Ha. reflexivity.
  - unfold lt in Hr. rewrite ltb_spec, Er, Prim2SF_one in Hr.
    cbn [valid_binary] in Hvalid.
    pose proof (below_one m e Hvalid Hr) as He.
    destruct (product_below_1e9 m e Hvalid He) as [Hz|(m3 & e3 & Hf & He3 & Hq)].
    + apply Hzero. rewrite Ha. exact Hz.
    + assert (Hfin : Prim2SF a = S754_finite false m3 e3) by (rewrite Ha; exact Hf).
      assert (Hnn : 0 <= Z.pos m3 / 2 ^ (- e3)).
      { apply Z.div_pos; [lia|]. apply Z.pow_pos_nonneg; lia. }
      assert (Hfloor : Math_floor a = ofZ (Z.pos m3 / 2 ^ (- e3))).
      { unfold Math_floor. rewrite Hfin.
        replace (0 <=? e3) with false by (symmetry; apply Z.leb_gt; exact He3).
        rewrite Z.shiftr_div_pow2 by lia. reflexivity. }
      exists (Z.pos m3 / 2 ^ (- e3)). split; [split; assumption|].
      split; [exact Hfloor|]. rewrite Hfloor. apply ofZ_plain. split; assumption.
Qed.

Lemma generated_ids_are_whole_numbers_below_1e9_witness :
  exists n, 0 <= n < 10 ^ 9 /\ generateID 0.5%float = ofZ n
            /\ plain (generateID 0.5%float) = true.
Proof.
  apply (generated_ids_are_whole_numbers_below_1e9 0.5%float). reflexivity.
Defined.

End Identifier.
